(** * Verification of the wega-catalog-api enrichment crawler

    A shallow embedding of the crawler's core (package [client], [scraper],
    [repository] and [model] of the Go sources) together with the properties
    the specification states about it.

    Conventions of the embedding:
    - a Go [string] is a byte string, modelled as [string] (a list of
      [ascii] bytes); the functions of Go's [strings] package are modelled on
      bytes, which agrees with Go on ASCII text (case mapping and white space
      of non-ASCII runes are outside the model);
    - a Go [int] is modelled as [Z], the counters of the progress tracker
      with their 64-bit wrap-around; a [time.Duration] is a number of
      nanoseconds and a [float64] literal a primitive float;
    - a Go [(T, error)] result is modelled as [result T];
    - collaborators reached over the network or the database (the LLM
      provider, the advisor endpoint, the stores) are explicit parameters or
      explicit state. *)

From stdpp Require Import base option list gmap.
From Stdlib Require Import ZArith QArith List String Ascii Bool Lia Floats DecimalString.
Import ListNotations.
Set Warnings "-inexact-float".
Arguments String.append : simpl nomatch.
Local Open Scope string_scope.
Local Open Scope Z_scope.

(** ** Results of fallible calls *)

Inductive result (A : Type) : Type :=
| Ok (a : A)
| Err (msg : string).
Arguments Ok {A} a.
Arguments Err {A} msg.

(** ** Go's [strings] package on byte strings *)

Module GoStrings.

(** [len(s)]: the number of bytes. *)
Definition len (s : string) : Z := Z.of_nat (String.length s).

Definition lower_byte (c : ascii) : ascii :=
  let n := nat_of_ascii c in
  if (Nat.leb 65 n && Nat.leb n 90)%bool then ascii_of_nat (n + 32) else c.

(** [strings.ToLower] on ASCII text. *)
Fixpoint ToLower (s : string) : string :=
  match s with
  | EmptyString => EmptyString
  | String c r => String (lower_byte c) (ToLower r)
  end.

(** [strings.HasPrefix(s, p)]. *)
Definition HasPrefix (s p : string) : bool := String.prefix p s.

(** [strings.Contains(s, sub)]: [sub] occurs in [s] at some offset. *)
Fixpoint Contains (s sub : string) : bool :=
  match s with
  | EmptyString => String.prefix sub EmptyString
  | String _ r => String.prefix sub s || Contains r sub
  end.

(** The ASCII white space of [unicode.IsSpace]: tab, line feed, vertical tab,
    form feed, carriage return and space. *)
Definition isSpace (c : ascii) : bool :=
  let n := nat_of_ascii c in
  (Nat.leb 9 n && Nat.leb n 13)%bool || Nat.eqb n 32.

(** [strings.Fields]: the maximal runs of non-space bytes, in order. [cur]
    is the run being read. *)
Fixpoint fields_from (cur : string) (s : string) : list string :=
  match s with
  | EmptyString => if String.eqb cur EmptyString then [] else [cur]
  | String c r =>
      if isSpace c
      then (if String.eqb cur EmptyString then fields_from EmptyString r
            else cur :: fields_from EmptyString r)
      else fields_from (cur ++ String c EmptyString) r
  end.

Definition Fields (s : string) : list string := fields_from EmptyString s.

(** [strings.TrimSpace]: leading and trailing white space removed. *)
Fixpoint trimLeft (s : string) : string :=
  match s with
  | EmptyString => EmptyString
  | String c r => if isSpace c then trimLeft r else s
  end.

Fixpoint trimRight (s : string) : string :=
  match s with
  | EmptyString => EmptyString
  | String c r =>
      let r' := trimRight r in
      if isSpace c && String.eqb r' EmptyString then EmptyString else String c r'
  end.

Definition TrimSpace (s : string) : string := trimRight (trimLeft s).

(** [strings.Join(elems, sep)]. *)
Definition Join (elems : list string) (sep : string) : string :=
  String.concat sep elems.

(** [fmt.Sprintf("%d", n)]. *)
Definition itoa (n : Z) : string := NilZero.string_of_int (Z.to_int n).

(** Occurrence of [sub] inside [s], as a proposition. *)
Definition occurs_in (sub s : string) : Prop :=
  exists pre post : string, s = pre ++ sub ++ post.

(** *** Facts about the string functions *)

Lemma append_assoc (a b c : string) : (a ++ b) ++ c = a ++ (b ++ c).
Proof. induction a as [|x a IH]; simpl; [reflexivity | now rewrite IH]. Qed.

Lemma append_nil_r (a : string) : a ++ EmptyString = a.
Proof. induction a as [|x a IH]; simpl; [reflexivity | now rewrite IH]. Qed.

Lemma prefix_true_iff (p s : string) :
  String.prefix p s = true <-> exists post, s = p ++ post.
Proof.
  revert s. induction p as [|x p IH]; intros s.
  - destruct s; simpl; split; eauto.
  - destruct s as [|y s]; simpl.
    + split; [discriminate | intros (post & H); discriminate].
    + destruct (Ascii.ascii_dec x y) as [->|Hne].
      * rewrite IH. split; intros (post & H); exists post; [now subst | now inversion H].
      * split; [discriminate | intros (post & H); inversion H; congruence].
Qed.

Lemma Contains_true_iff (s sub : string) :
  Contains s sub = true <-> occurs_in sub s.
Proof.
  unfold occurs_in. induction s as [|c s IH].
  - change (Contains EmptyString sub) with (String.prefix sub EmptyString).
    rewrite prefix_true_iff. split.
    + intros (post & H). exists EmptyString, post. exact H.
    + intros (pre & post & H). destruct pre; simpl in H.
      * exists post. exact H.
      * discriminate.
  - change (Contains (String c s) sub)
      with (String.prefix sub (String c s) || Contains s sub).
    rewrite orb_true_iff, IH, prefix_true_iff. split.
    + intros [(post & H)|(pre & post & H)].
      * exists EmptyString, post. exact H.
      * exists (String c pre), post. simpl. now rewrite H.
    + intros (pre & post & H). destruct pre as [|x pre]; simpl in H.
      * left. exists post. exact H.
      * right. inversion H. exists pre, post. reflexivity.
Qed.

Lemma occurs_in_refl (s : string) : occurs_in s s.
Proof. exists EmptyString, EmptyString. simpl. now rewrite append_nil_r. Qed.

Lemma occurs_in_app_l (sub a b : string) : occurs_in sub a -> occurs_in sub (a ++ b).
Proof.
  intros (pre & post & ->). exists pre, (post ++ b).
  now rewrite !append_assoc.
Qed.

Lemma occurs_in_app_r (sub a b : string) : occurs_in sub b -> occurs_in sub (a ++ b).
Proof.
  intros (pre & post & ->). exists (a ++ pre), post.
  now rewrite !append_assoc.
Qed.

(** Every element of a joined list occurs in the result. *)
Lemma Join_occurs (elems : list string) (sep x : string) :
  In x elems -> occurs_in x (Join elems sep).
Proof.
  unfold Join. induction elems as [|a l IH]; [intros []|].
  intros [->|Hin].
  - destruct l; simpl; [apply occurs_in_refl | apply occurs_in_app_l, occurs_in_refl].
  - destruct l as [|b l]; [destruct Hin|].
    change (concat sep (a :: b :: l)) with (a ++ sep ++ concat sep (b :: l)).
    apply occurs_in_app_r, occurs_in_app_r, IH, Hin.
Qed.

End GoStrings.
Import GoStrings.

(** ** internal/scraper/smart_matcher.go *)

Module SmartMatcher.

Record CatalogVehicleType := {
  ID : string;
  Name : string;
  BrandID : string;
  ModelID : string;
  FullPath : string
}.

Record SmartMatchResult := {
  VehicleType : CatalogVehicleType;
  Confidence : float;
  MatchMethod : string;
  MotulBrand : string;
  MotulModel : string
}.

(** What [FindMatch] reaches through the matcher: the two resolution steps
    (cache, catalog and LLM behind them), the catalog's type list and the
    LLM's single-match call. *)
Record Matcher := {
  matchBrand : string -> result string;
  matchModel : string -> string -> result string;
  GetVehicleTypes : string -> string -> list CatalogVehicleType;
  NormalizeVehicle : string -> list string -> result string
}.

(** [isCommonWord]: membership in the table of filler words. *)
Definition common : list string :=
  ["de"; "do"; "da"; "o"; "a"; "e"; "em"; "com"; "para"; "cv"; "hp"; "v"].

Definition isCommonWord (word : string) : bool :=
  existsb (String.eqb word) common.

(** The loop of [containsAllParts]: the number of significant parts of the
    source found in the lowercased target. *)
Fixpoint countMatches (targetLower : string) (parts : list string) (matches : Z) : Z :=
  match parts with
  | [] => matches
  | part :: rest =>
      if (len part <? 2) || isCommonWord part
      then countMatches targetLower rest matches
      else if Contains targetLower part
           then countMatches targetLower rest (matches + 1)
           else countMatches targetLower rest matches
  end.

Definition containsAllParts (target source : string) : bool :=
  let sourceLower := ToLower source in
  let targetLower := ToLower target in
  let parts := Fields sourceLower in
  2 <=? countMatches targetLower parts 0.

Definition mkResult (vt : CatalogVehicleType) (c : float) (method brand model : string)
  : SmartMatchResult :=
  {| VehicleType := vt; Confidence := c; MatchMethod := method;
     MotulBrand := brand; MotulModel := model |}.

(** Step 5 of [FindMatch]: the loop over the candidate types. [first] is
    [types[0]], which is what the loop body returns. *)
Fixpoint exactLoop (first : CatalogVehicleType) (types : list CatalogVehicleType)
    (wegaDescription motulBrand motulModel : string) : option SmartMatchResult :=
  match types with
  | [] => None
  | vt :: rest =>
      if containsAllParts (Name vt) wegaDescription
      then Some (mkResult first 0.95%float "exact" motulBrand motulModel)
      else exactLoop first rest wegaDescription motulBrand motulModel
  end.

(** The last loop of [FindMatch]: the type the LLM named. *)
Fixpoint namedLoop (types : list CatalogVehicleType) (matchedName motulBrand motulModel : string)
  : option SmartMatchResult :=
  match types with
  | [] => None
  | vt :: rest =>
      if String.eqb (Name vt) matchedName
      then Some (mkResult vt 0.85%float "llm" motulBrand motulModel)
      else namedLoop rest matchedName motulBrand motulModel
  end.

Definition FindMatch (m : Matcher) (wegaBrand wegaModel wegaDescription : string) (year : Z)
  : result SmartMatchResult :=
  match matchBrand m wegaBrand with
  | Err e => Err ("brand not found: " ++ e)
  | Ok motulBrand =>
  match matchModel m motulBrand wegaModel with
  | Err e => Err ("model not found: " ++ e)
  | Ok motulModel =>
  let types := GetVehicleTypes m motulBrand motulModel in
  match types with
  | [] => Err ("no vehicle types found for " ++ motulBrand ++ " " ++ motulModel)
  | [only] => Ok (mkResult only 1.0%float "single" motulBrand motulModel)
  | first :: _ =>
  match exactLoop first types wegaDescription motulBrand motulModel with
  | Some r => Ok r
  | None =>
  let typeNames := map Name types in
  let fullDescription := wegaBrand ++ " " ++ wegaModel ++ " " ++ wegaDescription in
  let fullDescription :=
    if 0 <? year then fullDescription ++ " (" ++ itoa year ++ ")" else fullDescription in
  match NormalizeVehicle m fullDescription typeNames with
  | Err _ => Ok (mkResult first 0.5%float "fallback" motulBrand motulModel)
  | Ok matchedName =>
  match namedLoop types matchedName motulBrand motulModel with
  | Some r => Ok r
  | None => Ok (mkResult first 0.5%float "fallback" motulBrand motulModel)
  end end end end end end.

(** A catalog with one brand and one model of two types, and a description
    whose significant parts occur only in the second type's name. *)
Definition gol16 : CatalogVehicleType :=
  {| ID := "157001"; Name := "Gol 1.6 8V"; BrandID := "vw"; ModelID := "gol";
     FullPath := "Volkswagen > Gol > Gol 1.6 8V" |}.
Definition gol10 : CatalogVehicleType :=
  {| ID := "157067"; Name := "Gol 1.0 12V Flex"; BrandID := "vw"; ModelID := "gol";
     FullPath := "Volkswagen > Gol > Gol 1.0 12V Flex" |}.
Definition golMatcher : Matcher :=
  {| matchBrand := fun _ => Ok "Volkswagen";
     matchModel := fun _ _ => Ok "Gol";
     GetVehicleTypes := fun _ _ => [gol16; gol10];
     NormalizeVehicle := fun _ _ => Err "not reached" |}.

(** Some candidate's name holds at least two significant parts. *)
Definition someCandidateMatches (types : list CatalogVehicleType) (desc : string) : Prop :=
  exists vt, In vt types /\ containsAllParts (Name vt) desc = true.

Lemma exactLoop_Some first types desc b mo :
  someCandidateMatches types desc ->
  exactLoop first types desc b mo = Some (mkResult first 0.95%float "exact" b mo).
Proof.
  intros (vt & Hin & Hc). induction types as [|t ts IH]; [destruct Hin|].
  simpl. destruct (containsAllParts (Name t) desc) eqn:E; [reflexivity|].
  destruct Hin as [->|Hin]; [congruence|]. apply IH, Hin.
Qed.

Lemma exactLoop_None first types desc b mo :
  exactLoop first types desc b mo = None ->
  forall vt, In vt types -> containsAllParts (Name vt) desc = false.
Proof.
  induction types as [|t ts IH]; simpl; [intros _ ? []|].
  destruct (containsAllParts (Name t) desc) eqn:E; [discriminate|].
  intros H vt [<-|Hin]; [exact E|]. apply IH; assumption.
Qed.

(** C1, on the code: with the types [gol16; gol10] and the description
    "1.0 12V flex", only the second candidate's name holds two significant
    parts of the description, and [FindMatch] answers with the first
    candidate ([types[0]]) at confidence 0.95, not with the matching one. *)
Theorem FindMatch_exact_returns_first_type :
  containsAllParts (Name gol16) "1.0 12V flex" = false /\
  containsAllParts (Name gol10) "1.0 12V flex" = true /\
  FindMatch golMatcher "VW" "Gol" "1.0 12V flex" 2019
    = Ok (mkResult gol16 0.95%float "exact" "Volkswagen" "Gol") /\
  ID gol16 <> ID gol10.
Proof.
  split; [vm_compute; reflexivity|].
  split; [vm_compute; reflexivity|].
  split; [vm_compute; reflexivity|].
  vm_compute. discriminate.
Qed.

(** What step 5 does for every input: with two or more candidate types, one
    of which matches, the answer is the first candidate of the list at
    confidence 0.95 with method "exact". *)
Theorem FindMatch_exact_general (m : Matcher) wb wm desc year b mo t0 t1 ts :
  matchBrand m wb = Ok b ->
  matchModel m b wm = Ok mo ->
  GetVehicleTypes m b mo = t0 :: t1 :: ts ->
  someCandidateMatches (t0 :: t1 :: ts) desc ->
  FindMatch m wb wm desc year = Ok (mkResult t0 0.95%float "exact" b mo).
Proof.
  intros Hb Hm Ht Hc. unfold FindMatch. rewrite Hb, Hm, Ht.
  rewrite (exactLoop_Some t0 (t0 :: t1 :: ts) desc b mo Hc). reflexivity.
Qed.

Lemma FindMatch_exact_general_witness :
  FindMatch golMatcher "VW" "Gol" "1.0 12V flex" 2019
    = Ok (mkResult gol16 0.95%float "exact" "Volkswagen" "Gol").
Proof.
  apply (FindMatch_exact_general golMatcher "VW" "Gol" "1.0 12V flex" 2019
           "Volkswagen" "Gol" gol16 gol10 []); try reflexivity.
  exists gol10. split; [right; left; reflexivity | vm_compute; reflexivity].
Defined.

End SmartMatcher.

(** ** internal/scraper/motul_adapter.go: the specification parser *)

Module MotulAdapter.

(** The payload of [client.SpecificationsResponse] the parser reads. *)
Record Category := { Code : string; CategoryName : string }.
Record Capacity := { Label : string }.
Record Product := { ProductName : string }.
Record Recommendation := { Usage : string; Mileage : string; Products : list Product }.
Record Component := {
  ComponentCategory : Category;
  Capacities : list Capacity;
  Recommendations : list Recommendation
}.
Record SpecificationsResponse := { Components : list Component }.

Record OilSpecification := {
  TipoFluido : string;
  Viscosidade : string;
  Capacidade : string;
  Norma : string;
  Recomendacao : string
}.

(** The loop of [extractViscosity] over the fields of a product name. *)
Fixpoint extractViscosityLoop (parts : list string) : string :=
  match parts with
  | [] => ""
  | part :: rest =>
      if (4 <=? len part) && Contains part "W-" then part
      else if (3 <=? len part) && Contains part "W"
                && negb (HasPrefix (ToLower part) "w") then part
      else extractViscosityLoop rest
  end.

Definition extractViscosity (name : string) : string :=
  extractViscosityLoop (Fields name).

(** [unique]: [seen] is the set of strings met so far. *)
Fixpoint uniqueLoop (seen : list string) (strs : list string) : list string :=
  match strs with
  | [] => []
  | s :: rest =>
      if existsb (String.eqb s) seen then uniqueLoop seen rest
      else s :: uniqueLoop (s :: seen) rest
  end.

Definition unique (strs : list string) : list string := uniqueLoop [] strs.

Definition typeMap : list (string * string) :=
  [ ("ENGINE_OIL", "Óleo do Motor");
    ("TRANSMISSION_OIL", "Óleo de Transmissão");
    ("BRAKE_FLUID", "Fluido de Freio");
    ("COOLANT", "Líquido de Arrefecimento");
    ("POWER_STEERING", "Direção Hidráulica");
    ("DIFFERENTIAL", "Diferencial") ].

Fixpoint lookupType (m : list (string * string)) (k : string) : option string :=
  match m with
  | [] => None
  | (k', v) :: rest => if String.eqb k k' then Some v else lookupType rest k
  end.

Definition parseFluidType (componentType : string) : string :=
  match lookupType typeMap componentType with
  | Some pt => pt
  | None => componentType
  end.

(** The capacity loop: the non-empty labels, each with " L" appended. *)
Fixpoint capacityLoop (caps : list Capacity) : list string :=
  match caps with
  | [] => []
  | cap :: rest =>
      if String.eqb (Label cap) "" then capacityLoop rest
      else (Label cap ++ " L") :: capacityLoop rest
  end.

(** The two nested loops over recommendations and products: the product
    names and the viscosities collected from them, in order. *)
Fixpoint productLoop (prods : list Product) : list string * list string :=
  match prods with
  | [] => ([], [])
  | prod :: rest =>
      let '(names, viscs) := productLoop rest in
      if String.eqb (ProductName prod) "" then (names, viscs)
      else
        let visc := extractViscosity (ProductName prod) in
        (ProductName prod :: names,
         if String.eqb visc "" then viscs else visc :: viscs)
  end.

Fixpoint recommendationLoop (recs : list Recommendation) : list string * list string :=
  match recs with
  | [] => ([], [])
  | rec :: rest =>
      let '(names, viscs) := productLoop (Products rec) in
      let '(names', viscs') := recommendationLoop rest in
      (names ++ names', viscs ++ viscs')%list
  end.

(** The specification assembled for one component. *)
Definition specOf (comp : Component) : OilSpecification :=
  let capacidade :=
    match Capacities comp with
    | [] => ""
    | _ => Join (capacityLoop (Capacities comp)) ", "
    end in
  let '(recomendacao, viscosidade) :=
    match Recommendations comp with
    | [] => ("", "")
    | _ =>
        let '(productNames, viscosities) := recommendationLoop (Recommendations comp) in
        (Join (unique productNames) ", ", Join (unique viscosities) ", ")
    end in
  {| TipoFluido := parseFluidType (CategoryName (ComponentCategory comp));
     Viscosidade := viscosidade;
     Capacidade := capacidade;
     Norma := "";
     Recomendacao := recomendacao |}.

(** The guard "only add if we have useful data". *)
Definition useful (spec : OilSpecification) : bool :=
  negb (String.eqb (TipoFluido spec) "")
  && (negb (String.eqb (Viscosidade spec) "")
      || negb (String.eqb (Capacidade spec) "")
      || negb (String.eqb (Recomendacao spec) "")).

Fixpoint componentLoop (comps : list Component) : list OilSpecification :=
  match comps with
  | [] => []
  | comp :: rest =>
      let spec := specOf comp in
      if useful spec then spec :: componentLoop rest else componentLoop rest
  end.

(** [GetSpecifications]: [api] is what the advisor client returned. *)
Definition GetSpecifications (api : result SpecificationsResponse)
  : result (list OilSpecification) :=
  match api with
  | Err e => Err ("failed to get specifications: " ++ e)
  | Ok resp => Ok (componentLoop (Components resp))
  end.

(** The specification's viscosity pattern, [\d+W-?\d+], on a whole token. *)
Definition isDigit (c : ascii) : bool :=
  let n := nat_of_ascii c in (Nat.leb 48 n && Nat.leb n 57)%bool.

Fixpoint allDigits (s : string) : bool :=
  match s with
  | EmptyString => true
  | String c r => isDigit c && allDigits r
  end.

Definition digits1 (s : string) : bool :=
  negb (String.eqb s "") && allDigits s.

(** After the leading digits: [W], an optional dash, then digits to the end. *)
Definition afterDigits (s : string) : bool :=
  match s with
  | String "W" (String "-" r) => digits1 r
  | String "W" r => digits1 r
  | _ => false
  end.

Fixpoint viscosityFrom (seen : bool) (s : string) : bool :=
  match s with
  | EmptyString => false
  | String c r =>
      if isDigit c then viscosityFrom true r
      else seen && afterDigits s
  end.

Definition matchesViscosityPattern (token : string) : bool :=
  viscosityFrom false token.

(** An advisor answer with one engine-oil component whose recommended
    product is "MOTUL 8100 X-POWER 10W-60". *)
Definition xpowerComponent : Component :=
  {| ComponentCategory := {| Code := "ENGINE_OIL"; CategoryName := "ENGINE_OIL" |};
     Capacities := [ {| Label := "4.5" |} ];
     Recommendations :=
       [ {| Usage := "normal"; Mileage := "";
            Products := [ {| ProductName := "MOTUL 8100 X-POWER 10W-60" |} ] |} ] |}.

Definition xpowerResponse : SpecificationsResponse :=
  {| Components := [ xpowerComponent ] |}.

Lemma capacityLoop_In (caps : list Capacity) (cap : Capacity) :
  In cap caps -> Label cap <> "" -> In (Label cap ++ " L") (capacityLoop caps).
Proof.
  intros Hin Hne. induction caps as [|c cs IH]; [destruct Hin|].
  simpl. destruct Hin as [->|Hin].
  - destruct (String.eqb_spec (Label cap) ""); [contradiction | left; reflexivity].
  - destruct (String.eqb (Label c) ""); [|right]; apply IH, Hin.
Qed.

Lemma specOf_Capacidade (comp : Component) :
  Capacidade (specOf comp) = Join (capacityLoop (Capacities comp)) ", ".
Proof.
  unfold specOf.
  destruct (Recommendations comp); [|destruct (recommendationLoop _)]; simpl;
    destruct (Capacities comp); reflexivity.
Qed.

Lemma specOf_TipoFluido (comp : Component) :
  TipoFluido (specOf comp) = parseFluidType (CategoryName (ComponentCategory comp)).
Proof.
  unfold specOf.
  destruct (Recommendations comp); [|destruct (recommendationLoop _)]; reflexivity.
Qed.

Lemma componentLoop_In (comps : list Component) (comp : Component) :
  In comp comps -> useful (specOf comp) = true -> In (specOf comp) (componentLoop comps).
Proof.
  intros Hin Hu. induction comps as [|c cs IH]; [destruct Hin|].
  simpl. destruct Hin as [->|Hin].
  - rewrite Hu. left. reflexivity.
  - destruct (useful (specOf c)); [right|]; apply IH, Hin.
Qed.

Lemma occurs_in_empty (x : string) : occurs_in x "" -> x = "".
Proof.
  intros (pre & post & H). destruct pre; [|discriminate].
  destruct x; [reflexivity | discriminate].
Qed.

(** C2, on the code: for the product "MOTUL 8100 X-POWER 10W-60" the token
    "10W-60" matches the viscosity pattern, yet the emitted viscosity field
    is "X-POWER" and does not hold "10W-60"; the capacity "4.5" is emitted
    as "4.5 L". *)
Theorem GetSpecifications_viscosity_token_missed :
  In "10W-60" (Fields "MOTUL 8100 X-POWER 10W-60") /\
  matchesViscosityPattern "10W-60" = true /\
  GetSpecifications (Ok xpowerResponse)
    = Ok [ {| TipoFluido := "Óleo do Motor"; Viscosidade := "X-POWER";
              Capacidade := "4.5 L"; Norma := "";
              Recomendacao := "MOTUL 8100 X-POWER 10W-60" |} ] /\
  Contains "X-POWER" "10W-60" = false.
Proof.
  split; [vm_compute; tauto|].
  repeat split; vm_compute; reflexivity.
Qed.

(** The capacity half of the parser property, for every answer: a component
    with a fluid type and a non-empty capacity label is emitted, and the
    label followed by " L" occurs in its capacity field. *)
Theorem capacity_label_emitted (resp : SpecificationsResponse) (comp : Component)
    (cap : Capacity) :
  In comp (Components resp) ->
  In cap (Capacities comp) ->
  Label cap <> "" ->
  parseFluidType (CategoryName (ComponentCategory comp)) <> "" ->
  exists specs,
    GetSpecifications (Ok resp) = Ok specs /\
    In (specOf comp) specs /\
    occurs_in (Label cap ++ " L") (Capacidade (specOf comp)).
Proof.
  intros Hcomp Hcap Hlabel Htipo.
  assert (Hocc : occurs_in (Label cap ++ " L") (Capacidade (specOf comp))).
  { rewrite specOf_Capacidade. apply Join_occurs, capacityLoop_In; assumption. }
  exists (componentLoop (Components resp)). split; [reflexivity|]. split; [|exact Hocc].
  apply componentLoop_In; [exact Hcomp|].
  unfold useful. rewrite specOf_TipoFluido.
  destruct (String.eqb_spec (parseFluidType (CategoryName (ComponentCategory comp))) "");
    [contradiction|].
  destruct (String.eqb_spec (Capacidade (specOf comp)) "") as [E|_].
  - rewrite E in Hocc. apply occurs_in_empty in Hocc.
    destruct (Label cap); discriminate.
  - simpl. now rewrite orb_true_r.
Qed.

Lemma capacity_label_emitted_witness :
  exists specs,
    GetSpecifications (Ok xpowerResponse) = Ok specs /\
    In (specOf xpowerComponent) specs /\
    occurs_in ("4.5" ++ " L") (Capacidade (specOf xpowerComponent)).
Proof.
  apply (capacity_label_emitted xpowerResponse xpowerComponent {| Label := "4.5" |}).
  - left. reflexivity.
  - left. reflexivity.
  - discriminate.
  - vm_compute. discriminate.
Defined.

End MotulAdapter.

(** ** internal/client/motul.go: the advisor client's retry loop *)

Module MotulClient.

(** Durations are nanoseconds. *)
Definition Second : Z := 1000000000.

Record RetryConfig := {
  MaxRetries : Z;
  InitialBackoff : Z;
  MaxBackoff : Z;
  Multiplier : Q
}.

(** The configuration [NewMotulClient] installs. *)
Definition defaultConfig : RetryConfig :=
  {| MaxRetries := 5;
     InitialBackoff := 1 * Second;
     MaxBackoff := 30 * Second;
     Multiplier := 2 |}.

(** What one iteration of the loop meets: the limiter refusing, the request
    not being built, the transport failing, the body not being read, or an
    HTTP answer. *)
Inductive Attempt :=
| LimiterError (e : string)
| RequestError (e : string)
| TransportError (e : string)
| ReadError (e : string)
| Response (status : Z) (body : string).

(** A run of [fetchWithRetry]: what it returned, the attempts it made and
    the durations it slept, both in order. *)
Record Run := {
  outcome : result string;
  attempts : list Attempt;
  sleeps : list Z
}.

(** [time.Duration(float64(backoff) * Multiplier)]: the product, truncated
    toward zero. *)
Definition scale (d : Z) (m : Q) : Z :=
  let q := (inject_Z d * m)%Q in Z.quot (Qnum q) (Zpos (Qden q)).

Definition nextBackoff (cfg : RetryConfig) (backoff : Z) : Z :=
  Z.min (scale backoff (Multiplier cfg)) (MaxBackoff cfg).

Definition stop (a : Attempt) (r : result string) : Run :=
  {| outcome := r; attempts := [a]; sleeps := [] |}.

Definition retry (a : Attempt) (backoff : Z) (rest : Run) : Run :=
  {| outcome := outcome rest; attempts := a :: attempts rest;
     sleeps := backoff :: sleeps rest |}.

Definition statusError (status : Z) (body : string) : string :=
  "request failed with status " ++ itoa status ++ ": " ++ body.

(** The [for] loop. [fuel] is the number of iterations the loop has left,
    [MaxRetries + 1 - attempt]; [env] gives what attempt number [attempt]
    meets. *)
Fixpoint retryLoop (cfg : RetryConfig) (env : Z -> Attempt) (fuel : nat)
    (attempt backoff : Z) : Run :=
  match fuel with
  | O => {| outcome := Err "max retries exceeded"; attempts := []; sleeps := [] |}
  | S fuel' =>
      let a := env attempt in
      let again :=
        retry a backoff (retryLoop cfg env fuel' (attempt + 1) (nextBackoff cfg backoff)) in
      match a with
      | LimiterError e => stop a (Err e)
      | RequestError e => stop a (Err ("failed to create request: " ++ e))
      | TransportError e =>
          if attempt <? MaxRetries cfg then again
          else stop a (Err ("request failed after " ++ itoa (attempt + 1)
                              ++ " attempts: " ++ e))
      | ReadError e => stop a (Err ("failed to read response: " ++ e))
      | Response status body =>
          if status =? 200 then stop a (Ok body)
          else if ((status =? 429) || (500 <=? status)) && (attempt <? MaxRetries cfg)
               then again
               else stop a (Err (statusError status body))
      end
  end.

Definition fetchWithRetry (cfg : RetryConfig) (env : Z -> Attempt) : Run :=
  retryLoop cfg env (Z.to_nat (MaxRetries cfg + 1)) 0 (InitialBackoff cfg).

(** The successive backoffs, [n] of them from [b]. *)
Fixpoint backoffs (cfg : RetryConfig) (b : Z) (n : nat) : list Z :=
  match n with
  | O => []
  | S n' => b :: backoffs cfg (nextBackoff cfg b) n'
  end.

(** An attempt after which the loop may go round again. *)
Definition retryCause (a : Attempt) : Prop :=
  match a with
  | TransportError _ => True
  | Response status _ => status = 429 \/ 500 <= status
  | _ => False
  end.

(** The failures the retry policy names. *)
Definition retriable (a : Attempt) : Prop :=
  match a with
  | TransportError _ => True
  | Response status _ => status = 429 \/ status = 500 \/ status = 502 \/ status = 503
  | _ => False
  end.

(** An HTTP answer that is neither a success nor a status of the policy. *)
Definition fatalStatus (a : Attempt) : Prop :=
  match a with
  | Response status _ => status <> 200 /\ status <> 429 /\ status < 500
  | _ => False
  end.

(** Whether the loop goes round again after attempt number [attempt] met [a]. *)
Definition continues (cfg : RetryConfig) (attempt : Z) (a : Attempt) : bool :=
  match a with
  | TransportError _ => attempt <? MaxRetries cfg
  | Response status _ =>
      negb (status =? 200) && ((status =? 429) || (500 <=? status))
      && (attempt <? MaxRetries cfg)
  | _ => false
  end.

(** What the loop returns when it stops at attempt number [attempt]. *)
Definition verdict (attempt : Z) (a : Attempt) : result string :=
  match a with
  | LimiterError e => Err e
  | RequestError e => Err ("failed to create request: " ++ e)
  | TransportError e =>
      Err ("request failed after " ++ itoa (attempt + 1) ++ " attempts: " ++ e)
  | ReadError e => Err ("failed to read response: " ++ e)
  | Response status body =>
      if status =? 200 then Ok body else Err (statusError status body)
  end.

(** [fuel] covers the iterations that the condition [attempt <= MaxRetries]
    leaves from [attempt] on. *)
Definition enoughFuel (cfg : RetryConfig) (fuel : nat) (attempt : Z) : Prop :=
  MaxRetries cfg + 1 - attempt <= Z.of_nat fuel.

Lemma retryLoop_S cfg env fuel attempt b :
  retryLoop cfg env (S fuel) attempt b
  = if continues cfg attempt (env attempt)
    then retry (env attempt) b (retryLoop cfg env fuel (attempt + 1) (nextBackoff cfg b))
    else stop (env attempt) (verdict attempt (env attempt)).
Proof.
  cbn [retryLoop]. unfold continues, verdict.
  destruct (env attempt) as [e|e|e|e|st body]; try reflexivity.
  destruct (st =? 200), ((st =? 429) || (500 <=? st)), (attempt <? MaxRetries cfg);
    reflexivity.
Qed.

Lemma continues_cause cfg attempt a :
  continues cfg attempt a = true -> retryCause a /\ attempt < MaxRetries cfg.
Proof.
  destruct a as [e|e|e|e|st body]; simpl; try discriminate.
  - intros H%Z.ltb_lt. split; [exact I | exact H].
  - rewrite !andb_true_iff, orb_true_iff, Z.eqb_eq, Z.leb_le, Z.ltb_lt. tauto.
Qed.

Lemma retriable_continues cfg attempt a :
  retriable a -> attempt < MaxRetries cfg -> continues cfg attempt a = true.
Proof.
  destruct a as [e|e|e|e|st body]; simpl; try contradiction.
  - intros _ H. now apply Z.ltb_lt.
  - intros H Hlt. apply Z.ltb_lt in Hlt. rewrite Hlt, andb_true_r.
    destruct H as [->|[->|[->| ->]]]; reflexivity.
Qed.

Lemma retryLoop_length cfg env fuel attempt b :
  (List.length (attempts (retryLoop cfg env fuel attempt b)) <= fuel)%nat.
Proof.
  revert attempt b. induction fuel as [|fuel IH]; intros attempt b; [simpl; lia|].
  rewrite retryLoop_S. destruct (continues cfg attempt (env attempt)); simpl; [|lia].
  specialize (IH (attempt + 1) (nextBackoff cfg b)). lia.
Qed.

Lemma retryLoop_nonempty cfg env fuel attempt b :
  (1 <= List.length (attempts (retryLoop cfg env (S fuel) attempt b)))%nat.
Proof.
  rewrite retryLoop_S. destruct (continues cfg attempt (env attempt)); simpl; lia.
Qed.

Lemma retryLoop_sleeps cfg env fuel attempt b :
  enoughFuel cfg fuel attempt ->
  sleeps (retryLoop cfg env fuel attempt b)
  = backoffs cfg b (List.length (attempts (retryLoop cfg env fuel attempt b)) - 1).
Proof.
  unfold enoughFuel.
  revert attempt b. induction fuel as [|fuel IH]; intros attempt b Hf; [reflexivity|].
  rewrite retryLoop_S.
  destruct (continues cfg attempt (env attempt)) eqn:E; [|reflexivity].
  apply continues_cause in E as [_ Hlt].
  destruct fuel as [|fuel']; [lia|].
  pose proof (IH (attempt + 1) (nextBackoff cfg b) ltac:(lia)) as IHr.
  pose proof (retryLoop_nonempty cfg env fuel' (attempt + 1) (nextBackoff cfg b)) as Hn.
  remember (retryLoop cfg env (S fuel') (attempt + 1) (nextBackoff cfg b)) as r.
  cbn [retry sleeps attempts List.length]. rewrite IHr.
  destruct (List.length (attempts r)) as [|n]; [lia|].
  cbn [backoffs]. rewrite !Nat.sub_succ, !Nat.sub_0_r. reflexivity.
Qed.

Lemma retryLoop_removelast cfg env fuel attempt b :
  Forall retryCause (removelast (attempts (retryLoop cfg env fuel attempt b))).
Proof.
  revert attempt b. induction fuel as [|fuel IH]; intros attempt b; [constructor|].
  rewrite retryLoop_S.
  destruct (continues cfg attempt (env attempt)) eqn:E; [|constructor].
  apply continues_cause in E as [Hc _]. cbn [retry attempts].
  specialize (IH (attempt + 1) (nextBackoff cfg b)).
  destruct (attempts (retryLoop cfg env fuel (attempt + 1) (nextBackoff cfg b))) eqn:Ea;
    [constructor|].
  constructor; [exact Hc | exact IH].
Qed.

Lemma retryLoop_env cfg env fuel attempt b i a :
  nth_error (attempts (retryLoop cfg env fuel attempt b)) i = Some a ->
  a = env (attempt + Z.of_nat i).
Proof.
  revert attempt b i. induction fuel as [|fuel IH]; intros attempt b i.
  - destruct i; discriminate.
  - rewrite retryLoop_S. destruct (continues cfg attempt (env attempt)).
    + destruct i as [|i]; cbn [retry attempts nth_error].
      * intros [= <-]. f_equal. lia.
      * intros H%IH. rewrite H. f_equal. lia.
    + destruct i as [|[|i]]; cbn [stop attempts nth_error]; try discriminate.
      intros [= <-]. f_equal. lia.
Qed.

Lemma retryLoop_retried cfg env fuel attempt b i a :
  enoughFuel cfg fuel attempt ->
  nth_error (attempts (retryLoop cfg env fuel attempt b)) i = Some a ->
  retriable a -> attempt + Z.of_nat i < MaxRetries cfg ->
  (S i < List.length (attempts (retryLoop cfg env fuel attempt b)))%nat.
Proof.
  unfold enoughFuel.
  revert attempt b i. induction fuel as [|fuel IH]; intros attempt b i Hf.
  - destruct i; discriminate.
  - rewrite retryLoop_S. destruct i as [|i].
    + destruct (continues cfg attempt (env attempt)) eqn:E.
      * intros _ _ Hlt. cbn [retry attempts]. destruct fuel as [|fuel']; [lia|].
        pose proof (retryLoop_nonempty cfg env fuel' (attempt + 1) (nextBackoff cfg b)).
        cbn [List.length]. lia.
      * cbn [stop attempts nth_error]. intros [= <-] Hr Hlt.
        rewrite retriable_continues in E by (assumption || lia). discriminate.
    + destruct (continues cfg attempt (env attempt)) eqn:E.
      * cbn [retry attempts nth_error]. intros Hn Hr Hlt.
        assert (S i < List.length (attempts (retryLoop cfg env fuel (attempt + 1) (nextBackoff cfg b))))%nat.
        { apply IH; try assumption; lia. }
        cbn [List.length]. lia.
      * cbn [stop attempts nth_error]. destruct i; discriminate.
Qed.

Lemma retryLoop_outcome cfg env fuel attempt b :
  let r := retryLoop cfg env (S fuel) attempt b in
  enoughFuel cfg (S fuel) attempt ->
  exists a, last (attempts r) (LimiterError "") = a /\
    outcome r = verdict (attempt + Z.of_nat (List.length (attempts r)) - 1) a.
Proof.
  unfold enoughFuel. cbv zeta.
  revert attempt b. induction fuel as [|fuel IH]; intros attempt b Hf; rewrite retryLoop_S.
  - destruct (continues cfg attempt (env attempt)) eqn:E.
    + apply continues_cause in E as [_ Hlt]. lia.
    + eexists. split; [reflexivity|]. cbn [stop outcome attempts List.length]. f_equal. lia.
  - destruct (continues cfg attempt (env attempt)) eqn:E.
    + apply continues_cause in E as [_ Hlt].
      destruct (IH (attempt + 1) (nextBackoff cfg b)) as (a & Hl & Ho); [lia|].
      exists a. cbn [retry outcome attempts].
      pose proof (retryLoop_nonempty cfg env fuel (attempt + 1) (nextBackoff cfg b)) as Hn.
      destruct (attempts (retryLoop cfg env (S fuel) (attempt + 1) (nextBackoff cfg b))) eqn:Ea;
        [simpl in Hn; lia|].
      split; [exact Hl|]. rewrite Ho. f_equal. cbn [List.length]. lia.
    + eexists. split; [reflexivity|]. cbn [stop outcome attempts List.length]. f_equal. lia.
Qed.

Lemma nth_error_removelast {A} (l : list A) (i : nat) (a : A) :
  nth_error l i = Some a -> (S i < List.length l)%nat -> In a (removelast l).
Proof.
  revert i. induction l as [|x l IH]; intros i; [destruct i; discriminate|].
  destruct i as [|i]; cbn [nth_error List.length].
  - intros [= ->] Hl. destruct l; [simpl in Hl; lia | left; reflexivity].
  - intros Hn Hl. destruct l as [|y l]; [destruct i; discriminate|].
    right. apply (IH i); [exact Hn | simpl in *; lia].
Qed.

Lemma nth_error_last {A} (l : list A) (i : nat) (a d : A) :
  nth_error l i = Some a -> S i = List.length l -> last l d = a.
Proof.
  revert i. induction l as [|x l IH]; intros i; [destruct i; discriminate|].
  destruct i as [|i]; cbn [nth_error List.length].
  - intros [= ->] Hl. destruct l; [reflexivity | discriminate].
  - intros Hn Hl. destruct l as [|y l]; [destruct i; discriminate|].
    apply (IH i); [exact Hn | simpl in *; lia].
Qed.

(** The backoffs of the default configuration. *)
Lemma default_backoffs (k : nat) :
  (k <= 5)%nat ->
  backoffs defaultConfig (InitialBackoff defaultConfig) k
  = firstn k [1 * Second; 2 * Second; 4 * Second; 8 * Second; 16 * Second].
Proof.
  intros Hk. do 6 (destruct k as [|k]; [vm_compute; reflexivity|]). lia.
Qed.

(** C3, as the code has it. A request makes between one and six attempts
    (the first and at most [MaxRetries] = 5 retries), attempt [i] meeting
    [env i]. Every attempt but the last ended in a transport error or in a
    status 429 or of at least 500. A transport error or a status 429, 500,
    502 or 503 met before the fifth retry is followed by another attempt.
    A status other than 200 and 429 and below 500 ends the request at once,
    with the status and the body in the error. The sleeps between attempts
    are 1 s, 2 s, 4 s, 8 s and 16 s in this order, none above 30 s. *)
Theorem fetchWithRetry_retry_policy (env : Z -> Attempt) :
  let r := fetchWithRetry defaultConfig env in
  (1 <= List.length (attempts r) <= 6)%nat /\
  (forall i a, nth_error (attempts r) i = Some a -> a = env (Z.of_nat i)) /\
  Forall retryCause (removelast (attempts r)) /\
  (forall i a, nth_error (attempts r) i = Some a -> retriable a -> (i < 5)%nat ->
     (S i < List.length (attempts r))%nat) /\
  (forall i st body, nth_error (attempts r) i = Some (Response st body) ->
     fatalStatus (Response st body) ->
     S i = List.length (attempts r) /\ outcome r = Err (statusError st body)) /\
  sleeps r
  = firstn (List.length (attempts r) - 1)
      [1 * Second; 2 * Second; 4 * Second; 8 * Second; 16 * Second] /\
  Forall (fun d => d <= 30 * Second) (sleeps r).
Proof.
  cbv zeta. unfold fetchWithRetry.
  change (Z.to_nat (MaxRetries defaultConfig + 1)) with 6%nat.
  assert (Hfuel : enoughFuel defaultConfig 6 0) by (unfold enoughFuel; simpl; lia).
  set (r := retryLoop defaultConfig env 6 0 (InitialBackoff defaultConfig)).
  pose proof (retryLoop_length defaultConfig env 6 0 (InitialBackoff defaultConfig)) as Hle.
  pose proof (retryLoop_nonempty defaultConfig env 5 0 (InitialBackoff defaultConfig)) as Hge.
  pose proof (retryLoop_removelast defaultConfig env 6 0 (InitialBackoff defaultConfig)) as Hcause.
  pose proof (retryLoop_sleeps defaultConfig env 6 0 (InitialBackoff defaultConfig) Hfuel) as Hsl.
  fold r in Hle, Hge, Hcause, Hsl.
  assert (Hsleeps : sleeps r = firstn (List.length (attempts r) - 1)
            [1 * Second; 2 * Second; 4 * Second; 8 * Second; 16 * Second]).
  { rewrite Hsl. apply default_backoffs. lia. }
  split; [lia|]. split; [|split; [exact Hcause|split; [|split; [|split; [exact Hsleeps|]]]]].
  - intros i a Hn. apply (retryLoop_env _ _ _ _ _ _ _ Hn).
  - intros i a Hn Hr Hi.
    apply (retryLoop_retried defaultConfig env 6 0 _ i a Hfuel Hn Hr).
    change (MaxRetries defaultConfig) with 5. lia.
  - intros i st body Hn (Hne200 & Hne429 & Hlt).
    assert (Hi : (i < List.length (attempts r))%nat).
    { apply nth_error_Some. rewrite Hn. discriminate. }
    assert (Hlast : S i = List.length (attempts r)).
    { destruct (Nat.eq_dec (S i) (List.length (attempts r))) as [E|E]; [exact E|].
      assert (Hin : In (Response st body) (removelast (attempts r))).
      { apply (nth_error_removelast _ i); [exact Hn | lia]. }
      rewrite Forall_forall in Hcause. apply Hcause in Hin. simpl in Hin. lia. }
    split; [exact Hlast|].
    destruct (retryLoop_outcome defaultConfig env 5 0 (InitialBackoff defaultConfig) Hfuel)
      as (a & Hl & Ho).
    fold r in Hl, Ho. rewrite (nth_error_last _ i _ _ Hn Hlast) in Hl. subst a.
    rewrite Ho. simpl. destruct (Z.eqb_spec st 200); [contradiction | reflexivity].
  - rewrite Hsleeps.
    destruct (List.length (attempts r)) as [|[|[|[|[|[|[|n]]]]]]]; try lia;
      simpl; repeat constructor; unfold Second; lia.
Qed.

(** C3 as the specification words it, "at most 5 attempts", fails: when the
    transport fails every time, the request is attempted six times. *)
Lemma fetchWithRetry_sixth_attempt :
  ~ (forall env : Z -> Attempt,
       (List.length (attempts (fetchWithRetry defaultConfig env)) <= 5)%nat).
Proof.
  intros H. specialize (H (fun _ => TransportError "connection reset")).
  vm_compute in H. lia.
Qed.

End MotulClient.

(** ** internal/client/groq.go: the single-match call of the disambiguator *)

Module GroqClient.

(** What [NormalizeVehicle] reaches: the rate limiter's [Wait] and the
    request with key failover, which answers a prompt with the content of
    the first choice or fails. *)
Record Provider := {
  wait : result unit;
  doRequestWithFailover : string -> result string
}.

Definition newline : string := String (ascii_of_nat 10) EmptyString.
Definition quote : string := String (ascii_of_nat 34) EmptyString.

(** The compact options list: "1.a 2.b ". *)
Fixpoint optionsListFrom (i : Z) (motulOptions : list string) : string :=
  match motulOptions with
  | [] => ""
  | opt :: rest => itoa (i + 1) ++ "." ++ opt ++ " " ++ optionsListFrom (i + 1) rest
  end.

Definition buildPrompt (wegaVehicle : string) (motulOptions : list string) : string :=
  "Q: Which option best matches " ++ quote ++ wegaVehicle ++ quote ++ "?" ++ newline
  ++ "IMPORTANT: If vehicle has NO turbo keywords (Turbo/TSI/T200/THP/130cv), choose NON-turbo option."
  ++ newline ++ TrimSpace (optionsListFrom 0 motulOptions) ++ newline ++ "A:".

(** The first character between '1' and '9' of the answer, as a number; 0
    when there is none. *)
Fixpoint firstDigit (response : string) : Z :=
  match response with
  | EmptyString => 0
  | String c r =>
      let n := nat_of_ascii c in
      if (Nat.leb 49 n && Nat.leb n 57)%bool then Z.of_nat n - 48 else firstDigit r
  end.

Definition turboKeywords : list string :=
  ["turbo"; "tsi"; "tfsi"; "t200"; "thp"; "130cv"; "130 cv"; "125cv"; "125 cv"].

(** The keyword loops of [smartFallback]. *)
Definition containsAny (keywords : list string) (lower : string) : bool :=
  existsb (fun kw => Contains lower kw) keywords.

Definition isTurbo (s : string) : bool := containsAny turboKeywords (ToLower s).

(** The loop over the options: the first whose turbo status is the
    vehicle's. *)
Fixpoint fallbackLoop (wegaIsTurbo : bool) (motulOptions : list string) : option string :=
  match motulOptions with
  | [] => None
  | opt :: rest =>
      if Bool.eqb wegaIsTurbo (isTurbo opt) then Some opt
      else fallbackLoop wegaIsTurbo rest
  end.

(** [smartFallback]; [None] stands for the panic of [motulOptions[0]] on an
    empty list. *)
Definition smartFallback (wegaVehicle : string) (motulOptions : list string) : option string :=
  let wegaIsTurbo := isTurbo wegaVehicle in
  match fallbackLoop wegaIsTurbo motulOptions with
  | Some opt => Some opt
  | None => hd_error motulOptions
  end.

Definition fallbackResult (wegaVehicle : string) (motulOptions : list string) : result string :=
  match smartFallback wegaVehicle motulOptions with
  | Some opt => Ok opt
  | None => Err "index out of range"
  end.

Definition NormalizeVehicle (c : Provider) (wegaVehicle : string) (motulOptions : list string)
  : result string :=
  match motulOptions with
  | [] => Err "no Motul options provided"
  | [only] => Ok only
  | _ =>
  let prompt := buildPrompt wegaVehicle motulOptions in
  match wait c with
  | Err e => Err ("rate limit wait failed: " ++ e)
  | Ok _ =>
  match doRequestWithFailover c prompt with
  | Err e => Err e
  | Ok response =>
  let response := TrimSpace response in
  let optionNum := firstDigit response in
  if optionNum =? 0 then fallbackResult wegaVehicle motulOptions
  else if (optionNum <=? 0) || (Z.of_nat (List.length motulOptions) <? optionNum) then
    (if optionNum =? 0 then Err "LLM indicated no match"
     else fallbackResult wegaVehicle motulOptions)
  else
    match nth_error motulOptions (Z.to_nat (optionNum - 1)) with
    | Some opt => Ok opt
    | None => Err "index out of range"
    end
  end end end.

(** The option number [NormalizeVehicle] reads off an answer. *)
Definition optionNumOf (response : string) : Z := firstDigit (TrimSpace response).

(** A candidate is consistent with the vehicle when both or neither hold a
    turbo keyword. *)
Definition consistent (wegaVehicle opt : string) : Prop :=
  isTurbo opt = isTurbo wegaVehicle.

(** The markers the specification lists. *)
Definition specTurboMarkers : list string := ["turbo"; "tsi"; "tfsi"; "t200"; "thp"].
Definition specDieselMarkers : list string :=
  ["diesel"; "tdi"; "cdti"; "hdi"; "dci"; "jtd"; "d4d"].

(** Consistency as the specification words it: the candidate holds a turbo
    marker iff the target does, and the same for the diesel markers. *)
Definition specConsistent (wegaVehicle opt : string) : Prop :=
  containsAny specTurboMarkers (ToLower opt)
    = containsAny specTurboMarkers (ToLower wegaVehicle) /\
  containsAny specDieselMarkers (ToLower opt)
    = containsAny specDieselMarkers (ToLower wegaVehicle).

(** A name without a diesel marker. *)
Definition noDiesel (s : string) : Prop :=
  containsAny specDieselMarkers (ToLower s) = false.

(** The choice [smartFallback] makes. *)
Definition fallbackChoice (wegaVehicle : string) (motulOptions : list string) (r : string)
  : Prop :=
  In r motulOptions /\
  ((exists o, In o motulOptions /\ consistent wegaVehicle o) ->
     consistent wegaVehicle r /\
     exists pre post, motulOptions = (pre ++ r :: post)%list /\
       Forall (fun o => ~ consistent wegaVehicle o) pre) /\
  ((forall o, In o motulOptions -> ~ consistent wegaVehicle o) ->
     hd_error motulOptions = Some r).

(** A provider that passes the limiter and answers "0" to every prompt. *)
Definition zeroProvider : Provider :=
  {| wait := Ok tt; doRequestWithFailover := fun _ => Ok "0" |}.

Lemma firstDigit_range (s : string) : 0 <= firstDigit s <= 9.
Proof.
  induction s as [|c r IH]; [simpl; lia|]. cbn [firstDigit].
  destruct (Nat.leb 49 (nat_of_ascii c) && Nat.leb (nat_of_ascii c) 57)%bool eqn:E;
    [|exact IH].
  apply andb_true_iff in E as [E1 E2]. apply Nat.leb_le in E1, E2. lia.
Qed.

Lemma fallbackLoop_Some (t : bool) (opts : list string) (r : string) :
  fallbackLoop t opts = Some r ->
  isTurbo r = t /\
  exists pre post, opts = (pre ++ r :: post)%list /\ Forall (fun o => isTurbo o <> t) pre.
Proof.
  induction opts as [|o rest IH]; simpl; [discriminate|].
  destruct (Bool.eqb t (isTurbo o)) eqn:E.
  - intros [= <-]. apply Bool.eqb_prop in E. split; [congruence|].
    exists [], rest. split; [reflexivity | constructor].
  - intros H. destruct (IH H) as (Ht & pre & post & -> & Hpre). split; [exact Ht|].
    exists (o :: pre), post. split; [reflexivity|]. constructor; [|exact Hpre].
    intros Heq. rewrite Heq, Bool.eqb_reflx in E. discriminate.
Qed.

Lemma fallbackLoop_None (t : bool) (opts : list string) :
  fallbackLoop t opts = None -> forall o, In o opts -> isTurbo o <> t.
Proof.
  induction opts as [|x rest IH]; simpl; [intros _ o []|].
  destruct (Bool.eqb t (isTurbo x)) eqn:E; [discriminate|].
  intros H o [<-|Hin]; [|apply IH; assumption].
  intros Heq. rewrite Heq, Bool.eqb_reflx in E. discriminate.
Qed.

Lemma smartFallback_choice (w : string) (opts : list string) :
  opts <> [] -> exists r, smartFallback w opts = Some r /\ fallbackChoice w opts r.
Proof.
  intros Hne. unfold smartFallback.
  destruct (fallbackLoop (isTurbo w) opts) as [r|] eqn:E.
  - exists r. split; [reflexivity|].
    destruct (fallbackLoop_Some _ _ _ E) as (Ht & pre & post & Heq & Hpre).
    split; [rewrite Heq; apply in_or_app; right; left; reflexivity|].
    split.
    + intros _. split; [exact Ht|]. exists pre, post. split; [exact Heq | exact Hpre].
    + intros Hnone. exfalso. apply (Hnone r); [|exact Ht].
      rewrite Heq. apply in_or_app. right. left. reflexivity.
  - destruct opts as [|o rest]; [contradiction|]. exists o. split; [reflexivity|].
    split; [left; reflexivity|]. split; [|reflexivity].
    intros (o' & Hin & Hc). exfalso. exact (fallbackLoop_None _ _ E o' Hin Hc).
Qed.

(** C4, as the code has it. With the limiter passed and an answer obtained
    from the provider, [NormalizeVehicle] on a non-empty list returns one of
    its candidates. When the answer holds no digit from 1 to 9 or a number
    above the number of candidates, and neither the vehicle nor any
    candidate holds a diesel marker (diesel, tdi, cdti, hdi, dci, jtd, d4d),
    the candidate returned is the first whose lowercased form holds one of
    the turbo keywords (turbo, tsi, tfsi, t200, thp, 130cv, "130 cv", 125cv,
    "125 cv") iff the vehicle's does, and the first candidate of the list
    when there is none. Nothing is stated of the fallback on names with a
    diesel marker. *)
Theorem NormalizeVehicle_returns_candidate (c : Provider) (w : string)
    (opts : list string) (response : string) :
  opts <> [] ->
  wait c = Ok tt ->
  doRequestWithFailover c (buildPrompt w opts) = Ok response ->
  exists r,
    NormalizeVehicle c w opts = Ok r /\ In r opts /\
    ((2 <= List.length opts)%nat ->
     optionNumOf response = 0 \/ Z.of_nat (List.length opts) < optionNumOf response ->
     noDiesel w -> Forall noDiesel opts ->
     fallbackChoice w opts r).
Proof.
  intros Hne Hwait Hresp.
  destruct opts as [|o1 [|o2 rest]]; [contradiction| |].
  - exists o1. split; [reflexivity|]. split; [left; reflexivity|].
    simpl. lia.
  - set (opts := o1 :: o2 :: rest) in *.
    destruct (smartFallback_choice w opts Hne) as (r & Hfb & Hchoice).
    assert (Hres : fallbackResult w opts = Ok r) by (unfold fallbackResult; now rewrite Hfb).
    unfold NormalizeVehicle. fold opts.
    change (match opts with [] => _ | [only] => _ | _ => ?k end) with k.
    cbv zeta. rewrite Hwait, Hresp. fold (optionNumOf response).
    pose proof (firstDigit_range (TrimSpace response)) as Hrange.
    fold (optionNumOf response) in Hrange.
    destruct (Z.eqb_spec (optionNumOf response) 0) as [E0|E0].
    + exists r. split; [exact Hres|]. split; [apply Hchoice|]. intros _ _ _ _. exact Hchoice.
    + destruct (Z.leb_spec (optionNumOf response) 0) as [Hle|Hgt]; [lia|].
      destruct (Z.ltb_spec (Z.of_nat (List.length opts)) (optionNumOf response)) as [Hbig|Hin].
      * exists r. split; [exact Hres|]. split; [apply Hchoice|].
        intros _ _ _ _. exact Hchoice.
      * simpl orb. cbv iota.
        destruct (nth_error opts (Z.to_nat (optionNumOf response - 1))) as [opt|] eqn:En.
        -- exists opt. split; [reflexivity|]. split; [eapply nth_error_In; exact En|].
           intros _ [H|H]; lia.
        -- apply nth_error_None in En. lia.
Qed.

Lemma NormalizeVehicle_returns_candidate_witness :
  exists r,
    NormalizeVehicle zeroProvider "Gol 1.0 TSI" ["Gol 1.0"; "Gol 1.0 TSI"] = Ok r /\
    In r ["Gol 1.0"; "Gol 1.0 TSI"] /\
    fallbackChoice "Gol 1.0 TSI" ["Gol 1.0"; "Gol 1.0 TSI"] r.
Proof.
  destruct (NormalizeVehicle_returns_candidate zeroProvider "Gol 1.0 TSI"
              ["Gol 1.0"; "Gol 1.0 TSI"] "0") as (r & Hr & Hin & Hchoice);
    [discriminate | reflexivity | reflexivity |].
  exists r. split; [exact Hr|]. split; [exact Hin|]. apply Hchoice.
  - simpl. lia.
  - left. reflexivity.
  - vm_compute. reflexivity.
  - constructor; [vm_compute; reflexivity|].
    constructor; [vm_compute; reflexivity | constructor].
Defined.

(** C4 as the specification words it fails on the turbo markers: for the
    vehicle "Gol 1.0 130cv", which holds none of turbo, tsi, tfsi, t200, thp
    and no diesel marker, the candidate "Gol 1.0" is consistent with it, and
    the fallback returns "Gol 1.0 TSI", which is not. *)
Lemma NormalizeVehicle_fallback_not_spec_consistent :
  optionNumOf "0" = 0 /\
  NormalizeVehicle zeroProvider "Gol 1.0 130cv" ["Gol 1.0 TSI"; "Gol 1.0"]
    = Ok "Gol 1.0 TSI" /\
  In "Gol 1.0" ["Gol 1.0 TSI"; "Gol 1.0"] /\
  specConsistent "Gol 1.0 130cv" "Gol 1.0" /\
  ~ specConsistent "Gol 1.0 130cv" "Gol 1.0 TSI".
Proof.
  split; [reflexivity|]. split; [vm_compute; reflexivity|].
  split; [right; left; reflexivity|].
  split; [split; vm_compute; reflexivity|].
  intros [H _]. vm_compute in H. discriminate.
Qed.

(** The fallback of this client does not look at diesel markers, unlike
    the [smartFallback] of the Ollama client: for the vehicle "Golf 2.0 TDI"
    it returns the first candidate, "Golf 1.6". *)
Example NormalizeVehicle_fallback_ignores_diesel :
  NormalizeVehicle zeroProvider "Golf 2.0 TDI" ["Golf 1.6"; "Golf 2.0 TDI"] = Ok "Golf 1.6".
Proof. vm_compute. reflexivity. Qed.

End GroqClient.

(** ** internal/client/groq.go: the rate limiter

    [NewRateLimiter] makes an unbuffered channel [requests] and starts a
    goroutine that, on every tick, offers one token with
    [select { case requests <- struct{}{}: default: }]. [Wait] selects
    between receiving from [requests] and [ctx.Done()]. [Stop] stops the
    ticker and closes [requests]; the goroutine is not told, and a tick it
    took from [ticker.C] before may still be on offer afterwards.

    The limiter and its callers are modelled as a transition system over the
    events that can happen to it, with Go's channel rules: a send on an
    unbuffered channel succeeds only while a receiver is blocked on it; the
    receivers blocked on a channel are served first come, first served; a
    receive from a closed channel proceeds at once with the zero value;
    a send on a closed channel panics, also in a [select] with a [default]
    case; closing a closed channel panics. A panic ends the program: no
    call returns after it. *)

Module RateLimiter.

(** What a call of [Wait] returns: [nil] or [ctx.Err()]. *)
Inductive WaitResult := ReturnsNil | ReturnsCtxErr.

(** The limiter: whether the ticker runs, whether [requests] is closed,
    whether the program has panicked, and the calls of [Wait] blocked in the
    [select], oldest first. *)
Record World := {
  ticking : bool;
  closed : bool;
  panicked : bool;
  blocked : list nat
}.

Inductive Event :=
| CallWait (id : nat) (ctxDone : bool) (pickReceive : bool)
    (** a call of [Wait], numbered [id], whose context is or is not
        cancelled; [pickReceive] is the choice of [select] when both cases
        are ready *)
| Tick                          (** the goroutine offers the token of a tick
                                    it took from [ticker.C] *)
| Cancel (id : nat)             (** the context of the blocked call [id] is cancelled *)
| CallStop.                     (** a call of [Stop] *)

Definition NewRateLimiter : World :=
  {| ticking := true; closed := false; panicked := false; blocked := [] |}.

Definition memb (id : nat) (ids : list nat) : bool := existsb (Nat.eqb id) ids.

Definition without (id : nat) (ids : list nat) : list nat :=
  filter (fun j => negb (Nat.eqb id j)) ids.

(** One event: the next world and the calls of [Wait] that return, with
    what they return. *)
Definition step (w : World) (ev : Event) : World * list (nat * WaitResult) :=
  if panicked w then (w, []) else
  match ev with
  | CallWait id ctxDone pickReceive =>
      if closed w then
        (w, [(id, if ctxDone && negb pickReceive then ReturnsCtxErr else ReturnsNil)])
      else if ctxDone then (w, [(id, ReturnsCtxErr)])
      else ({| ticking := ticking w; closed := closed w; panicked := false;
               blocked := (blocked w ++ [id])%list |}, [])
  | Tick =>
      if closed w then
        ({| ticking := false; closed := true; panicked := true; blocked := [] |}, [])
      else if ticking w then
        match blocked w with
        | [] => (w, [])
        | id :: rest =>
            ({| ticking := ticking w; closed := closed w; panicked := false;
                blocked := rest |}, [(id, ReturnsNil)])
        end
      else (w, [])
  | Cancel id =>
      if memb id (blocked w) then
        ({| ticking := ticking w; closed := closed w; panicked := false;
            blocked := without id (blocked w) |}, [(id, ReturnsCtxErr)])
      else (w, [])
  | CallStop =>
      if closed w then
        ({| ticking := false; closed := true; panicked := true; blocked := [] |}, [])
      else
        ({| ticking := false; closed := true; panicked := false; blocked := [] |},
         map (fun id => (id, ReturnsNil)) (blocked w))
  end.

(** A sequence of events: the last world and everything returned on the way. *)
Fixpoint run (w : World) (evs : list Event) : World * list (nat * WaitResult) :=
  match evs with
  | [] => (w, [])
  | ev :: rest =>
      let '(w1, out1) := step w ev in
      let '(w2, out2) := run w1 rest in
      (w2, (out1 ++ out2)%list)
  end.

Definition isStop (ev : Event) : bool :=
  match ev with CallStop => true | _ => false end.

Definition isTick (ev : Event) : bool :=
  match ev with Tick => true | _ => false end.

(** [Stop] was called once and the program runs on. *)
Definition stopped (w : World) : Prop :=
  closed w = true /\ panicked w = false.

Lemma step_panicked (w : World) (ev : Event) :
  panicked w = true -> step w ev = (w, []).
Proof. intros Hp. unfold step. rewrite Hp. reflexivity. Qed.

Lemma run_panicked (w : World) (evs : list Event) :
  panicked w = true -> run w evs = (w, []).
Proof.
  intros Hp. induction evs as [|ev rest IH]; [reflexivity|].
  cbn [run]. rewrite (step_panicked w ev Hp), IH. reflexivity.
Qed.

(** Once [requests] is closed, a second [Stop] and an offer of a token
    panic; every other event leaves the limiter as it is. *)
Lemma step_stopped (w : World) (ev : Event) :
  stopped w ->
  if isStop ev || isTick ev then panicked (fst (step w ev)) = true
  else stopped (fst (step w ev)).
Proof.
  intros [Hc Hp]. unfold step. rewrite Hp.
  destruct ev as [id done pick| |id|]; cbn [isStop isTick orb].
  - rewrite Hc. split; assumption.
  - rewrite Hc. reflexivity.
  - destruct (memb id (blocked w)); split; cbn; first [assumption | reflexivity].
  - rewrite Hc. reflexivity.
Qed.

Lemma run_stopped (w : World) (evs : list Event) :
  stopped w ->
  if existsb (fun ev => isStop ev || isTick ev) evs
  then panicked (fst (run w evs)) = true
  else stopped (fst (run w evs)).
Proof.
  revert w. induction evs as [|ev rest IH]; intros w Hw; [exact Hw|].
  cbn [existsb run].
  pose proof (step_stopped w ev Hw) as H1.
  destruct (step w ev) as [w1 out1]. cbn [fst] in H1.
  destruct (isStop ev || isTick ev).
  - rewrite (run_panicked w1 rest H1). exact H1.
  - specialize (IH w1 H1). destruct (run w1 rest) as [w2 out2]. exact IH.
Qed.

(** After [Stop], a call of [Wait] with a live context returns [nil] at
    once, whatever calls of [Wait] and cancellations came in between. It
    does not return at all when, in between, [Stop] was called again or the
    goroutine offered a token: either panics. *)
Lemma Wait_after_Stop (w : World) (evs : list Event) (id : nat) (pick : bool) :
  closed w = false -> panicked w = false ->
  snd (step (fst (run (fst (step w CallStop)) evs)) (CallWait id false pick))
  = if existsb (fun ev => isStop ev || isTick ev) evs then [] else [(id, ReturnsNil)].
Proof.
  intros Hc Hp.
  assert (Hs : stopped (fst (step w CallStop))).
  { unfold step. rewrite Hp, Hc. split; reflexivity. }
  pose proof (run_stopped _ evs Hs) as Hrun.
  destruct (existsb (fun ev => isStop ev || isTick ev) evs).
  - rewrite step_panicked by exact Hrun. reflexivity.
  - destruct Hrun as [Hc' Hp']. unfold step at 1. rewrite Hp', Hc'. reflexivity.
Qed.

(** Tokens do not accumulate: after any number of ticks that met no caller,
    a call of [Wait] blocks and takes the next tick. *)
Lemma ticks_are_discarded (n : nat) (id : nat) (pick : bool) :
  run NewRateLimiter (repeat Tick n) = (NewRateLimiter, []) /\
  run NewRateLimiter (repeat Tick n ++ [CallWait id false pick])%list
  = ({| ticking := true; closed := false; panicked := false; blocked := [id] |}, []) /\
  snd (run NewRateLimiter (repeat Tick n ++ [CallWait id false pick; Tick])%list)
  = [(id, ReturnsNil)].
Proof.
  induction n as [|n (IH1 & IH2 & IH3)]; [repeat split; reflexivity|].
  change (repeat Tick (S n)) with (Tick :: repeat Tick n).
  split; [|split].
  - change (run NewRateLimiter (Tick :: repeat Tick n))
      with (let '(w2, out2) := run NewRateLimiter (repeat Tick n) in (w2, ([] ++ out2)%list)).
    rewrite IH1. reflexivity.
  - change (run NewRateLimiter ((Tick :: repeat Tick n) ++ [CallWait id false pick])%list)
      with (let '(w2, out2) :=
              run NewRateLimiter (repeat Tick n ++ [CallWait id false pick])%list in
            (w2, ([] ++ out2)%list)).
    rewrite IH2. reflexivity.
  - change (run NewRateLimiter ((Tick :: repeat Tick n) ++ [CallWait id false pick; Tick])%list)
      with (let '(w2, out2) :=
              run NewRateLimiter (repeat Tick n ++ [CallWait id false pick; Tick])%list in
            (w2, ([] ++ out2)%list)).
    destruct (run NewRateLimiter (repeat Tick n ++ [CallWait id false pick; Tick])%list)
      as [w2 out2]. exact IH3.
Qed.

(** [Wait] returns an error only for a cancelled context. *)
Lemma error_only_when_cancelled (w : World) (ev : Event) (id : nat) :
  In (id, ReturnsCtxErr) (snd (step w ev)) ->
  ev = Cancel id \/ exists pick, ev = CallWait id true pick.
Proof.
  unfold step. intros H. destruct (panicked w); [destruct H|].
  destruct ev as [j done pick| |j|].
  - destruct (closed w), done, pick; simpl in H;
      repeat (destruct H as [H|H]); try contradiction; try discriminate;
      inversion H; subst; right; eauto.
  - destruct (closed w); [|destruct (ticking w); [destruct (blocked w)|]]; simpl in H;
      repeat (destruct H as [H|H]); try contradiction; discriminate.
  - destruct (memb j (blocked w)); simpl in H;
      repeat (destruct H as [H|H]); try contradiction.
    inversion H; subst. left. reflexivity.
  - destruct (closed w); simpl in H; [contradiction|].
    apply in_map_iff in H as (x & Hx & _). discriminate.
Qed.

Lemma Wait_after_Stop_witness :
  snd (step (fst (run (fst (step NewRateLimiter CallStop))
                    [CallWait 2 false true; Cancel 2]))
         (CallWait 3 false true))
  = [(3%nat, ReturnsNil)] /\
  snd (step (fst (run (fst (step NewRateLimiter CallStop)) [Tick]))
         (CallWait 3 false true))
  = [].
Proof.
  split.
  - apply (Wait_after_Stop NewRateLimiter [CallWait 2 false true; Cancel 2] 3 true);
      reflexivity.
  - apply (Wait_after_Stop NewRateLimiter [Tick] 3 true); reflexivity.
Defined.

Lemma error_only_when_cancelled_witness :
  Cancel 1 = Cancel 1 \/ exists pick, Cancel 1 = CallWait 1 true pick.
Proof.
  apply (error_only_when_cancelled
           {| ticking := true; closed := false; panicked := false; blocked := [1%nat] |}
           (Cancel 1) 1).
  simpl. left. reflexivity.
Defined.

(** C5, on the code: after [Stop], a call of [Wait] with a live context
    returns [nil], as a call that was handed a token does; a call that was
    blocked when [Stop] came returns [nil] as well. *)
Theorem Wait_obtains_token_after_Stop :
  snd (run NewRateLimiter [CallStop; CallWait 1 false true]) = [(1%nat, ReturnsNil)] /\
  snd (run NewRateLimiter [CallWait 1 false true; CallStop]) = [(1%nat, ReturnsNil)] /\
  snd (run NewRateLimiter [CallWait 1 false true; Tick]) = [(1%nat, ReturnsNil)].
Proof. repeat split; reflexivity. Qed.

End RateLimiter.

(** ** internal/model and internal/repository: the failure records

    The table "SCRAPER_FALHAS" is modelled by its rows, keyed by
    "CodigoAplicacao" (the column is UNIQUE), and the next value of its
    SERIAL column. Instants and durations are counted in microseconds, the
    resolution of a TIMESTAMP column. *)

Module ScraperFalhaRepo.

Definition Minute : Z := 60 * 1000000.

Record ScraperFalha := {
  ID : Z;
  CodigoAplicacao : Z;
  TipoErro : string;
  MensagemErro : string;
  Tentativas : Z;
  UltimaTentativa : Z;
  ProximaTentativa : option Z;
  Resolvido : bool;
  ResolvidoEm : option Z;
  CriadoEm : Z
}.

Definition ErroTipoRateLimit : string := "rate_limit".
Definition ErroTipoModeloNaoEncontrado : string := "modelo_nao_encontrado".
Definition ErroTipoAPIMotul : string := "api_motul".
Definition ErroTipoAPIGroq : string := "api_groq".
Definition ErroTipoRede : string := "rede".
Definition ErroTipoParse : string := "parse".
Definition ErroTipoDesconhecido : string := "desconhecido".

Record Table := {
  rows : gmap Z ScraperFalha;
  nextID : Z
}.

Definition emptyTable : Table := {| rows := ∅; nextID := 1 |}.

(** The bounds of an INTEGER column. *)
Definition int4 (n : Z) : bool := (-2147483648 <=? n) && (n <=? 2147483647).

(** The [switch] of [Upsert]: the next retry time for an error type, [now]
    being [time.Now()]. *)
Definition proximaTentativa (tipoErro : string) (now : Z) : option Z :=
  if String.eqb tipoErro ErroTipoRateLimit then Some (now + 1 * Minute)
  else if String.eqb tipoErro ErroTipoRede then Some (now + 5 * Minute)
  else if String.eqb tipoErro ErroTipoModeloNaoEncontrado then None
  else Some (now + 30 * Minute).

(** [Upsert]. [aplicacao] tells which vehicle ids the table "APLICACAO"
    holds (the foreign key), [now] is the clock of the process and [dbNow]
    the NOW() of the database. The statement fails, and the table stays as
    it is, when a constraint of the table is violated. *)
Definition Upsert (aplicacao : Z -> bool) (now dbNow : Z) (t : Table)
    (codigoAplicacao : Z) (tipoErro mensagemErro : string) : result Table :=
  let failed := Err "failed to upsert scraper failure" in
  if negb (int4 codigoAplicacao) then failed
  else if 100 <? len tipoErro then failed
  else
  match rows t !! codigoAplicacao with
  | None =>
      if negb (aplicacao codigoAplicacao) then failed
      else
        let row :=
          {| ID := nextID t;
             CodigoAplicacao := codigoAplicacao;
             TipoErro := tipoErro;
             MensagemErro := mensagemErro;
             Tentativas := 1;
             UltimaTentativa := dbNow;
             ProximaTentativa := proximaTentativa tipoErro now;
             Resolvido := false;
             ResolvidoEm := None;
             CriadoEm := dbNow |} in
        Ok {| rows := <[codigoAplicacao := row]> (rows t); nextID := nextID t + 1 |}
  | Some old =>
      if negb (int4 (Tentativas old + 1)) then failed
      else
        let row :=
          {| ID := ID old;
             CodigoAplicacao := CodigoAplicacao old;
             TipoErro := tipoErro;
             MensagemErro := mensagemErro;
             Tentativas := Tentativas old + 1;
             UltimaTentativa := dbNow;
             ProximaTentativa := proximaTentativa tipoErro now;
             Resolvido := false;
             ResolvidoEm := None;
             CriadoEm := CriadoEm old |} in
        Ok {| rows := <[codigoAplicacao := row]> (rows t); nextID := nextID t + 1 |}
  end.

(** [MarkResolved]. *)
Definition MarkResolved (dbNow : Z) (t : Table) (codigoAplicacao : Z) : Table :=
  match rows t !! codigoAplicacao with
  | None => t
  | Some old =>
      let row :=
        {| ID := ID old; CodigoAplicacao := CodigoAplicacao old;
           TipoErro := TipoErro old; MensagemErro := MensagemErro old;
           Tentativas := Tentativas old; UltimaTentativa := UltimaTentativa old;
           ProximaTentativa := ProximaTentativa old;
           Resolvido := true; ResolvidoEm := Some dbNow;
           CriadoEm := CriadoEm old |} in
      {| rows := <[codigoAplicacao := row]> (rows t); nextID := nextID t |}
  end.

(** The WHERE clause of [GetPendingRetries]. *)
Definition pending (dbNow : Z) (f : ScraperFalha) : bool :=
  negb (Resolvido f)
  && match ProximaTentativa f with
     | None => true
     | Some p => p <=? dbNow
     end.

(** The ORDER BY clause: "ProximaTentativa" ascending with the nulls last,
    then "Tentativas" ascending. *)
Definition before (a b : ScraperFalha) : bool :=
  match ProximaTentativa a, ProximaTentativa b with
  | Some pa, Some pb => (pa <? pb) || ((pa =? pb) && (Tentativas a <=? Tentativas b))
  | Some _, None => true
  | None, Some _ => false
  | None, None => Tentativas a <=? Tentativas b
  end.

Fixpoint insertSorted (f : ScraperFalha) (l : list ScraperFalha) : list ScraperFalha :=
  match l with
  | [] => [f]
  | g :: rest => if before f g then f :: l else g :: insertSorted f rest
  end.

Definition orderBy (l : list ScraperFalha) : list ScraperFalha :=
  fold_right insertSorted [] l.

(** [GetPendingRetries]: the rows selected, ordered and limited. [limit] is
    passed as the parameter of LIMIT and never validated. The server rejects
    a negative LIMIT only when it executes the statement: [Query] has then
    returned a nil error, [rows.Next()] is false at once, and the error
    sits in [rows.Err()], which the function never reads. It returns the nil
    slice and a nil error. *)
Definition GetPendingRetries (dbNow : Z) (t : Table) (limit : Z) : result (list ScraperFalha) :=
  if limit <? 0 then Ok []
  else
    let selected := filter (pending dbNow) (map snd (map_to_list (rows t))) in
    Ok (firstn (Z.to_nat limit) (orderBy selected)).

(** The table a statement leaves. *)
Definition tableOf (r : result Table) : Table :=
  match r with Ok t => t | Err _ => emptyTable end.

(** The table after one failure of type "modelo_nao_encontrado" for the
    vehicle 7. *)
Definition notFoundTable : Table :=
  tableOf (Upsert (fun _ => true) 1000 1000 emptyTable 7 ErroTipoModeloNaoEncontrado
             "LLM indicated no match").

(** An unresolved record without a next-attempt time. *)
Definition nullRecord : ScraperFalha :=
  {| ID := 1; CodigoAplicacao := 7; TipoErro := ErroTipoModeloNaoEncontrado;
     MensagemErro := "LLM indicated no match"; Tentativas := 1; UltimaTentativa := 1000;
     ProximaTentativa := None; Resolvido := false; ResolvidoEm := None; CriadoEm := 1000 |}.

(** Two failures in a row for the vehicle 7: the second [Upsert] finds the
    record of the first. *)
Definition afterFirst : Table :=
  tableOf (Upsert (fun _ => true) 1000 1000 emptyTable 7 ErroTipoRede "dial tcp: timeout").
Definition afterSecond : Table :=
  tableOf (Upsert (fun _ => true) 5000 5000 afterFirst 7 ErroTipoRateLimit "status 429").

Lemma proximaTentativa_cases (tipo : string) (now : Z) :
  (tipo = ErroTipoRateLimit -> proximaTentativa tipo now = Some (now + 1 * Minute)) /\
  (tipo = ErroTipoRede -> proximaTentativa tipo now = Some (now + 5 * Minute)) /\
  (tipo = ErroTipoModeloNaoEncontrado -> proximaTentativa tipo now = None) /\
  (tipo <> ErroTipoRateLimit -> tipo <> ErroTipoRede -> tipo <> ErroTipoModeloNaoEncontrado ->
   proximaTentativa tipo now = Some (now + 30 * Minute)).
Proof.
  unfold proximaTentativa. repeat split.
  - intros ->. reflexivity.
  - intros ->. reflexivity.
  - intros ->. reflexivity.
  - intros H1 H2 H3.
    destruct (String.eqb_spec tipo ErroTipoRateLimit); [contradiction|].
    destruct (String.eqb_spec tipo ErroTipoRede); [contradiction|].
    destruct (String.eqb_spec tipo ErroTipoModeloNaoEncontrado); [contradiction|].
    reflexivity.
Qed.

(** C6: an [Upsert] that succeeds leaves a record for the vehicle whose
    attempts are 1 when the vehicle had no record and one more than before
    when it had; whose next-attempt time is [now] plus 1 minute for
    "rate_limit", plus 5 minutes for "rede", null for
    "modelo_nao_encontrado" and [now] plus 30 minutes for every other type;
    and which is unresolved with no resolution time. The records of the
    other vehicles stay as they were. *)
Theorem Upsert_semantics (aplicacao : Z -> bool) (now dbNow : Z) (t t' : Table)
    (id : Z) (tipo msg : string) :
  Upsert aplicacao now dbNow t id tipo msg = Ok t' ->
  exists row,
    rows t' !! id = Some row /\
    Tentativas row = match rows t !! id with
                     | None => 1
                     | Some old => Tentativas old + 1
                     end /\
    (tipo = ErroTipoRateLimit -> ProximaTentativa row = Some (now + 1 * Minute)) /\
    (tipo = ErroTipoRede -> ProximaTentativa row = Some (now + 5 * Minute)) /\
    (tipo = ErroTipoModeloNaoEncontrado -> ProximaTentativa row = None) /\
    (tipo <> ErroTipoRateLimit -> tipo <> ErroTipoRede ->
     tipo <> ErroTipoModeloNaoEncontrado ->
     ProximaTentativa row = Some (now + 30 * Minute)) /\
    Resolvido row = false /\
    ResolvidoEm row = None /\
    (forall other, other <> id -> rows t' !! other = rows t !! other).
Proof.
  unfold Upsert. intros H.
  destruct (negb (int4 id)); [discriminate|].
  destruct (100 <? len tipo); [discriminate|].
  pose proof (proximaTentativa_cases tipo now) as (P1 & P2 & P3 & P4).
  destruct (rows t !! id) as [old|] eqn:E.
  - destruct (negb (int4 (Tentativas old + 1))); [discriminate|].
    injection H as <-. eexists. split; [apply lookup_insert_eq|].
    cbn. repeat split; try assumption.
    intros other Hne. apply lookup_insert_ne. congruence.
  - destruct (negb (aplicacao id)); [discriminate|].
    injection H as <-. eexists. split; [apply lookup_insert_eq|].
    cbn. repeat split; try assumption.
    intros other Hne. apply lookup_insert_ne. congruence.
Qed.

(** [Upsert] succeeds whenever the constraints of the table hold. *)
Lemma Upsert_succeeds (aplicacao : Z -> bool) (now dbNow : Z) (t : Table)
    (id : Z) (tipo msg : string) :
  int4 id = true -> len tipo <= 100 ->
  match rows t !! id with
  | None => aplicacao id = true
  | Some old => int4 (Tentativas old + 1) = true
  end ->
  exists t', Upsert aplicacao now dbNow t id tipo msg = Ok t'.
Proof.
  intros Hid Hlen Hrow. unfold Upsert. rewrite Hid.
  destruct (Z.ltb_spec 100 (len tipo)) as [Hgt|_]; [lia|]. simpl negb. cbv iota.
  destruct (rows t !! id) as [old|]; rewrite Hrow; simpl; eauto.
Qed.

Lemma Upsert_semantics_witness :
  exists row,
    rows afterSecond !! 7 = Some row /\
    Tentativas row = match rows afterFirst !! 7 with
                     | None => 1
                     | Some old => Tentativas old + 1
                     end /\
    (ErroTipoRateLimit = ErroTipoRateLimit -> ProximaTentativa row = Some (5000 + 1 * Minute)) /\
    (ErroTipoRateLimit = ErroTipoRede -> ProximaTentativa row = Some (5000 + 5 * Minute)) /\
    (ErroTipoRateLimit = ErroTipoModeloNaoEncontrado -> ProximaTentativa row = None) /\
    (ErroTipoRateLimit <> ErroTipoRateLimit -> ErroTipoRateLimit <> ErroTipoRede ->
     ErroTipoRateLimit <> ErroTipoModeloNaoEncontrado ->
     ProximaTentativa row = Some (5000 + 30 * Minute)) /\
    Resolvido row = false /\
    ResolvidoEm row = None /\
    (forall other, other <> 7 -> rows afterSecond !! other = rows afterFirst !! other).
Proof.
  apply (Upsert_semantics (fun _ => true) 5000 5000 afterFirst afterSecond 7
           ErroTipoRateLimit "status 429").
  vm_compute. reflexivity.
Defined.

Lemma Upsert_succeeds_witness :
  exists t', Upsert (fun _ => true) 5000 5000 afterFirst 7 ErroTipoRateLimit "status 429"
             = Ok t'.
Proof.
  apply (Upsert_succeeds (fun _ => true) 5000 5000 afterFirst 7 ErroTipoRateLimit
           "status 429").
  - reflexivity.
  - vm_compute. discriminate.
  - vm_compute. reflexivity.
Defined.

(** The WHERE clause selects every unresolved record without a next-attempt
    time, at any time. *)
Lemma pending_null (dbNow : Z) (f : ScraperFalha) :
  Resolvido f = false -> ProximaTentativa f = None -> pending dbNow f = true.
Proof. intros Hr Hp. unfold pending. rewrite Hr, Hp. reflexivity. Qed.

Lemma pending_null_witness : pending 0 nullRecord = true.
Proof. apply (pending_null 0 nullRecord); reflexivity. Defined.

(** C7, on the code: after a failure of type "modelo_nao_encontrado" the
    record of the vehicle has no next-attempt time, and [GetPendingRetries]
    returns it. *)
Theorem GetPendingRetries_returns_null_next_attempt :
  exists row,
    rows notFoundTable !! 7 = Some row /\
    TipoErro row = ErroTipoModeloNaoEncontrado /\
    ProximaTentativa row = None /\
    GetPendingRetries 2000 notFoundTable 10 = Ok [row].
Proof.
  eexists. split; [vm_compute; reflexivity|]. repeat split.
Qed.

End ScraperFalhaRepo.

(** ** internal/scraper/catalog_loader.go: saving the catalog cache

    [saveToFile] marshals the catalog and hands the bytes to
    [os.WriteFile(filename, data, 0644)], which opens the file with
    O_WRONLY|O_CREATE|O_TRUNC, writes the data, in as many [write] calls as
    the kernel needs, and closes it. The file system is a map from paths to
    contents, and a call is the sequence of the operations it issues, so
    that the states of the file on the way can be told. *)

Module CatalogLoader.

Inductive Op :=
| OpenTrunc (path : string)             (** open, creating or truncating *)
| WriteChunk (path : string) (chunk : string)
| CloseFile (path : string)
| Rename (from to : string).

Definition isRename (op : Op) : bool :=
  match op with Rename _ _ => true | _ => false end.

(** The path an operation writes to. *)
Definition target (op : Op) : string :=
  match op with
  | OpenTrunc p | WriteChunk p _ | CloseFile p => p
  | Rename _ to => to
  end.

Definition apply (fs : gmap string string) (op : Op) : gmap string string :=
  match op with
  | OpenTrunc p => <[p := ""]> fs
  | WriteChunk p chunk =>
      match fs !! p with
      | Some content => <[p := content ++ chunk]> fs
      | None => fs
      end
  | CloseFile _ => fs
  | Rename from to =>
      match fs !! from with
      | Some content => <[to := content]> (delete from fs)
      | None => fs
      end
  end.

Definition exec (fs : gmap string string) (ops : list Op) : gmap string string :=
  fold_left apply ops fs.

(** [os.WriteFile]: [chunks] are the pieces in which the data reaches the
    file. *)
Definition WriteFile (name : string) (chunks : list string) : list Op :=
  (OpenTrunc name :: map (WriteChunk name) chunks ++ [CloseFile name])%list.

(** [saveToFile]: [marshalled] is what [json.MarshalIndent] returned, cut
    in the chunks the writes will carry. Returns the error, if any, and the
    operations issued. *)
Definition saveToFile (filename : string) (marshalled : result (list string))
  : option string * list Op :=
  match marshalled with
  | Err e => (Some e, [])
  | Ok chunks => (None, WriteFile filename chunks)
  end.

(** The data a list of chunks carries. *)
Definition dataOf (chunks : list string) : string := fold_right String.append "" chunks.

Definition isPrefixOf (p s : string) : Prop := exists rest, s = p ++ rest.


(** Only the named file changes when every operation writes to it and none
    is a rename. *)
Definition inPlace (name : string) (op : Op) : bool :=
  negb (isRename op) && String.eqb (target op) name.

Lemma isPrefixOf_nil (s : string) : isPrefixOf "" s.
Proof. exists s. reflexivity. Qed.

Lemma isPrefixOf_app (a p s : string) : isPrefixOf p s -> isPrefixOf (a ++ p) (a ++ s).
Proof. intros (rest & ->). exists rest. now rewrite append_assoc. Qed.

Lemma apply_other (fs : gmap string string) (op : Op) (name other : string) :
  inPlace name op = true -> other <> name -> apply fs op !! other = fs !! other.
Proof.
  unfold inPlace. intros [Hr Ht%String.eqb_eq]%andb_true_iff Hne.
  destruct op as [p|p chunk|p|from to]; simpl in *; subst; try discriminate.
  - apply lookup_insert_ne. congruence.
  - destruct (fs !! name); [apply lookup_insert_ne; congruence | reflexivity].
  - reflexivity.
Qed.

Lemma exec_other (fs : gmap string string) (ops : list Op) (name other : string) :
  forallb (inPlace name) ops = true -> other <> name -> exec fs ops !! other = fs !! other.
Proof.
  revert fs. induction ops as [|op ops IH]; intros fs Hall Hne; [reflexivity|].
  simpl in Hall. apply andb_true_iff in Hall as [Hop Hall].
  unfold exec in *. simpl. rewrite (IH _ Hall Hne). apply (apply_other _ _ name); assumption.
Qed.

(** The states of the file while the chunks are written. *)
Lemma exec_chunks (name : string) (chunks : list string) :
  forall (fs : gmap string string) (content : string) (j : nat),
    fs !! name = Some content ->
    exists written,
      exec fs (firstn j (map (WriteChunk name) chunks ++ [CloseFile name])%list) !! name
        = Some (content ++ written) /\
      isPrefixOf written (dataOf chunks) /\
      ((List.length chunks <= j)%nat -> written = dataOf chunks).
Proof.
  induction chunks as [|ch rest IH]; intros fs content j Hfs.
  - exists "". rewrite append_nil_r. split; [|split; [apply isPrefixOf_nil | reflexivity]].
    destruct j as [|[|j]]; exact Hfs.
  - destruct j as [|j].
    + exists "". rewrite append_nil_r. split; [exact Hfs|].
      split; [apply isPrefixOf_nil | simpl; lia].
    + cbn [map app firstn]. unfold exec. cbn [fold_left apply]. rewrite Hfs.
      destruct (IH (<[name := content ++ ch]> fs) (content ++ ch) j) as (w & Hw & Hp & Hall);
        [apply lookup_insert_eq|].
      exists (ch ++ w). split; [|split].
      * unfold exec in Hw. rewrite Hw. now rewrite append_assoc.
      * apply isPrefixOf_app, Hp.
      * intros Hj. simpl in Hj. rewrite Hall by lia. reflexivity.
Qed.

(** C8, as the code has it. [saveToFile] writes the marshalled catalog
    straight into the cache file: every operation it issues writes to that
    file and none is a rename. When the call completes the file holds the
    whole document; in every state on the way, from the truncation on, it
    holds a prefix of the document; no other file changes. *)
Theorem saveToFile_writes_in_place (fs : gmap string string) (filename : string)
    (chunks : list string) :
  let ops := snd (saveToFile filename (Ok chunks)) in
  fst (saveToFile filename (Ok chunks)) = None /\
  forallb (inPlace filename) ops = true /\
  exec fs ops !! filename = Some (dataOf chunks) /\
  (forall k, (1 <= k)%nat ->
     exists content,
       exec fs (firstn k ops) !! filename = Some content /\
       isPrefixOf content (dataOf chunks)) /\
  (forall other, other <> filename -> exec fs ops !! other = fs !! other).
Proof.
  cbv zeta. cbn [saveToFile fst snd].
  assert (Hin : forallb (inPlace filename) (WriteFile filename chunks) = true).
  { unfold WriteFile. cbn [forallb]. unfold inPlace at 1. cbn [isRename target negb].
    rewrite String.eqb_refl. cbn [andb]. rewrite forallb_app. apply andb_true_iff. split.
    - rewrite forallb_forall. intros op (ch & <- & _)%in_map_iff.
      unfold inPlace. simpl. now rewrite String.eqb_refl.
    - simpl. unfold inPlace. simpl. now rewrite String.eqb_refl. }
  assert (Hstates : forall j, exists written,
            exec fs (OpenTrunc filename
                     :: firstn j (map (WriteChunk filename) chunks ++ [CloseFile filename])%list)
              !! filename = Some written /\
            isPrefixOf written (dataOf chunks) /\
            ((List.length chunks <= j)%nat -> written = dataOf chunks)).
  { intros j.
    destruct (exec_chunks filename chunks (<[filename := ""]> fs) "" j) as (w & Hw & Hp & Hall);
      [apply lookup_insert_eq|].
    exists w. split; [exact Hw | split; assumption]. }
  split; [reflexivity|]. split; [exact Hin|]. split; [|split].
  - destruct (Hstates (S (List.length chunks))) as (w & Hw & _ & Hall).
    rewrite firstn_all2 in Hw by (rewrite length_app, length_map; simpl; lia).
    unfold WriteFile. rewrite Hw, Hall by lia. reflexivity.
  - intros [|j] Hk; [lia|]. destruct (Hstates j) as (w & Hw & Hp & _).
    exists w. split; [exact Hw | exact Hp].
  - intros other Hne. apply (exec_other _ _ filename); assumption.
Qed.

(** C8 as the specification words it fails: saving "{new}" over a cache
    that holds "{old}" issues no rename, and leaves the cache empty after
    the first operation and holding "{n" after the second. *)
Lemma saveToFile_partial_states :
  let fs : gmap string string := {[ "motul_catalog.json" := "{old}" ]} in
  let ops := snd (saveToFile "motul_catalog.json" (Ok ["{n"; "ew}"])) in
  existsb isRename ops = false /\
  exec fs (firstn 1 ops) !! "motul_catalog.json" = Some "" /\
  exec fs (firstn 2 ops) !! "motul_catalog.json" = Some "{n" /\
  exec fs ops !! "motul_catalog.json" = Some "{new}".
Proof. cbv zeta. repeat split; vm_compute; reflexivity. Qed.

End CatalogLoader.

(** ** internal/model: the classification of errors *)

Module Model.

(** [contains]: some of the substrings occurs in [s], letter case apart
    (the helper's own [toLower] and [indexOf] are the byte-wise ones). *)
Definition contains (s : string) (substrs : list string) : bool :=
  let sLower := ToLower s in
  existsb (fun sub => Contains sLower (ToLower sub)) substrs.

Definition ClassifyError (errMsg : string) : string :=
  if contains errMsg ["rate limit"; "429"; "too many requests"]
  then ScraperFalhaRepo.ErroTipoRateLimit
  else if contains errMsg ["model not found"; "LLM indicated no match"]
  then ScraperFalhaRepo.ErroTipoModeloNaoEncontrado
  else if contains errMsg ["Motul API"] then ScraperFalhaRepo.ErroTipoAPIMotul
  else if contains errMsg ["Groq API"] then ScraperFalhaRepo.ErroTipoAPIGroq
  else if contains errMsg ["connection"; "timeout"; "network"; "dial"]
  then ScraperFalhaRepo.ErroTipoRede
  else if contains errMsg ["parse"; "invalid"] then ScraperFalhaRepo.ErroTipoParse
  else ScraperFalhaRepo.ErroTipoDesconhecido.

Record Aplicacao := {
  CodigoAplicacao : Z;
  CodigoFabricante : Z;
  Marca : string;
  DescricaoAplicacao : string;
  DescricaoCompleta : string;
  Motor : string;
  Periodo : string;
  Ano : string;
  Fabricante : string;
  Modelo : string
}.

Record EspecificacaoTecnica := {
  EspecCodigoAplicacao : Z;
  TipoFluido : string;
  Viscosidade : option string;
  Capacidade : option string;
  Norma : option string;
  Recomendacao : option string;
  Fonte : string;
  MotulVehicleTypeID : option string;
  MatchConfidence : option float
}.

End Model.

(** ** internal/scraper/progress.go and service.go: the per-vehicle pipeline *)

Module Scraper.
Import Model.

(** A Go [int] counter: 64 bits, two's complement. *)
Definition wrap (n : Z) : Z := (n + 2 ^ 63) mod 2 ^ 64 - 2 ^ 63.
Definition incr (n : Z) : Z := wrap (n + 1).
Definition maxInt : Z := 2 ^ 63 - 1.

Record ProgressTracker := {
  TotalVehicles : Z;
  Processed : Z;
  Success : Z;
  Failed : Z;
  Skipped : Z;
  CurrentVehicle : string;
  LastError : string;
  ExactMatch : Z;
  FuzzyMatch : Z;
  NoMatch : Z;
  TotalRequests : Z;
  NetworkErrors : Z;
  RateLimitHits : Z
}.

Definition NewProgressTracker (totalVehicles : Z) : ProgressTracker :=
  {| TotalVehicles := totalVehicles; Processed := 0; Success := 0; Failed := 0;
     Skipped := 0; CurrentVehicle := ""; LastError := ""; ExactMatch := 0;
     FuzzyMatch := 0; NoMatch := 0; TotalRequests := 0; NetworkErrors := 0;
     RateLimitHits := 0 |}.

Definition IncrementProcessed (p : ProgressTracker) : ProgressTracker :=
  {| TotalVehicles := TotalVehicles p; Processed := incr (Processed p);
     Success := Success p; Failed := Failed p; Skipped := Skipped p;
     CurrentVehicle := CurrentVehicle p; LastError := LastError p;
     ExactMatch := ExactMatch p; FuzzyMatch := FuzzyMatch p; NoMatch := NoMatch p;
     TotalRequests := TotalRequests p; NetworkErrors := NetworkErrors p;
     RateLimitHits := RateLimitHits p |}.

Definition IncrementSuccess (p : ProgressTracker) : ProgressTracker :=
  {| TotalVehicles := TotalVehicles p; Processed := Processed p;
     Success := incr (Success p); Failed := Failed p; Skipped := Skipped p;
     CurrentVehicle := CurrentVehicle p; LastError := LastError p;
     ExactMatch := ExactMatch p; FuzzyMatch := FuzzyMatch p; NoMatch := NoMatch p;
     TotalRequests := TotalRequests p; NetworkErrors := NetworkErrors p;
     RateLimitHits := RateLimitHits p |}.

Definition IncrementFailed (err : string) (p : ProgressTracker) : ProgressTracker :=
  {| TotalVehicles := TotalVehicles p; Processed := Processed p;
     Success := Success p; Failed := incr (Failed p); Skipped := Skipped p;
     CurrentVehicle := CurrentVehicle p; LastError := err;
     ExactMatch := ExactMatch p; FuzzyMatch := FuzzyMatch p; NoMatch := NoMatch p;
     TotalRequests := TotalRequests p; NetworkErrors := NetworkErrors p;
     RateLimitHits := RateLimitHits p |}.

Definition IncrementSkipped (p : ProgressTracker) : ProgressTracker :=
  {| TotalVehicles := TotalVehicles p; Processed := Processed p;
     Success := Success p; Failed := Failed p; Skipped := incr (Skipped p);
     CurrentVehicle := CurrentVehicle p; LastError := LastError p;
     ExactMatch := ExactMatch p; FuzzyMatch := FuzzyMatch p; NoMatch := NoMatch p;
     TotalRequests := TotalRequests p; NetworkErrors := NetworkErrors p;
     RateLimitHits := RateLimitHits p |}.

Definition IncrementExactMatch (p : ProgressTracker) : ProgressTracker :=
  {| TotalVehicles := TotalVehicles p; Processed := Processed p;
     Success := Success p; Failed := Failed p; Skipped := Skipped p;
     CurrentVehicle := CurrentVehicle p; LastError := LastError p;
     ExactMatch := incr (ExactMatch p); FuzzyMatch := FuzzyMatch p; NoMatch := NoMatch p;
     TotalRequests := TotalRequests p; NetworkErrors := NetworkErrors p;
     RateLimitHits := RateLimitHits p |}.

Definition IncrementFuzzyMatch (p : ProgressTracker) : ProgressTracker :=
  {| TotalVehicles := TotalVehicles p; Processed := Processed p;
     Success := Success p; Failed := Failed p; Skipped := Skipped p;
     CurrentVehicle := CurrentVehicle p; LastError := LastError p;
     ExactMatch := ExactMatch p; FuzzyMatch := incr (FuzzyMatch p); NoMatch := NoMatch p;
     TotalRequests := TotalRequests p; NetworkErrors := NetworkErrors p;
     RateLimitHits := RateLimitHits p |}.

Definition IncrementNoMatch (p : ProgressTracker) : ProgressTracker :=
  {| TotalVehicles := TotalVehicles p; Processed := Processed p;
     Success := Success p; Failed := Failed p; Skipped := Skipped p;
     CurrentVehicle := CurrentVehicle p; LastError := LastError p;
     ExactMatch := ExactMatch p; FuzzyMatch := FuzzyMatch p; NoMatch := incr (NoMatch p);
     TotalRequests := TotalRequests p; NetworkErrors := NetworkErrors p;
     RateLimitHits := RateLimitHits p |}.

Definition SetCurrentVehicle (vehicle : string) (p : ProgressTracker) : ProgressTracker :=
  {| TotalVehicles := TotalVehicles p; Processed := Processed p;
     Success := Success p; Failed := Failed p; Skipped := Skipped p;
     CurrentVehicle := vehicle; LastError := LastError p;
     ExactMatch := ExactMatch p; FuzzyMatch := FuzzyMatch p; NoMatch := NoMatch p;
     TotalRequests := TotalRequests p; NetworkErrors := NetworkErrors p;
     RateLimitHits := RateLimitHits p |}.

Definition IncrementRequests (p : ProgressTracker) : ProgressTracker :=
  {| TotalVehicles := TotalVehicles p; Processed := Processed p;
     Success := Success p; Failed := Failed p; Skipped := Skipped p;
     CurrentVehicle := CurrentVehicle p; LastError := LastError p;
     ExactMatch := ExactMatch p; FuzzyMatch := FuzzyMatch p; NoMatch := NoMatch p;
     TotalRequests := incr (TotalRequests p); NetworkErrors := NetworkErrors p;
     RateLimitHits := RateLimitHits p |}.

Definition commercialVehiclePatterns : list string :=
  ["cargo"; "constellation"; "worker"; "delivery"; "fh "; "fh-"; "fm "; "fm-"; "fmx";
   "vm "; "vm-"; "nh12"; "nh "; "edc"; "axor"; "atego"; "actros"; "arocs"; "stralis";
   "trakker"; "eurocargo"; "serie p"; "serie g"; "serie r"; "serie s"; "of-"; "o-";
   "volare"; "busscar"; "mascarello"; "marcopolo"; "neobus"; "caio"; "comil";
   "trator"; "colheitadeira"; "retroescavadeira"; "mf "; "massey"; "new holland";
   "case ih"; "john deere"; "valtra"; "ls tractor"; "escavadeira"; "pa carregadeira";
   "motoniveladora"; "rolo compactador"; "guindaste"; "empilhadeira"; "compressor";
   "gerador"; "9200"; "9800"; "4700"; "8600"; "series "; "hr "; "hd "; "f-350";
   "f-4000"; "f-14000"; "f350"; "f4000"; "f14000"; "fb4000"; "fb-4000"; "f 4000";
   "fb 4000"; "d-20"; "d20"; "d-40"; "d40"; "d-60"; "d60"; "c-10"; "c10"; "c-60";
   "c60"; "c-15"; "c15"; "5.140"; "6.80"; "6.90"; "7.90"; "7.100"; "7.110"; "7.120";
   "8.120"; "8.140"; "8.150"; "8.160"; "9.150"; "9.170"; "10.160"; "11.130";
   "11.180"; "12.140"; "13.150"; "13.180"; "15.170"; "15.180"; "15.190"; "16.200";
   "17.180"; "17.190"; "17.210"; "17.220"; "17.230"; "17.250"; "17.280"; "17.310";
   "18.310"; "19.320"; "19.330"; "19.360"; "19.390"; "19.420"; "23.210"; "23.220";
   "23.230"; "23.250"; "23.310"; "24.250"; "24.280"; "24.310"; "25.320"; "25.360";
   "25.370"; "25.390"; "25.420"; "26.260"; "26.280"; "26.310"; "31.260"; "31.280";
   "31.310"; "31.320"; "31.330"; "31.370"; "31.390"; "31.420"; "furgovan";
   "kombi furgao"; "6000"; "7000"; "8000"; "8500"; "9200"; "10000"; "13000"; "14000"].

Definition commercialBrands : list string :=
  ["scania"; "daf"; "man"; "iveco"; "international"; "navistar"; "freightliner";
   "kenworth"; "peterbilt"; "hino"; "isuzu trucks"; "ud trucks"; "fuso";
   "atlas copco"; "caterpillar"; "komatsu"; "jcb"; "bobcat"; "case"; "new holland";
   "massey ferguson"; "john deere"; "valtra"; "agrale"; "cummins"; "perkins";
   "deutz"; "yamaha"; "honda motos"; "suzuki motos"; "kawasaki"; "harley";
   "bmw motorrad"; "ducati"; "triumph"; "ktm"].

Definition isCommercialVehicle (brand model description : string) : bool :=
  let brandLower := ToLower brand in
  let modelLower := ToLower model in
  let descLower := ToLower description in
  if existsb (fun cb => Contains brandLower cb) commercialBrands then true
  else
    let combined := modelLower ++ " " ++ descLower in
    existsb (fun pattern => Contains combined pattern) commercialVehiclePatterns.

(** ** The per-vehicle pipeline *)

Section Pipeline.

(** The accent-stripping transform of [normalizeString] (NFD, removal of the
    combining marks, NFC), from golang.org/x/text. *)
Variable removeAccents : string -> string.

Definition isLetterOrDigit (c : ascii) : bool :=
  let n := nat_of_ascii c in
  ((Nat.leb 48 n && Nat.leb n 57) || (Nat.leb 97 n && Nat.leb n 122)
   || (Nat.leb 65 n && Nat.leb n 90) || Nat.eqb n 95)%bool.

(** [isSeparator] of [strings.Title], on ASCII. *)
Definition isSeparator (c : ascii) : bool :=
  if Nat.leb (nat_of_ascii c) 127 then negb (isLetterOrDigit c) else false.

Definition upper_byte (c : ascii) : ascii :=
  let n := nat_of_ascii c in
  if (Nat.leb 97 n && Nat.leb n 122)%bool then ascii_of_nat (n - 32) else c.

(** [strings.Title]: the letters that begin words mapped to title case. *)
Fixpoint titleFrom (prev : ascii) (s : string) : string :=
  match s with
  | EmptyString => EmptyString
  | String c r =>
      String (if isSeparator prev then upper_byte c else c) (titleFrom c r)
  end.

Definition Title (s : string) : string := titleFrom " "%char s.

Definition normalizeString (text : string) : string :=
  let normalized := removeAccents text in
  let normalized := TrimSpace normalized in
  Title (ToLower normalized).

(** [modelName[:idx]] when [strings.Index(modelName, sep)] is positive. *)
Definition cutAt (sep : string) (modelName : string) : string :=
  match String.index 0 sep modelName with
  | Some idx => if Nat.ltb 0 idx then String.substring 0 idx modelName else modelName
  | None => modelName
  end.

Definition isDigit (c : ascii) : bool :=
  let n := nat_of_ascii c in (Nat.leb 48 n && Nat.leb n 57)%bool.

(** [fmt.Sscanf(s, "%d", &n)] on a string that begins with a digit: the
    number its leading digits spell. *)
Fixpoint scanDigits (acc : Z) (s : string) : Z :=
  match s with
  | EmptyString => acc
  | String c r =>
      if isDigit c then scanDigits (10 * acc + (Z.of_nat (nat_of_ascii c) - 48)) r
      else acc
  end.

(** The year loop: [s] is [yearStr[i:]]. *)
Fixpoint yearLoop (s : string) : Z :=
  match s with
  | EmptyString => 0
  | String c r =>
      if Nat.ltb (String.length s) 4 then 0
      else if isDigit c then
        let parsedYear := scanDigits 0 (String.substring 0 4 s) in
        if (1990 <=? parsedYear) && (parsedYear <=? 2030) then parsedYear
        else yearLoop r
      else yearLoop r
  end.

Definition parseVehicleDescription (vehicle : Aplicacao) : result (string * string * Z) :=
  let brand := if String.eqb (Fabricante vehicle) "" then Marca vehicle
               else Fabricante vehicle in
  let modelName := if String.eqb (Modelo vehicle) "" then DescricaoAplicacao vehicle
                   else Modelo vehicle in
  let modelName := cutAt " - " modelName in
  let modelName := cutAt " /" modelName in
  let yearStr := if String.eqb (Periodo vehicle) "" then Ano vehicle
                 else Periodo vehicle in
  let year := yearLoop yearStr in
  if String.eqb brand "" || String.eqb modelName "" then Err "missing brand or model"
  else Ok (normalizeString brand, normalizeString modelName, year).

Record MotulVehicle := {
  MotulID : string;
  MotulBrand : string;
  MotulModel : string;
  MotulYear : Z;
  MotulDescription : string;
  MotorType : string
}.

Definition isExactMatch (wega : Aplicacao) (motul : MotulVehicle) : bool :=
  let wegaDesc := normalizeString (DescricaoAplicacao wega) in
  let motulDesc := normalizeString (MotulDescription motul) in
  Contains wegaDesc motulDesc || Contains motulDesc wegaDesc.

(** The collaborators of the service. A repository that is [None] is a nil
    interface. An answer is a function of the arguments of the call;
    [Insert] also gets the position of the specification in the list. *)
Record EspecificacaoRepository := {
  Insert : nat -> EspecificacaoTecnica -> option string;
  ExistsForVehicle : Z -> result bool
}.

Record FalhaRepository := {
  Upsert : Z -> string -> string -> option string;
  MarkResolved : Z -> option string
}.

Record MotulClient := {
  SearchVehicle : string -> string -> Z -> result (option MotulVehicle);
  GetSpecifications : string -> result (list MotulAdapter.OilSpecification)
}.

Record ScraperService := {
  DryRun : bool;
  specRepo : option EspecificacaoRepository;
  falhaRepo : option FalhaRepository;
  motulClient : MotulClient
}.

(** The calls that leave the service. *)
Inductive Call :=
| CallExistsForVehicle (codigoAplicacao : Z)
| CallInsert (spec : EspecificacaoTecnica)
| CallSearchVehicle (brand modelName : string) (year : Z)
| CallGetSpecifications (vehicleTypeID : string)
| CallUpsert (codigoAplicacao : Z) (tipoErro mensagemErro : string)
| CallMarkResolved (codigoAplicacao : Z).

Definition strPtr (s : string) : option string :=
  if String.eqb s "" then None else Some s.

Definition saveFailure (s : ScraperService) (codigoAplicacao : Z) (errMsg : string)
  : list Call :=
  match falhaRepo s with
  | None => []
  | Some _ => [CallUpsert codigoAplicacao (ClassifyError errMsg) errMsg]
  end.

Definition markFailureResolved (s : ScraperService) (codigoAplicacao : Z) : list Call :=
  match falhaRepo s with
  | None => []
  | Some _ => [CallMarkResolved codigoAplicacao]
  end.

(** The loop that saves the specifications: the calls made and the number
    saved. *)
Fixpoint saveLoop (repo : EspecificacaoRepository) (vehicle : Aplicacao)
    (motulVehicle : MotulVehicle) (confidence : float) (i : nat)
    (specs : list MotulAdapter.OilSpecification) : list Call * Z :=
  match specs with
  | [] => ([], 0)
  | spec :: rest =>
      let especificacao :=
        {| EspecCodigoAplicacao := CodigoAplicacao vehicle;
           TipoFluido := MotulAdapter.TipoFluido spec;
           Viscosidade := strPtr (MotulAdapter.Viscosidade spec);
           Capacidade := strPtr (MotulAdapter.Capacidade spec);
           Norma := strPtr (MotulAdapter.Norma spec);
           Recomendacao := strPtr (MotulAdapter.Recomendacao spec);
           Fonte := "motul";
           MotulVehicleTypeID := strPtr (MotulID motulVehicle);
           MatchConfidence := Some confidence |} in
      let '(calls, savedCount) := saveLoop repo vehicle motulVehicle confidence (S i) rest in
      match Insert repo i especificacao with
      | Some _ => (CallInsert especificacao :: calls, savedCount)
      | None => (CallInsert especificacao :: calls, savedCount + 1)
      end
  end.

(** [processVehicle]: the tracker after the call and the calls made, in
    order. *)
Definition processVehicle (s : ScraperService) (vehicle : Aplicacao) (p0 : ProgressTracker)
  : ProgressTracker * list Call :=
  let id := CodigoAplicacao vehicle in
  let p := IncrementProcessed (SetCurrentVehicle (DescricaoAplicacao vehicle) p0) in
  let parsed := parseVehicleDescription vehicle in
  let commercial :=
    match parsed with
    | Ok (brand, modelName, _) =>
        isCommercialVehicle brand modelName (DescricaoAplicacao vehicle)
    | Err _ => false
    end in
  if commercial then (IncrementSkipped p, [])
  else
  let '(existing, calls1) :=
    match specRepo s with
    | None => (false, [])
    | Some repo =>
        (match ExistsForVehicle repo id with Ok true => true | _ => false end,
         [CallExistsForVehicle id])
    end in
  if existing then (IncrementSkipped p, calls1)
  else
  match parsed with
  | Err _ => (IncrementSkipped p, calls1)
  | Ok (brand, modelName, year) =>
  if DryRun s then (IncrementSuccess p, calls1)
  else
  let p := IncrementRequests p in
  let calls2 := (calls1 ++ [CallSearchVehicle brand modelName year])%list in
  match SearchVehicle (motulClient s) brand modelName year with
  | Err e => (IncrementFailed e p, (calls2 ++ saveFailure s id e)%list)
  | Ok None => (IncrementNoMatch p, calls2)
  | Ok (Some motulVehicle) =>
  let exact := isExactMatch vehicle motulVehicle in
  let p := if exact then IncrementExactMatch p else IncrementFuzzyMatch p in
  let calls3 := (calls2 ++ [CallGetSpecifications (MotulID motulVehicle)])%list in
  match GetSpecifications (motulClient s) (MotulID motulVehicle) with
  | Err e =>
      (IncrementFailed "specs_fetch_error" p,
       (calls3 ++ saveFailure s id ("specs_fetch_error: " ++ e))%list)
  | Ok [] => (IncrementNoMatch p, calls3)
  | Ok specs =>
      let calls4 :=
        match specRepo s with
        | None => []
        | Some repo =>
            let confidence := if exact then 0.95%float else 0.85%float in
            let '(calls, savedCount) := saveLoop repo vehicle motulVehicle confidence 0 specs in
            if 0 <? savedCount then (calls ++ markFailureResolved s id)%list else calls
        end in
      (IncrementSuccess p, (calls3 ++ calls4)%list)
  end end end.

End Pipeline.


(** The sum of the four outcome counters. *)
Definition outcomes (p : ProgressTracker) : Z :=
  Success p + Failed p + Skipped p + NoMatch p.

(** Exactly one of the four outcome counters went up by one, the others
    staying as they were. *)
Definition oneOutcome (p p' : ProgressTracker) : Prop :=
  (Success p' = incr (Success p) /\ Failed p' = Failed p
   /\ Skipped p' = Skipped p /\ NoMatch p' = NoMatch p) \/
  (Success p' = Success p /\ Failed p' = incr (Failed p)
   /\ Skipped p' = Skipped p /\ NoMatch p' = NoMatch p) \/
  (Success p' = Success p /\ Failed p' = Failed p
   /\ Skipped p' = incr (Skipped p) /\ NoMatch p' = NoMatch p) \/
  (Success p' = Success p /\ Failed p' = Failed p
   /\ Skipped p' = Skipped p /\ NoMatch p' = incr (NoMatch p)).

(** The counters a run can reach: none negative and room for one more
    vehicle. *)
Definition inRange (p : ProgressTracker) : Prop :=
  0 <= Success p /\ 0 <= Failed p /\ 0 <= Skipped p /\ 0 <= NoMatch p /\
  0 <= Processed p < maxInt.

(** The brand matches the commercial-brands list. *)
Definition brandIsCommercial (brand : string) : Prop :=
  exists cb, In cb commercialBrands /\ occurs_in cb (ToLower brand).

(** The model or the description holds a commercial-model pattern. *)
Definition modelIsCommercial (modelName description : string) : Prop :=
  exists pattern, In pattern commercialVehiclePatterns /\
    (occurs_in pattern (ToLower modelName) \/ occurs_in pattern (ToLower description)).

(** A service with both repositories and a client that finds nothing. *)
Definition stubService : ScraperService :=
  {| DryRun := false;
     specRepo := Some {| Insert := fun _ _ => None; ExistsForVehicle := fun _ => Ok false |};
     falhaRepo := Some {| Upsert := fun _ _ _ => None; MarkResolved := fun _ => None |};
     motulClient := {| SearchVehicle := fun _ _ _ => Ok None;
                       GetSpecifications := fun _ => Ok [] |} |}.

Definition scaniaR450 : Aplicacao :=
  {| CodigoAplicacao := 2; CodigoFabricante := 0; Marca := ""; DescricaoAplicacao := "R450";
     DescricaoCompleta := ""; Motor := ""; Periodo := ""; Ano := "";
     Fabricante := "Scania"; Modelo := "R450" |}.

(** A truck whose record has no brand. *)
Definition cargoWithoutBrand : Aplicacao :=
  {| CodigoAplicacao := 3; CodigoFabricante := 0; Marca := "";
     DescricaoAplicacao := "Cargo 17.280"; DescricaoCompleta := ""; Motor := "";
     Periodo := ""; Ano := ""; Fabricante := ""; Modelo := "" |}.

Lemma incr_small (n : Z) : 0 <= n < maxInt -> incr n = n + 1.
Proof.
  unfold incr, wrap, maxInt. intros H.
  rewrite Z.mod_small by lia. lia.
Qed.

Ltac pipeline_cases :=
  repeat match goal with
  | |- context [match ?x with _ => _ end] =>
      lazymatch x with
      | context [match _ with _ => _ end] => fail
      | _ => destruct x eqn:?
      end
  end.

Lemma processVehicle_steps (removeAccents : string -> string) (s : ScraperService)
    (vehicle : Aplicacao) (p : ProgressTracker) :
  let p' := fst (processVehicle removeAccents s vehicle p) in
  Processed p' = incr (Processed p) /\ oneOutcome p p'.
Proof.
  cbv zeta. unfold processVehicle, oneOutcome.
  pipeline_cases; cbn; tauto.
Qed.

(** C10: a call of [processVehicle] increments the processed counter once
    and exactly one of the success, failed, skipped and no-match counters
    once, leaving the other three as they were; on counters a run can reach
    (none negative, fewer than 2^63 - 1 vehicles processed) both go up by
    one, so that processed = success + failed + skipped + no-match is
    preserved. *)
Theorem processVehicle_counters (removeAccents : string -> string) (s : ScraperService)
    (vehicle : Aplicacao) (p : ProgressTracker) :
  let p' := fst (processVehicle removeAccents s vehicle p) in
  Processed p' = incr (Processed p) /\
  oneOutcome p p' /\
  (inRange p -> Processed p = outcomes p ->
   Processed p' = Processed p + 1 /\ outcomes p' = outcomes p + 1 /\
   Processed p' = outcomes p').
Proof.
  cbv zeta. destruct (processVehicle_steps removeAccents s vehicle p) as [Hp Ho].
  split; [exact Hp|]. split; [exact Ho|].
  intros (H1 & H2 & H3 & H4 & H5) Hinv. unfold outcomes in *.
  rewrite Hp, (incr_small (Processed p)) by lia.
  destruct Ho as [(E1 & E2 & E3 & E4)|[(E1 & E2 & E3 & E4)|[(E1 & E2 & E3 & E4)
                 |(E1 & E2 & E3 & E4)]]];
    rewrite E1, E2, E3, E4, incr_small by lia; lia.
Qed.

Lemma isCommercialVehicle_true (brand modelName description : string) :
  brandIsCommercial brand \/ modelIsCommercial modelName description ->
  isCommercialVehicle brand modelName description = true.
Proof.
  unfold isCommercialVehicle. intros [(cb & Hin & Hocc)|(pat & Hin & Hocc)].
  - assert (H : existsb (fun cb => Contains (ToLower brand) cb) commercialBrands = true).
    { apply existsb_exists. exists cb. split; [exact Hin|]. now apply Contains_true_iff. }
    now rewrite H.
  - destruct (existsb (fun cb => Contains (ToLower brand) cb) commercialBrands);
      [reflexivity|].
    apply existsb_exists. exists pat. split; [exact Hin|]. apply Contains_true_iff.
    destruct Hocc as [H|H].
    + apply occurs_in_app_l, H.
    + apply occurs_in_app_r, occurs_in_app_r, H.
Qed.

(** C9, as the code has it: when the brand and the model of the vehicle
    parse and are commercial, [processVehicle] makes no call at all and
    leaves the tracker with the vehicle as current, processed and skipped
    incremented and nothing else changed. *)
Theorem commercial_vehicle_skipped (removeAccents : string -> string) (s : ScraperService)
    (vehicle : Aplicacao) (p : ProgressTracker) (brand modelName : string) (year : Z) :
  parseVehicleDescription removeAccents vehicle = Ok (brand, modelName, year) ->
  brandIsCommercial brand \/ modelIsCommercial modelName (DescricaoAplicacao vehicle) ->
  processVehicle removeAccents s vehicle p
  = (IncrementSkipped
       (IncrementProcessed (SetCurrentVehicle (DescricaoAplicacao vehicle) p)), []).
Proof.
  intros Hparse Hcom. unfold processVehicle. cbv zeta. rewrite Hparse.
  rewrite (isCommercialVehicle_true _ _ _ Hcom). reflexivity.
Qed.

Lemma commercial_vehicle_skipped_witness :
  processVehicle (fun t => t) stubService scaniaR450 (NewProgressTracker 1)
  = (IncrementSkipped
       (IncrementProcessed
          (SetCurrentVehicle (DescricaoAplicacao scaniaR450) (NewProgressTracker 1))), []).
Proof.
  apply (commercial_vehicle_skipped (fun t => t) stubService scaniaR450
           (NewProgressTracker 1) "Scania" "R450" 0).
  - vm_compute. reflexivity.
  - left. exists "scania". split; [left; reflexivity|].
    apply Contains_true_iff. vm_compute. reflexivity.
Defined.

(** C9 as the specification words it fails for a vehicle without a brand:
    the description "Cargo 17.280" holds the pattern "17.280", and the
    pipeline asks the specification store whether the vehicle has
    specifications before it counts the vehicle as skipped. *)
Lemma commercial_without_brand_reaches_store :
  modelIsCommercial (Modelo cargoWithoutBrand) (DescricaoAplicacao cargoWithoutBrand) /\
  snd (processVehicle (fun t => t) stubService cargoWithoutBrand (NewProgressTracker 1))
    = [CallExistsForVehicle 3] /\
  Skipped (fst (processVehicle (fun t => t) stubService cargoWithoutBrand
                  (NewProgressTracker 1))) = 1.
Proof.
  split; [|split; vm_compute; reflexivity].
  exists "17.280". split.
  - unfold commercialVehiclePatterns. repeat (try (left; reflexivity); right).
  - right. apply Contains_true_iff. vm_compute. reflexivity.
Qed.
End Scraper.

(** ** More of internal/scraper/motul_adapter.go *)

Module MotulAdapterFacts.
Import MotulAdapter.

Lemma existsb_eqb_In (s : string) (l : list string) :
  existsb (String.eqb s) l = true <-> In s l.
Proof.
  rewrite existsb_exists. split.
  - intros (x & Hin & ->%String.eqb_eq). exact Hin.
  - intros Hin. exists s. split; [exact Hin | apply String.eqb_refl].
Qed.

Lemma uniqueLoop_spec (strs seen : list string) :
  NoDup (uniqueLoop seen strs) /\
  (forall s, In s (uniqueLoop seen strs) <-> In s strs /\ ~ In s seen) /\
  sublist (uniqueLoop seen strs) strs.
Proof.
  revert seen. induction strs as [|x rest IH]; intros seen.
  - split; [constructor|]. split; [|constructor]. intros s. simpl. tauto.
  - cbn [uniqueLoop]. destruct (existsb (String.eqb x) seen) eqn:E.
    + apply existsb_eqb_In in E. destruct (IH seen) as (Hnd & Hin & Hsub).
      split; [exact Hnd|]. split; [|now constructor].
      intros s. rewrite Hin. simpl. split; [tauto|].
      intros [[<-|H] Hs]; [contradiction | tauto].
    + assert (Hx : ~ In x seen).
      { intros H. apply existsb_eqb_In in H. congruence. }
      destruct (IH (x :: seen)) as (Hnd & Hin & Hsub).
      split; [|split; [|now constructor]].
      * constructor; [|exact Hnd]. rewrite Hin. simpl. tauto.
      * intros s. simpl. rewrite Hin. simpl.
        destruct (string_dec x s) as [->|Hne]; tauto.
Qed.

(** [unique] keeps one copy of every string: the result has no duplicates,
    holds exactly the strings of the input, and keeps them in the order of
    the input. *)
Theorem unique_spec (strs : list string) :
  NoDup (unique strs) /\
  (forall s, In s (unique strs) <-> In s strs) /\
  sublist (unique strs) strs.
Proof.
  destruct (uniqueLoop_spec strs []) as (Hnd & Hin & Hsub).
  split; [exact Hnd|]. split; [|exact Hsub].
  intros s. unfold unique. rewrite Hin. simpl. tauto.
Qed.

Lemma occurs_in_trans (a b c : string) : occurs_in a b -> occurs_in b c -> occurs_in a c.
Proof.
  intros (p1 & q1 & ->) (p2 & q2 & ->). exists (p2 ++ p1), (q1 ++ q2).
  now rewrite !append_assoc.
Qed.

Lemma extractViscosityLoop_spec (parts : list string) :
  extractViscosityLoop parts = "" \/
  (In (extractViscosityLoop parts) parts /\
   Contains (extractViscosityLoop parts) "W" = true /\
   3 <= len (extractViscosityLoop parts)).
Proof.
  induction parts as [|part rest IH]; [left; reflexivity|].
  cbn [extractViscosityLoop].
  destruct ((4 <=? len part) && Contains part "W-") eqn:E1.
  - right. apply andb_true_iff in E1 as [Hl Hc]. apply Z.leb_le in Hl.
    split; [left; reflexivity|]. split; [|lia].
    apply Contains_true_iff. apply Contains_true_iff in Hc.
    apply (occurs_in_trans _ "W-"); [|exact Hc]. exists "", "-". reflexivity.
  - destruct ((3 <=? len part) && Contains part "W" && negb (HasPrefix (ToLower part) "w"))
      eqn:E2.
    + right. apply andb_true_iff in E2 as [E2 _]. apply andb_true_iff in E2 as [Hl Hc].
      apply Z.leb_le in Hl. split; [left; reflexivity|]. split; assumption.
    + destruct IH as [IH|(Hin & Hc & Hl)]; [left; exact IH|].
      right. split; [right; exact Hin|]. split; assumption.
Qed.

(** [extractViscosity] returns the empty string or one of the
    white-space-separated fields of the name, of three bytes or more and
    holding a capital W; it returns the empty string when no field holds a
    capital W. *)
Theorem extractViscosity_spec (name : string) :
  (extractViscosity name = "" \/
   (In (extractViscosity name) (Fields name) /\
    Contains (extractViscosity name) "W" = true /\
    3 <= len (extractViscosity name))) /\
  ((forall part, In part (Fields name) -> Contains part "W" = false) ->
   extractViscosity name = "").
Proof.
  unfold extractViscosity. split; [apply extractViscosityLoop_spec|].
  intros Hno. destruct (extractViscosityLoop_spec (Fields name)) as [H|(Hin & Hc & _)];
    [exact H|].
  rewrite (Hno _ Hin) in Hc. discriminate.
Qed.

Lemma componentLoop_spec (comps : list Component) :
  componentLoop comps = filter useful (map specOf comps).
Proof.
  induction comps as [|c cs IH]; [reflexivity|].
  cbn [componentLoop map filter]. rewrite IH. reflexivity.
Qed.

(** What [GetSpecifications] returns: on an error of the client, an error
    and no specification; otherwise the specifications of the components
    that have a fluid type and at least one of viscosity, capacity and
    recommendation, in the order of the components. *)
Theorem GetSpecifications_output (api : result SpecificationsResponse) :
  match api, GetSpecifications api with
  | Err e, Err e' => e' = "failed to get specifications: " ++ e
  | Ok resp, Ok specs =>
      sublist specs (map specOf (Components resp)) /\
      (List.length specs <= List.length (Components resp))%nat /\
      (forall comp, In comp (Components resp) ->
         (In (specOf comp) specs <-> useful (specOf comp) = true)) /\
      Forall (fun spec =>
                TipoFluido spec <> "" /\
                (Viscosidade spec <> "" \/ Capacidade spec <> "" \/ Recomendacao spec <> ""))
             specs
  | _, _ => False
  end.
Proof.
  destruct api as [resp|e]; [|reflexivity]. cbn [GetSpecifications].
  rewrite componentLoop_spec. set (l := map specOf (Components resp)).
  split; [|split; [|split]].
  - clear. induction l as [|x l IH]; [constructor|]. cbn [filter].
    destruct (useful x); now constructor.
  - rewrite <- (length_map specOf (Components resp)). fold l.
    clear. induction l as [|x l IH]; [simpl; lia|]. cbn [filter].
    destruct (useful x); simpl; lia.
  - intros comp Hin. rewrite filter_In. split; [tauto|]. intros Hu. split; [|exact Hu].
    apply in_map, Hin.
  - apply Forall_forall. intros spec [_ Hu]%filter_In. unfold useful in Hu.
    apply andb_true_iff in Hu as [H1 H2]. apply negb_true_iff in H1.
    split; [now apply String.eqb_neq|].
    rewrite !orb_true_iff, !negb_true_iff, !String.eqb_neq in H2. tauto.
Qed.

End MotulAdapterFacts.

(** ** More of internal/scraper/smart_matcher.go: what [FindMatch] returns *)

Module SmartMatcherFacts.
Import SmartMatcher.

Lemma exactLoop_result first types desc b mo r :
  exactLoop first types desc b mo = Some r ->
  r = mkResult first 0.95%float "exact" b mo /\ someCandidateMatches types desc.
Proof.
  induction types as [|t ts IH]; simpl; [discriminate|].
  destruct (containsAllParts (Name t) desc) eqn:E.
  - intros [= <-]. split; [reflexivity|]. exists t. split; [left; reflexivity | exact E].
  - intros H. destruct (IH H) as (-> & vt & Hin & Hc). split; [reflexivity|].
    exists vt. split; [right; exact Hin | exact Hc].
Qed.

Lemma namedLoop_result types name b mo r :
  namedLoop types name b mo = Some r ->
  In (VehicleType r) types /\ Name (VehicleType r) = name /\
  r = mkResult (VehicleType r) 0.85%float "llm" b mo.
Proof.
  induction types as [|t ts IH]; simpl; [discriminate|].
  destruct (String.eqb_spec (Name t) name) as [E|E].
  - intros [= <-]. repeat split; [left; reflexivity | exact E].
  - intros H. destruct (IH H) as (Hin & Hn & Hr). repeat split; [right|..]; assumption.
Qed.

(** How a result of [FindMatch] came about. *)
Definition resultShape (m : Matcher) (desc full : string) (types : list CatalogVehicleType)
    (r : SmartMatchResult) : Prop :=
  (MatchMethod r = "single" /\ Confidence r = 1.0%float /\ types = [VehicleType r]) \/
  (MatchMethod r = "exact" /\ Confidence r = 0.95%float /\
   someCandidateMatches types desc /\ hd_error types = Some (VehicleType r)) \/
  (MatchMethod r = "llm" /\ Confidence r = 0.85%float /\
   NormalizeVehicle m full (map Name types) = Ok (Name (VehicleType r))) \/
  (MatchMethod r = "fallback" /\ Confidence r = 0.5%float /\
   hd_error types = Some (VehicleType r)).

(** The description handed to the LLM. *)
Definition fullDescription (wegaBrand wegaModel wegaDescription : string) (year : Z)
  : string :=
  let full := wegaBrand ++ " " ++ wegaModel ++ " " ++ wegaDescription in
  if 0 <? year then full ++ " (" ++ itoa year ++ ")" else full.

(** Every result of [FindMatch] names the resolved brand and model and one
    of the catalog's types for them, with one of four methods and its
    confidence: "single" 1.0 for a lone type, "exact" 0.95 for the first
    type when some type matches the description, "llm" 0.85 for a type
    whose name the LLM returned, "fallback" 0.5 for the first type. *)
Theorem FindMatch_result (m : Matcher) (wb wm desc : string) (year : Z)
    (r : SmartMatchResult) :
  FindMatch m wb wm desc year = Ok r ->
  exists b mo,
    matchBrand m wb = Ok b /\ matchModel m b wm = Ok mo /\
    MotulBrand r = b /\ MotulModel r = mo /\
    In (VehicleType r) (GetVehicleTypes m b mo) /\
    resultShape m desc (fullDescription wb wm desc year) (GetVehicleTypes m b mo) r.
Proof.
  unfold FindMatch, resultShape. intros H.
  destruct (matchBrand m wb) as [b|e]; [|discriminate].
  destruct (matchModel m b wm) as [mo|e] eqn:Em; [|discriminate].
  exists b, mo. split; [reflexivity|]. split; [exact Em|].
  destruct (GetVehicleTypes m b mo) as [|t0 [|t1 ts]] eqn:Et; [discriminate| |].
  - injection H as <-. simpl. repeat split; auto.
  - cbv zeta in H. set (types := t0 :: t1 :: ts) in *.
    destruct (exactLoop t0 types desc b mo) as [r'|] eqn:Ex.
    + injection H as <-. destruct (exactLoop_result _ _ _ _ _ _ Ex) as (-> & Hc).
      simpl. repeat split; auto. right. left. repeat split; auto.
    + destruct (NormalizeVehicle m _ (map Name types)) as [name|e] eqn:El.
      * destruct (namedLoop types name b mo) as [r'|] eqn:En.
        -- injection H as <-. destruct (namedLoop_result _ _ _ _ _ En) as (Hin & Hn & ->).
           simpl. repeat split; auto. right. right. left. repeat split; auto.
           simpl in Hn. cbn [VehicleType mkResult]. rewrite Hn.
           first [exact El | reflexivity].
        -- injection H as <-. simpl. repeat split; auto.
           right. right. right. repeat split; auto.
      * injection H as <-. simpl. repeat split; auto.
        right. right. right. repeat split; auto.
Qed.

Lemma FindMatch_result_witness :
  exists b mo,
    matchBrand golMatcher "VW" = Ok b /\ matchModel golMatcher b "Gol" = Ok mo /\
    MotulBrand (mkResult gol16 0.95%float "exact" "Volkswagen" "Gol") = b /\
    MotulModel (mkResult gol16 0.95%float "exact" "Volkswagen" "Gol") = mo /\
    In (VehicleType (mkResult gol16 0.95%float "exact" "Volkswagen" "Gol"))
       (GetVehicleTypes golMatcher b mo) /\
    resultShape golMatcher "1.0 12V flex" (fullDescription "VW" "Gol" "1.0 12V flex" 2019)
      (GetVehicleTypes golMatcher b mo)
      (mkResult gol16 0.95%float "exact" "Volkswagen" "Gol").
Proof.
  apply (FindMatch_result golMatcher "VW" "Gol" "1.0 12V flex" 2019).
  vm_compute. reflexivity.
Defined.

(** [FindMatch] fails exactly when the brand is not resolved, the model is
    not resolved, or the catalog has no type for them; a failure of the LLM
    in the type step never fails the match. *)
Theorem FindMatch_fails_iff (m : Matcher) (wb wm desc : string) (year : Z) :
  (exists e, FindMatch m wb wm desc year = Err e) <->
  (exists e, matchBrand m wb = Err e) \/
  (exists b e, matchBrand m wb = Ok b /\ matchModel m b wm = Err e) \/
  (exists b mo, matchBrand m wb = Ok b /\ matchModel m b wm = Ok mo /\
                GetVehicleTypes m b mo = []).
Proof.
  unfold FindMatch.
  destruct (matchBrand m wb) as [b|e] eqn:Eb.
  2:{ split; intros _; [left|]; eexists; reflexivity. }
  destruct (matchModel m b wm) as [mo|e] eqn:Em.
  2:{ split; intros _; [right; left; exists b, e; split; [reflexivity | exact Em]
                        | eexists; reflexivity]. }
  destruct (GetVehicleTypes m b mo) as [|t0 [|t1 ts]] eqn:Et.
  - split; intros _; [right; right; exists b, mo; auto | eexists; reflexivity].
  - split; [intros (e & [=])|].
    intros [(e & [=])|[(b' & e & [= <-] & He)|(b' & mo' & [= <-] & Hm & Hn)]].
    + rewrite Em in He. discriminate.
    + rewrite Em in Hm. injection Hm as <-. rewrite Et in Hn. discriminate.
  - cbv zeta. split.
    + intros (e & H). exfalso.
      destruct (exactLoop _ _ _ _ _); [discriminate|].
      destruct (NormalizeVehicle _ _ _); [|discriminate].
      destruct (namedLoop _ _ _ _); discriminate.
    + intros [(e & [=])|[(b' & e & [= <-] & He)|(b' & mo' & [= <-] & Hm & Hn)]].
      * rewrite Em in He. discriminate.
      * rewrite Em in Hm. injection Hm as <-. rewrite Et in Hn. discriminate.
Qed.

End SmartMatcherFacts.

(** ** internal/scraper/catalog_loader.go: the catalog and its indexes *)

Module Catalog.

#[local] Set Warnings "-clear-no-such-hyp".

Record CatalogModel := {
  ModelId : string;
  ModelName : string;
  Types : list SmartMatcher.CatalogVehicleType
}.

Record CatalogBrand := {
  BrandId : string;
  BrandName : string;
  Models : list CatalogModel
}.

Record MotulCatalog := {
  LoadedAt : Z;
  Brands : list CatalogBrand;
  BrandMap : gmap string CatalogBrand;
  ModelMap : gmap string (list SmartMatcher.CatalogVehicleType)
}.

(** The loader's own [normalizeString]: the upper-case ASCII letters
    lowered and the spaces dropped. *)
Fixpoint normalizeString (s : string) : string :=
  match s with
  | EmptyString => EmptyString
  | String c r =>
      let c := lower_byte c in
      if Ascii.eqb c " " then normalizeString r else String c (normalizeString r)
  end.

(** The inner loop of [buildIndexes], over the models of a brand. *)
Fixpoint indexModels (brandID : string) (models : list CatalogModel)
    (modelMap : gmap string (list SmartMatcher.CatalogVehicleType))
  : gmap string (list SmartMatcher.CatalogVehicleType) :=
  match models with
  | [] => modelMap
  | model :: rest =>
      indexModels brandID rest (<[brandID ++ ":" ++ ModelId model := Types model]> modelMap)
  end.

(** The outer loop of [buildIndexes]. *)
Fixpoint indexBrands (brands : list CatalogBrand) (brandMap : gmap string CatalogBrand)
    (modelMap : gmap string (list SmartMatcher.CatalogVehicleType))
  : gmap string CatalogBrand * gmap string (list SmartMatcher.CatalogVehicleType) :=
  match brands with
  | [] => (brandMap, modelMap)
  | brand :: rest =>
      indexBrands rest (<[normalizeString (BrandName brand) := brand]> brandMap)
        (indexModels (BrandId brand) (Models brand) modelMap)
  end.

(** [buildIndexes]; [None] is a loader without a catalog. *)
Definition buildIndexes (catalog : option MotulCatalog) : option MotulCatalog :=
  match catalog with
  | None => None
  | Some cat =>
      let '(brandMap, modelMap) := indexBrands (Brands cat) ∅ ∅ in
      Some {| LoadedAt := LoadedAt cat; Brands := Brands cat;
              BrandMap := brandMap; ModelMap := modelMap |}
  end.

Definition FindBrand (catalog : option MotulCatalog) (brandName : string)
  : option CatalogBrand :=
  match catalog with
  | None => None
  | Some cat => BrandMap cat !! normalizeString brandName
  end.

Definition GetBrandNames (catalog : option MotulCatalog) : list string :=
  match catalog with
  | None => []
  | Some cat => map BrandName (Brands cat)
  end.

Definition GetModelNames (catalog : option MotulCatalog) (brandName : string) : list string :=
  match catalog with
  | None => []
  | Some cat =>
      match BrandMap cat !! normalizeString brandName with
      | None => []
      | Some brand => map ModelName (Models brand)
      end
  end.

(** The loop of [GetVehicleTypes] over the models of the brand. *)
Fixpoint typesOf (normalizedModel : string) (models : list CatalogModel)
  : list SmartMatcher.CatalogVehicleType :=
  match models with
  | [] => []
  | model :: rest =>
      if String.eqb (normalizeString (ModelName model)) normalizedModel then Types model
      else typesOf normalizedModel rest
  end.

Definition GetVehicleTypes (catalog : option MotulCatalog) (brandName modelName : string)
  : list SmartMatcher.CatalogVehicleType :=
  match catalog with
  | None => []
  | Some cat =>
      match BrandMap cat !! normalizeString brandName with
      | None => []
      | Some brand => typesOf (normalizeString modelName) (Models brand)
      end
  end.

(** The last brand of a list whose normalized name is [key]. *)
Fixpoint lastBrand (key : string) (brands : list CatalogBrand) : option CatalogBrand :=
  match brands with
  | [] => None
  | brand :: rest =>
      match lastBrand key rest with
      | Some later => Some later
      | None => if String.eqb (normalizeString (BrandName brand)) key then Some brand else None
      end
  end.

(** The items of the advisor's lists: [client.Brand], [client.Model] and
    [client.VehicleType] are all an id and a name. *)
Record Item := { ItemID : string; ItemName : string }.

(** What [fetchFromAPI] reaches: the three list operations of the advisor
    client, whether the context is cancelled when the loop reaches the brand
    at a position, and the clock. *)
Record Api := {
  GetBrands : result (list Item);
  GetModels : string -> Z -> result (list Item);
  GetTypes : string -> result (list Item);
  cancelled : nat -> bool;
  now : Z
}.

Definition yearsToTry : list Z := [2024; 2023; 2022; 2020; 2018; 2015; 2010; 2005; 2000].

Definition catalogType (brand model vt : Item) : SmartMatcher.CatalogVehicleType :=
  {| SmartMatcher.ID := ItemID vt;
     SmartMatcher.Name := ItemName vt;
     SmartMatcher.BrandID := ItemID brand;
     SmartMatcher.ModelID := ItemID model;
     SmartMatcher.FullPath := ItemName brand ++ " > " ++ ItemName model ++ " > " ++ ItemName vt |}.

(** The loop over the models of one year: the models added and the ids
    seen. *)
Fixpoint modelLoop (api : Api) (brand : Item) (models : list Item) (seenModels : gset string)
  : list CatalogModel * gset string :=
  match models with
  | [] => ([], seenModels)
  | model :: rest =>
      if decide (ItemID model ∈ seenModels) then modelLoop api brand rest seenModels
      else
        let seenModels := {[ ItemID model ]} ∪ seenModels in
        let types :=
          match GetTypes api (ItemID model) with
          | Err _ => []
          | Ok types => map (catalogType brand model) types
          end in
        let catalogModel :=
          {| ModelId := ItemID model; ModelName := ItemName model; Types := types |} in
        let '(added, seenModels) := modelLoop api brand rest seenModels in
        (catalogModel :: added, seenModels)
  end.

(** The loop over the years to try. *)
Fixpoint yearLoop (api : Api) (brand : Item) (years : list Z) (seenModels : gset string)
  : list CatalogModel :=
  match years with
  | [] => []
  | year :: rest =>
      match GetModels api (ItemID brand) year with
      | Err _ => yearLoop api brand rest seenModels
      | Ok models =>
          let '(added, seenModels) := modelLoop api brand models seenModels in
          (added ++ yearLoop api brand rest seenModels)%list
      end
  end.

(** The loop over the brands, from position [i]. *)
Fixpoint brandLoop (api : Api) (i : nat) (brands : list Item) : result (list CatalogBrand) :=
  match brands with
  | [] => Ok []
  | brand :: rest =>
      if cancelled api i then Err "context canceled"
      else
        let catalogBrand :=
          {| BrandId := ItemID brand; BrandName := ItemName brand;
             Models := yearLoop api brand yearsToTry ∅ |} in
        match brandLoop api (S i) rest with
        | Err e => Err e
        | Ok others => Ok (catalogBrand :: others)
        end
  end.

Definition fetchFromAPI (api : Api) : result MotulCatalog :=
  match GetBrands api with
  | Err e => Err ("failed to get brands: " ++ e)
  | Ok brands =>
      match brandLoop api 0 brands with
      | Err e => Err e
      | Ok catalogBrands =>
          Ok {| LoadedAt := now api; Brands := catalogBrands; BrandMap := ∅; ModelMap := ∅ |}
      end
  end.

(** A model of the catalog as [fetchFromAPI] builds it for a brand: its
    types carry the ids of the brand and of the model. *)
Definition wellFormedModel (brandID : string) (model : CatalogModel) : Prop :=
  Forall (fun vt => SmartMatcher.BrandID vt = brandID
                    /\ SmartMatcher.ModelID vt = ModelId model) (Types model).

(** An advisor with one brand, whose model lists for 2024 and 2023 overlap;
    only the first model has types. *)
Definition exampleApi : Api :=
  {| GetBrands := Ok [ {| ItemID := "vw"; ItemName := "Volkswagen" |} ];
     GetModels := fun _ year =>
       if year =? 2024 then Ok [ {| ItemID := "gol"; ItemName := "Gol" |};
                                 {| ItemID := "golf"; ItemName := "Golf" |} ]
       else if year =? 2023 then Ok [ {| ItemID := "gol"; ItemName := "Gol" |};
                                      {| ItemID := "fox"; ItemName := "Fox" |} ]
       else Err "status 404";
     GetTypes := fun modelID =>
       if String.eqb modelID "gol" then Ok [ {| ItemID := "157067"; ItemName := "Gol 1.0" |} ]
       else Err "status 500";
     cancelled := fun _ => false;
     now := 0 |}.

Definition exampleCatalog : MotulCatalog :=
  match fetchFromAPI exampleApi with
  | Ok catalog => catalog
  | Err _ => {| LoadedAt := 0; Brands := []; BrandMap := ∅; ModelMap := ∅ |}
  end.

(** The first model of a list whose normalized name is [key]. *)
Fixpoint firstModel (key : string) (models : list CatalogModel) : option CatalogModel :=
  match models with
  | [] => None
  | model :: rest =>
      if String.eqb (normalizeString (ModelName model)) key then Some model
      else firstModel key rest
  end.

Lemma indexBrands_lookup (brands : list CatalogBrand) (brandMap : gmap string CatalogBrand)
    (modelMap : gmap string (list SmartMatcher.CatalogVehicleType)) (key : string) :
  fst (indexBrands brands brandMap modelMap) !! key
  = match lastBrand key brands with
    | Some brand => Some brand
    | None => brandMap !! key
    end.
Proof.
  revert brandMap modelMap. induction brands as [|brand rest IH]; intros brandMap modelMap;
    [reflexivity|].
  cbn [indexBrands lastBrand]. rewrite IH.
  destruct (lastBrand key rest) as [later|]; [reflexivity|].
  destruct (String.eqb_spec (normalizeString (BrandName brand)) key) as [->|Hne].
  - apply lookup_insert_eq.
  - apply lookup_insert_ne. exact Hne.
Qed.

Lemma lastBrand_Some (key : string) (brands : list CatalogBrand) (brand : CatalogBrand) :
  lastBrand key brands = Some brand ->
  exists before after,
    brands = (before ++ brand :: after)%list /\
    normalizeString (BrandName brand) = key /\
    Forall (fun later => normalizeString (BrandName later) <> key) after.
Proof.
  revert brand. induction brands as [|b rest IH]; intros brand; [discriminate|].
  cbn [lastBrand]. destruct (lastBrand key rest) as [later|] eqn:E.
  - intros [= ->]. destruct (IH brand eq_refl) as (before & after & -> & Hk & Ha).
    exists (b :: before), after. repeat split; assumption.
  - destruct (String.eqb_spec (normalizeString (BrandName b)) key) as [Hk|Hne];
      [|discriminate].
    intros [= ->]. exists [], rest. split; [reflexivity|]. split; [exact Hk|].
    clear -E. induction rest as [|x rest IH]; [constructor|].
    cbn [lastBrand] in E. destruct (lastBrand key rest); [discriminate|].
    destruct (String.eqb_spec (normalizeString (BrandName x)) key); [discriminate|].
    constructor; [assumption | apply IH; reflexivity].
Qed.

Lemma lastBrand_None (key : string) (brands : list CatalogBrand) :
  lastBrand key brands = None <->
  Forall (fun brand => normalizeString (BrandName brand) <> key) brands.
Proof.
  induction brands as [|b rest IH]; [split; [constructor | reflexivity]|].
  cbn [lastBrand]. destruct (lastBrand key rest) as [later|].
  - split; [discriminate|]. intros H. inversion H; subst.
    destruct IH as [_ IH]. specialize (IH ltac:(assumption)). discriminate.
  - destruct (String.eqb_spec (normalizeString (BrandName b)) key) as [Hk|Hne].
    + split; [discriminate|]. intros H. inversion H; subst. contradiction.
    + split; [|reflexivity]. intros _. constructor; [exact Hne | now apply IH].
Qed.

Lemma lower_byte_idem (c : ascii) : lower_byte (lower_byte c) = lower_byte c.
Proof.
  assert (H : forall n, (n < 256)%nat ->
            lower_byte (lower_byte (ascii_of_nat n)) = lower_byte (ascii_of_nat n)).
  { intros n Hn. do 256 (destruct n as [|n]; [reflexivity|]). lia. }
  rewrite <- (ascii_nat_embedding c). apply H, nat_ascii_bounded.
Qed.

(** Normalizing twice is normalizing once. *)
Lemma normalizeString_idempotent (s : string) :
  normalizeString (normalizeString s) = normalizeString s.
Proof.
  induction s as [|c r IH]; [reflexivity|]. cbn [normalizeString].
  destruct (Ascii.eqb (lower_byte c) " ") eqn:E; [exact IH|].
  cbn [normalizeString]. rewrite lower_byte_idem, E, IH. reflexivity.
Qed.

(** After [buildIndexes], [FindBrand] finds the last brand of the catalog
    whose name agrees with the name asked for up to letter case and spaces,
    and finds nothing exactly when the catalog has no such brand. *)
Theorem FindBrand_after_buildIndexes (cat : MotulCatalog) (brandName : string) :
  match FindBrand (buildIndexes (Some cat)) brandName with
  | Some brand =>
      exists before after,
        Brands cat = (before ++ brand :: after)%list /\
        normalizeString (BrandName brand) = normalizeString brandName /\
        Forall (fun later =>
                  normalizeString (BrandName later) <> normalizeString brandName) after
  | None =>
      Forall (fun brand =>
                normalizeString (BrandName brand) <> normalizeString brandName) (Brands cat)
  end.
Proof.
  unfold FindBrand, buildIndexes.
  pose proof (indexBrands_lookup (Brands cat) ∅ ∅ (normalizeString brandName)) as H.
  destruct (indexBrands (Brands cat) ∅ ∅) as [brandMap modelMap]. cbn [fst BrandMap] in *.
  rewrite H. destruct (lastBrand (normalizeString brandName) (Brands cat)) as [brand|] eqn:E.
  - apply lastBrand_Some, E.
  - rewrite lookup_empty. apply lastBrand_None, E.
Qed.


Lemma modelLoop_spec (api : Api) (brand : Item) (models : list Item) (seen : gset string) :
  let '(added, seen') := modelLoop api brand models seen in
  (NoDup (map ModelId added) /\
   (forall id, (id ∈ seen') <-> (id ∈ seen \/ In id (map ModelId added))) /\
   (forall id, In id (map ModelId added) -> (id ∉ seen) /\ In id (map ItemID models)) /\
   (forall id, In id (map ItemID models) -> id ∈ seen') /\
   Forall (wellFormedModel (ItemID brand)) added).
Proof.
  revert seen. induction models as [|model rest IH]; intros seen.
  - cbn. split; [constructor|]. split; [tauto|]. split; [tauto|]. split; [tauto | constructor].
  - cbn [modelLoop]. destruct (decide (ItemID model ∈ seen)) as [Hin|Hnin].
    + specialize (IH seen). destruct (modelLoop api brand rest seen) as [added seen'].
      destruct IH as (Hnd & Hseen & Hnew & Hall & Hwf).
      split; [exact Hnd|]. split; [exact Hseen|]. split; [|split; [|exact Hwf]].
      * intros id Hid. destruct (Hnew id Hid). split; [assumption | right; assumption].
      * intros id [<-|Hid]; [apply Hseen; left; exact Hin | apply Hall, Hid].
    + cbv zeta. specialize (IH ({[ItemID model]} ∪ seen)).
      destruct (modelLoop api brand rest ({[ItemID model]} ∪ seen)) as [added seen'].
      destruct IH as (Hnd & Hseen & Hnew & Hall & Hwf). cbn [map ModelId].
      split; [|split; [|split; [|split]]].
      * constructor; [|exact Hnd]. intros Hid. destruct (Hnew _ Hid) as [Hn _].
        apply Hn. set_solver.
      * intros id. rewrite Hseen. cbn [In]. set_solver.
      * intros id [<-|Hid]; [split; [exact Hnin | left; reflexivity]|].
        destruct (Hnew id Hid) as [Hn Hm]. split; [set_solver | right; exact Hm].
      * intros id [<-|Hid]; [apply Hseen; left; set_solver | apply Hall, Hid].
      * constructor; [|exact Hwf]. unfold wellFormedModel. cbn [Types ModelId].
        destruct (GetTypes api (ItemID model)) as [types|e]; [|constructor].
        apply Forall_forall. intros vt (x & <- & _)%in_map_iff. split; reflexivity.
Qed.

Lemma yearLoop_spec (api : Api) (brand : Item) (years : list Z) (seen : gset string) :
  NoDup (map ModelId (yearLoop api brand years seen)) /\
  (forall id, In id (map ModelId (yearLoop api brand years seen)) -> id ∉ seen) /\
  (forall year models id,
     In year years -> GetModels api (ItemID brand) year = Ok models ->
     In id (map ItemID models) ->
     id ∈ seen \/ In id (map ModelId (yearLoop api brand years seen))) /\
  Forall (wellFormedModel (ItemID brand)) (yearLoop api brand years seen).
Proof.
  revert seen. induction years as [|year rest IH]; intros seen.
  - cbn. split; [constructor|]. split; [tauto|]. split; [tauto | constructor].
  - cbn [yearLoop]. destruct (GetModels api (ItemID brand) year) as [models|e] eqn:Eg.
    + pose proof (modelLoop_spec api brand models seen) as Hm.
      destruct (modelLoop api brand models seen) as [added seen'].
      destruct Hm as (Hnd & Hseen & Hnew & Hall & Hwf).
      destruct (IH seen') as (Hnd' & Hnew' & Hcov & Hwf').
      rewrite map_app. split; [|split; [|split]].
      * apply NoDup_app; [exact Hnd | exact Hnd' |].
        intros id Hid Hid'. apply (Hnew' id Hid'). apply Hseen. right. exact Hid.
      * intros id [Hid|Hid]%in_app_or.
        -- apply (Hnew id Hid).
        -- intros Hs. apply (Hnew' id Hid). apply Hseen. left. exact Hs.
      * intros y ms id [<-|Hy] Hg Hid.
        -- rewrite Eg in Hg. injection Hg as <-.
           apply Hall, Hseen in Hid as [Hid|Hid]; [left; exact Hid|].
           right. apply in_or_app. left. exact Hid.
        -- destruct (Hcov y ms id Hy Hg Hid) as [Hs|Hi].
           ++ apply Hseen in Hs as [Hs|Hs]; [left; exact Hs|].
              right. apply in_or_app. left. exact Hs.
           ++ right. apply in_or_app. right. exact Hi.
      * apply Forall_app. split; assumption.
    + destruct (IH seen) as (Hnd' & Hnew' & Hcov & Hwf').
      split; [exact Hnd'|]. split; [exact Hnew'|]. split; [|exact Hwf'].
      intros y ms id [<-|Hy] Hg Hid; [rewrite Eg in Hg; discriminate|].
      apply (Hcov y ms id Hy Hg Hid).
Qed.

Lemma brandLoop_spec (api : Api) (brands : list Item) (i : nat)
    (catalogBrands : list CatalogBrand) :
  brandLoop api i brands = Ok catalogBrands ->
  map BrandId catalogBrands = map ItemID brands /\
  map BrandName catalogBrands = map ItemName brands /\
  Forall (fun brand =>
            NoDup (map ModelId (Models brand)) /\
            Forall (wellFormedModel (BrandId brand)) (Models brand) /\
            forall year models id,
              In year yearsToTry -> GetModels api (BrandId brand) year = Ok models ->
              In id (map ItemID models) -> In id (map ModelId (Models brand)))
         catalogBrands.
Proof.
  revert i catalogBrands. induction brands as [|brand rest IH]; intros i catalogBrands.
  - intros [= <-]. repeat split; constructor.
  - cbn [brandLoop]. destruct (cancelled api i); [discriminate|]. cbv zeta.
    destruct (brandLoop api (S i) rest) as [others|e] eqn:E; [|discriminate].
    intros [= <-]. destruct (IH _ _ E) as (Hid & Hname & Hall).
    cbn [map BrandId BrandName]. rewrite Hid, Hname.
    split; [reflexivity|]. split; [reflexivity|]. constructor; [|exact Hall].
    cbn [Models BrandId].
    destruct (yearLoop_spec api brand yearsToTry ∅) as (Hnd & _ & Hcov & Hwf).
    split; [exact Hnd|]. split; [exact Hwf|].
    intros year models id Hy Hg Hin.
    destruct (Hcov year models id Hy Hg Hin) as [Hs|Hi]; [set_solver | exact Hi].
Qed.

(** The catalog [fetchFromAPI] returns lists the brands of the advisor in
    their order. Within a brand no two models share an id, every model the
    advisor listed for one of the years tried is there, and every type
    carries the ids of its brand and of its model. *)
Theorem fetchFromAPI_catalog (api : Api) (catalog : MotulCatalog) :
  fetchFromAPI api = Ok catalog ->
  exists brands,
    GetBrands api = Ok brands /\
    map BrandId (Brands catalog) = map ItemID brands /\
    map BrandName (Brands catalog) = map ItemName brands /\
    Forall (fun brand =>
              NoDup (map ModelId (Models brand)) /\
              Forall (wellFormedModel (BrandId brand)) (Models brand) /\
              forall year models id,
                In year yearsToTry -> GetModels api (BrandId brand) year = Ok models ->
                In id (map ItemID models) -> In id (map ModelId (Models brand)))
           (Brands catalog).
Proof.
  unfold fetchFromAPI. destruct (GetBrands api) as [brands|e]; [|discriminate].
  destruct (brandLoop api 0 brands) as [catalogBrands|e] eqn:E; [|discriminate].
  intros [= <-]. exists brands. split; [reflexivity|]. cbn [Brands].
  apply (brandLoop_spec api brands 0), E.
Qed.


Lemma fetchFromAPI_catalog_witness :
  exists brands,
    GetBrands exampleApi = Ok brands /\
    map BrandId (Brands exampleCatalog) = map ItemID brands /\
    map BrandName (Brands exampleCatalog) = map ItemName brands /\
    Forall (fun brand =>
              NoDup (map ModelId (Models brand)) /\
              Forall (wellFormedModel (BrandId brand)) (Models brand) /\
              forall year models id,
                In year yearsToTry ->
                GetModels exampleApi (BrandId brand) year = Ok models ->
                In id (map ItemID models) -> In id (map ModelId (Models brand)))
           (Brands exampleCatalog).
Proof.
  apply (fetchFromAPI_catalog exampleApi exampleCatalog). vm_compute. reflexivity.
Defined.

Lemma typesOf_firstModel (key : string) (models : list CatalogModel) :
  typesOf key models = match firstModel key models with
                       | Some model => Types model
                       | None => []
                       end.
Proof.
  induction models as [|model rest IH]; [reflexivity|]. cbn [typesOf firstModel].
  destruct (String.eqb (normalizeString (ModelName model)) key); [reflexivity | exact IH].
Qed.

Lemma firstModel_of_member (name : string) (models : list CatalogModel) :
  In name (map ModelName models) ->
  exists model, firstModel (normalizeString name) models = Some model /\
                In model models /\
                normalizeString (ModelName model) = normalizeString name.
Proof.
  induction models as [|model rest IH]; [intros []|]. cbn [map In firstModel].
  destruct (String.eqb_spec (normalizeString (ModelName model)) (normalizeString name))
    as [E|E].
  - intros _. exists model. repeat split; [left; reflexivity | exact E].
  - intros [H|H]; [rewrite H in E; contradiction|].
    destruct (IH H) as (m & Hf & Hin & Hn). exists m. repeat split; [|right|]; assumption.
Qed.

Lemma firstModel_first (key : string) (models : list CatalogModel) (model : CatalogModel) :
  firstModel key models = Some model ->
  normalizeString (ModelName model) = key /\
  exists earlier later,
    models = (earlier ++ model :: later)%list /\
    Forall (fun m => normalizeString (ModelName m) <> key) earlier.
Proof.
  induction models as [|m rest IH]; [discriminate|]. cbn [firstModel].
  destruct (String.eqb_spec (normalizeString (ModelName m)) key) as [E|E].
  - intros [= <-]. split; [exact E|]. exists [], rest. split; [reflexivity | constructor].
  - intros H. destruct (IH H) as (Hn & earlier & later & -> & Hall). split; [exact Hn|].
    exists (m :: earlier), later. split; [reflexivity|]. constructor; assumption.
Qed.

(** A model name listed by [GetModelNames] for a brand always resolves in
    [GetVehicleTypes]: the brand is found, and the call returns the types of
    the first model of the brand, in the order of its list of models, whose
    name agrees with the listed name up to letter case and spaces: no model
    before it in the list has such a name. *)
Theorem GetVehicleTypes_of_listed_model (catalog : option MotulCatalog)
    (brandName modelName : string) :
  In modelName (GetModelNames catalog brandName) ->
  exists brand model earlier later,
    FindBrand catalog brandName = Some brand /\
    Models brand = (earlier ++ model :: later)%list /\
    Forall (fun m => normalizeString (ModelName m) <> normalizeString modelName) earlier /\
    normalizeString (ModelName model) = normalizeString modelName /\
    GetVehicleTypes catalog brandName modelName = Types model.
Proof.
  unfold GetModelNames, GetVehicleTypes, FindBrand.
  destruct catalog as [cat|]; [|intros []].
  destruct (BrandMap cat !! normalizeString brandName) as [brand|]; [|intros []].
  intros Hin. destruct (firstModel_of_member _ _ Hin) as (model & Hf & _ & _).
  destruct (firstModel_first _ _ _ Hf) as (Hn & earlier & later & Heq & Hall).
  exists brand, model, earlier, later. split; [reflexivity|].
  split; [exact Heq|]. split; [exact Hall|]. split; [exact Hn|].
  rewrite typesOf_firstModel, Hf. reflexivity.
Qed.

Lemma GetVehicleTypes_of_listed_model_witness :
  exists brand model earlier later,
    FindBrand (buildIndexes (Some exampleCatalog)) "VOLKSWAGEN" = Some brand /\
    Models brand = (earlier ++ model :: later)%list /\
    Forall (fun m => normalizeString (ModelName m) <> normalizeString "Gol") earlier /\
    normalizeString (ModelName model) = normalizeString "Gol" /\
    GetVehicleTypes (buildIndexes (Some exampleCatalog)) "VOLKSWAGEN" "Gol" = Types model.
Proof.
  apply (GetVehicleTypes_of_listed_model (buildIndexes (Some exampleCatalog))
           "VOLKSWAGEN" "Gol").
  vm_compute. left. reflexivity.
Defined.

End Catalog.

(** ** internal/scraper/smart_matcher.go with its caches, over the catalog
    of catalog_loader.go and the LLM client of internal/client/groq.go *)

Module SmartMatcherResolve.
Import Catalog.

#[local] Set Warnings "-clear-no-such-hyp".

(** The mutable part of a [SmartMatcher]: its three [sync.Map]s. *)
Record Caches := {
  brandCache : gmap string string;
  modelCache : gmap string string;
  typeCache : gmap string SmartMatcher.CatalogVehicleType
}.

(** The caches of [NewSmartMatcher]. *)
Definition NewSmartMatcher : Caches :=
  {| brandCache := ∅; modelCache := ∅; typeCache := ∅ |}.

Definition storeBrand (st : Caches) (key value : string) : Caches :=
  {| brandCache := <[key := value]> (brandCache st);
     modelCache := modelCache st; typeCache := typeCache st |}.

Definition storeModel (st : Caches) (key value : string) : Caches :=
  {| brandCache := brandCache st;
     modelCache := <[key := value]> (modelCache st); typeCache := typeCache st |}.

(** groq.go: [normalizeForComparison]. *)
Definition normalizeForComparison (s : string) : string := ToLower (TrimSpace s).

(** The exact-match loop of [FindBestBrand] and [FindBestModel]. *)
Fixpoint firstEquivalent (wega : string) (options : list string) : option string :=
  match options with
  | [] => None
  | opt :: rest =>
      if String.eqb (normalizeForComparison opt) (normalizeForComparison wega) then Some opt
      else firstEquivalent wega rest
  end.

Definition FindBestBrand (c : GroqClient.Provider) (wegaBrand : string)
    (motulBrands : list string) : result string :=
  match motulBrands with
  | [] => Err "no Motul brands provided"
  | _ =>
      match firstEquivalent wegaBrand motulBrands with
      | Some brand => Ok brand
      | None => GroqClient.NormalizeVehicle c wegaBrand motulBrands
      end
  end.

Definition FindBestModel (c : GroqClient.Provider) (wegaModel : string)
    (motulModels : list string) : result string :=
  match motulModels with
  | [] => Err "no Motul models provided"
  | _ =>
      match firstEquivalent wegaModel motulModels with
      | Some model => Ok model
      | None => GroqClient.NormalizeVehicle c wegaModel motulModels
      end
  end.

(** The alias table of [matchBrand]. *)
Definition aliases : list (string * string) :=
  [("vw", "volkswagen"); ("volkswagen", "volkswagen"); ("bmw", "bmw");
   ("mercedes", "mercedes-benz"); ("merc", "mercedes-benz"); ("gm", "chevrolet");
   ("chevy", "chevrolet"); ("fiat", "fiat")].

Fixpoint lookupAlias (key : string) (table : list (string * string)) : option string :=
  match table with
  | [] => None
  | (k, v) :: rest => if String.eqb k key then Some v else lookupAlias key rest
  end.

(** [matchBrand]: the result and the caches after the call. *)
Definition matchBrand (catalog : option MotulCatalog) (groq : GroqClient.Provider)
    (st : Caches) (wegaBrand : string) : result string * Caches :=
  match brandCache st !! wegaBrand with
  | Some cached => (Ok cached, st)
  | None =>
  match FindBrand catalog wegaBrand with
  | Some brand => (Ok (BrandName brand), storeBrand st wegaBrand (BrandName brand))
  | None =>
  let normalized := ToLower (TrimSpace wegaBrand) in
  let aliased :=
    match lookupAlias normalized aliases with
    | Some alias => FindBrand catalog alias
    | None => None
    end in
  match aliased with
  | Some brand => (Ok (BrandName brand), storeBrand st wegaBrand (BrandName brand))
  | None =>
  let brandNames := GetBrandNames catalog in
  match brandNames with
  | [] => (Err "no brands in catalog", st)
  | _ =>
  match FindBestBrand groq wegaBrand brandNames with
  | Err e => (Err e, st)
  | Ok matchedBrand => (Ok matchedBrand, storeBrand st wegaBrand matchedBrand)
  end end end end end.

(** The two loops of [matchModel] over the model names. *)
Fixpoint exactModel (normalizedWega : string) (modelNames : list string) : option string :=
  match modelNames with
  | [] => None
  | modelName :: rest =>
      if String.eqb (ToLower modelName) normalizedWega then Some modelName
      else exactModel normalizedWega rest
  end.

Fixpoint partialModel (normalizedWega : string) (modelNames : list string) : option string :=
  match modelNames with
  | [] => None
  | modelName :: rest =>
      if Contains normalizedWega (ToLower modelName) then Some modelName
      else partialModel normalizedWega rest
  end.

Definition cacheKey (motulBrand wegaModel : string) : string :=
  motulBrand ++ ":" ++ wegaModel.

(** [matchModel]: the result and the caches after the call. *)
Definition matchModel (catalog : option MotulCatalog) (groq : GroqClient.Provider)
    (st : Caches) (motulBrand wegaModel : string) : result string * Caches :=
  let key := cacheKey motulBrand wegaModel in
  match modelCache st !! key with
  | Some cached => (Ok cached, st)
  | None =>
  let modelNames := GetModelNames catalog motulBrand in
  match modelNames with
  | [] => (Err ("no models found for brand " ++ motulBrand), st)
  | _ =>
  let normalizedWega := ToLower (TrimSpace wegaModel) in
  match exactModel normalizedWega modelNames with
  | Some modelName => (Ok modelName, storeModel st key modelName)
  | None =>
  match partialModel normalizedWega modelNames with
  | Some modelName => (Ok modelName, storeModel st key modelName)
  | None =>
  match FindBestModel groq wegaModel modelNames with
  | Err e => (Err e, st)
  | Ok matchedModel => (Ok matchedModel, storeModel st key matchedModel)
  end end end end end.

(** Steps 3 to 6 of [FindMatch] with the brand and the model resolved: the
    type list of the catalog and the single-match call of the LLM client. *)
Definition resolved (catalog : option MotulCatalog) (groq : GroqClient.Provider)
    (motulBrand motulModel : string) : SmartMatcher.Matcher :=
  {| SmartMatcher.matchBrand := fun _ => Ok motulBrand;
     SmartMatcher.matchModel := fun _ _ => Ok motulModel;
     SmartMatcher.GetVehicleTypes := GetVehicleTypes catalog;
     SmartMatcher.NormalizeVehicle := GroqClient.NormalizeVehicle groq |}.

(** [FindMatch] with the caches threaded through its two resolution
    steps. *)
Definition FindMatch (catalog : option MotulCatalog) (groq : GroqClient.Provider)
    (st : Caches) (wegaBrand wegaModel wegaDescription : string) (year : Z)
  : result SmartMatcher.SmartMatchResult * Caches :=
  let '(brand, st) := matchBrand catalog groq st wegaBrand in
  match brand with
  | Err e => (Err ("brand not found: " ++ e), st)
  | Ok motulBrand =>
      let '(model, st) := matchModel catalog groq st motulBrand wegaModel in
      match model with
      | Err e => (Err ("model not found: " ++ e), st)
      | Ok motulModel =>
          (SmartMatcher.FindMatch (resolved catalog groq motulBrand motulModel)
             wegaBrand wegaModel wegaDescription year, st)
      end
  end.

(** motul_adapter.go: [SearchVehicle], the vehicle built from a match. *)
Definition SearchVehicle (catalog : option MotulCatalog) (groq : GroqClient.Provider)
    (st : Caches) (brand model : string) (year : Z)
  : result Scraper.MotulVehicle * Caches :=
  let '(res, st) := FindMatch catalog groq st brand model model year in
  match res with
  | Err e => (Err e, st)
  | Ok r =>
      (Ok {| Scraper.MotulID := SmartMatcher.ID (SmartMatcher.VehicleType r);
             Scraper.MotulBrand := SmartMatcher.MotulBrand r;
             Scraper.MotulModel := SmartMatcher.MotulModel r;
             Scraper.MotulYear := year;
             Scraper.MotulDescription := SmartMatcher.Name (SmartMatcher.VehicleType r);
             Scraper.MotorType := SmartMatcher.MatchMethod r |}, st)
  end.

(** One call of [SearchVehicle], with the LLM as it answers during that
    call. *)
Record Search := {
  llm : GroqClient.Provider;
  searchBrand : string;
  searchModel : string;
  searchYear : Z
}.

(** A sequence of calls on one matcher. *)
Fixpoint searches (catalog : option MotulCatalog) (calls : list Search) (st : Caches)
  : list (result Scraper.MotulVehicle) * Caches :=
  match calls with
  | [] => ([], st)
  | call :: rest =>
      let '(res, st) :=
        SearchVehicle catalog (llm call) st (searchBrand call) (searchModel call)
          (searchYear call) in
      let '(others, st) := searches catalog rest st in
      (res :: others, st)
  end.

(** A search that the catalog answers without the LLM: the alias "VW" and a
    model name inside the vehicle's model. *)
Definition golSearch : Search :=
  {| llm := GroqClient.zeroProvider; searchBrand := "VW"; searchModel := "Gol 1.0 Flex";
     searchYear := 2019 |}.

Definition golVehicle : Scraper.MotulVehicle :=
  {| Scraper.MotulID := "157067"; Scraper.MotulBrand := "Volkswagen";
     Scraper.MotulModel := "Gol"; Scraper.MotulYear := 2019;
     Scraper.MotulDescription := "Gol 1.0"; Scraper.MotorType := "single" |}.

(** A provider whose rate limiter fails. *)
Definition downProvider : GroqClient.Provider :=
  {| GroqClient.wait := Err "context canceled";
     GroqClient.doRequestWithFailover := fun _ => Err "unreachable" |}.

(** Where the models of [fetchFromAPI] come from: a model of the advisor's
    list for the brand and one of the years, with the advisor's types for
    it, or no type when that request failed. *)
Definition listed (api : Api) (brand : Item) (years : list Z) (model : CatalogModel) : Prop :=
  exists year models item,
    In year years /\ GetModels api (ItemID brand) year = Ok models /\ In item models /\
    ModelId model = ItemID item /\ ModelName model = ItemName item /\
    Types model = match GetTypes api (ItemID item) with
                  | Err _ => []
                  | Ok types => map (catalogType brand item) types
                  end.

Lemma NormalizeVehicle_In (c : GroqClient.Provider) (w : string) (opts : list string)
    (r : string) :
  GroqClient.NormalizeVehicle c w opts = Ok r -> In r opts.
Proof.
  destruct opts as [|o1 [|o2 rest]]; [discriminate | intros [= <-]; left; reflexivity |].
  set (opts := o1 :: o2 :: rest).
  assert (Hfb : GroqClient.fallbackResult w opts = Ok r -> In r opts).
  { unfold GroqClient.fallbackResult.
    destruct (GroqClient.smartFallback_choice w opts ltac:(discriminate))
      as (r' & -> & Hin & _).
    intros [= <-]. exact Hin. }
  unfold GroqClient.NormalizeVehicle. fold opts.
  change (match opts with [] => _ | [only] => _ | _ => ?k end) with k. cbv zeta.
  destruct (GroqClient.wait c); [|discriminate].
  destruct (GroqClient.doRequestWithFailover c _) as [response|]; [|discriminate].
  destruct (_ =? 0); [exact Hfb|].
  destruct (_ || _); [exact Hfb|].
  destruct (nth_error opts _) as [opt|] eqn:En; [|discriminate].
  intros [= <-]. eapply nth_error_In. exact En.
Qed.

Lemma firstEquivalent_In (wega : string) (options : list string) (r : string) :
  firstEquivalent wega options = Some r -> In r options.
Proof.
  induction options as [|opt rest IH]; [discriminate|]. cbn [firstEquivalent].
  destruct (String.eqb _ _); [intros [= <-]; left; reflexivity|].
  intros H. right. apply IH, H.
Qed.

Lemma FindBestBrand_In (c : GroqClient.Provider) (w : string) (opts : list string)
    (r : string) :
  FindBestBrand c w opts = Ok r -> In r opts.
Proof.
  unfold FindBestBrand. destruct opts as [|o rest]; [discriminate|].
  destruct (firstEquivalent w (o :: rest)) as [b|] eqn:E.
  - intros [= <-]. eapply firstEquivalent_In, E.
  - apply NormalizeVehicle_In.
Qed.

Lemma FindBestModel_In (c : GroqClient.Provider) (w : string) (opts : list string)
    (r : string) :
  FindBestModel c w opts = Ok r -> In r opts.
Proof.
  unfold FindBestModel. destruct opts as [|o rest]; [discriminate|].
  destruct (firstEquivalent w (o :: rest)) as [b|] eqn:E.
  - intros [= <-]. eapply firstEquivalent_In, E.
  - apply NormalizeVehicle_In.
Qed.

Lemma exactModel_In (key : string) (names : list string) (r : string) :
  exactModel key names = Some r -> In r names.
Proof.
  induction names as [|n rest IH]; [discriminate|]. cbn [exactModel].
  destruct (String.eqb _ _); [intros [= <-]; left; reflexivity|].
  intros H. right. apply IH, H.
Qed.

Lemma partialModel_In (key : string) (names : list string) (r : string) :
  partialModel key names = Some r -> In r names.
Proof.
  induction names as [|n rest IH]; [discriminate|]. cbn [partialModel].
  destruct (Contains _ _); [intros [= <-]; left; reflexivity|].
  intros H. right. apply IH, H.
Qed.

(** What one call of [matchBrand] does to the caches. *)
Lemma matchBrand_caches (catalog : option MotulCatalog) (g : GroqClient.Provider)
    (st : Caches) (wb : string) :
  let '(res, st') := matchBrand catalog g st wb in
  brandCache st ⊆ brandCache st' /\ modelCache st' = modelCache st /\
  (forall b, res = Ok b -> brandCache st' !! wb = Some b) /\
  (forall k b, brandCache st' !! k = Some b ->
     brandCache st !! k = Some b \/ res = Ok b).
Proof.
  unfold matchBrand. destruct (brandCache st !! wb) as [cached|] eqn:Ec.
  { split; [reflexivity|]. split; [reflexivity|]. split; [intros b [= <-]; exact Ec|].
    intros k b H. left. exact H. }
  assert (Hstore : forall b,
    brandCache st ⊆ brandCache (storeBrand st wb b) /\
    modelCache (storeBrand st wb b) = modelCache st /\
    (forall b', Ok b = Ok b' -> brandCache (storeBrand st wb b) !! wb = Some b') /\
    (forall k b', brandCache (storeBrand st wb b) !! k = Some b' ->
       brandCache st !! k = Some b' \/ Ok b = Ok b')).
  { intros b. cbn [storeBrand brandCache modelCache].
    split; [apply insert_subseteq, Ec|]. split; [reflexivity|].
    split; [intros b' [= <-]; apply lookup_insert_eq|].
    intros k b' H. destruct (decide (wb = k)) as [<-|Hne].
    - rewrite lookup_insert_eq in H. right. congruence.
    - rewrite lookup_insert_ne in H by exact Hne. left. exact H. }
  assert (Hkeep : forall e : string,
    brandCache st ⊆ brandCache st /\ modelCache st = modelCache st /\
    (forall b, Err e = Ok b -> brandCache st !! wb = Some b) /\
    (forall k b, brandCache st !! k = Some b ->
       brandCache st !! k = Some b \/ Err e = Ok b)).
  { intros e. split; [reflexivity|]. split; [reflexivity|].
    split; [discriminate|]. intros k b H. left. exact H. }
  destruct (FindBrand catalog wb) as [brand|]; [apply Hstore|]. cbv zeta.
  destruct (match lookupAlias _ aliases with Some alias => _ | None => None end)
    as [brand|]; [apply Hstore|].
  destruct (GetBrandNames catalog) as [|n names]; [apply Hkeep|].
  destruct (FindBestBrand g wb (n :: names)) as [matched|e]; [apply Hstore | apply Hkeep].
Qed.

(** What one call of [matchModel] does to the caches. *)
Lemma matchModel_caches (catalog : option MotulCatalog) (g : GroqClient.Provider)
    (st : Caches) (b wm : string) :
  let '(res, st') := matchModel catalog g st b wm in
  brandCache st' = brandCache st /\ modelCache st ⊆ modelCache st' /\
  (forall mo, res = Ok mo -> modelCache st' !! cacheKey b wm = Some mo) /\
  (forall k mo, modelCache st' !! k = Some mo ->
     modelCache st !! k = Some mo \/
     (k = cacheKey b wm /\ In mo (GetModelNames catalog b))).
Proof.
  unfold matchModel. cbv zeta. destruct (modelCache st !! cacheKey b wm) as [cached|] eqn:Ec.
  { split; [reflexivity|]. split; [reflexivity|]. split; [intros mo [= <-]; exact Ec|].
    intros k mo H. left. exact H. }
  assert (Hstore : forall mo, In mo (GetModelNames catalog b) ->
    brandCache (storeModel st (cacheKey b wm) mo) = brandCache st /\
    modelCache st ⊆ modelCache (storeModel st (cacheKey b wm) mo) /\
    (forall mo', Ok mo = Ok mo' ->
       modelCache (storeModel st (cacheKey b wm) mo) !! cacheKey b wm = Some mo') /\
    (forall k mo', modelCache (storeModel st (cacheKey b wm) mo) !! k = Some mo' ->
       modelCache st !! k = Some mo' \/
       (k = cacheKey b wm /\ In mo' (GetModelNames catalog b)))).
  { intros mo Hin. cbn [storeModel brandCache modelCache].
    split; [reflexivity|]. split; [apply insert_subseteq, Ec|].
    split; [intros mo' [= <-]; apply lookup_insert_eq|].
    intros k mo' H. destruct (decide (cacheKey b wm = k)) as [<-|Hne].
    - rewrite lookup_insert_eq in H. injection H as <-. right. split; [reflexivity | exact Hin].
    - rewrite lookup_insert_ne in H by exact Hne. left. exact H. }
  assert (Hkeep : forall e : string,
    brandCache st = brandCache st /\ modelCache st ⊆ modelCache st /\
    (forall mo, Err e = Ok mo -> modelCache st !! cacheKey b wm = Some mo) /\
    (forall k mo, modelCache st !! k = Some mo ->
       modelCache st !! k = Some mo \/
       (k = cacheKey b wm /\ In mo (GetModelNames catalog b)))).
  { intros e. split; [reflexivity|]. split; [reflexivity|].
    split; [discriminate|]. intros k mo H. left. exact H. }
  destruct (GetModelNames catalog b) as [|n names] eqn:En; [apply Hkeep|].
  destruct (exactModel _ (n :: names)) as [mo|] eqn:Ex;
    [apply Hstore; eapply exactModel_In, Ex|].
  destruct (partialModel _ (n :: names)) as [mo|] eqn:Ep;
    [apply Hstore; eapply partialModel_In, Ep|].
  destruct (FindBestModel g wm (n :: names)) as [mo|e] eqn:Ef;
    [apply Hstore; eapply FindBestModel_In, Ef | apply Hkeep].
Qed.

(** The type step of [FindMatch] succeeds on a non-empty type list, with
    one of its types. *)
Lemma FindMatch_resolved (catalog : option MotulCatalog) (g : GroqClient.Provider)
    (b mo wb wm desc : string) (year : Z) :
  match SmartMatcher.FindMatch (resolved catalog g b mo) wb wm desc year with
  | Ok r =>
      SmartMatcher.MotulBrand r = b /\ SmartMatcher.MotulModel r = mo /\
      In (SmartMatcher.VehicleType r) (GetVehicleTypes catalog b mo)
  | Err _ => GetVehicleTypes catalog b mo = []
  end.
Proof.
  unfold SmartMatcher.FindMatch.
  cbn [resolved SmartMatcher.matchBrand SmartMatcher.matchModel SmartMatcher.GetVehicleTypes
       SmartMatcher.NormalizeVehicle].
  destruct (GetVehicleTypes catalog b mo) as [|t0 [|t1 ts]]; [reflexivity | |].
  - cbn. auto.
  - cbv zeta. set (types := t0 :: t1 :: ts).
    destruct (SmartMatcher.exactLoop t0 types desc b mo) as [r|] eqn:Ex.
    + destruct (SmartMatcherFacts.exactLoop_result _ _ _ _ _ _ Ex) as (-> & _).
      cbn. auto.
    + destruct (GroqClient.NormalizeVehicle g _ _) as [name|e]; [|cbn; auto].
      destruct (SmartMatcher.namedLoop types name b mo) as [r|] eqn:En; [|cbn; auto].
      destruct (SmartMatcherFacts.namedLoop_result _ _ _ _ _ En) as (Hin & _ & Hr).
      rewrite Hr at 1 2. cbn. auto.
Qed.

(** What one call of [FindMatch] does to the caches, and what a result
    leaves in them. *)
Lemma FindMatch_caches (catalog : option MotulCatalog) (g : GroqClient.Provider)
    (st : Caches) (wb wm desc : string) (year : Z) :
  let '(res, st') := FindMatch catalog g st wb wm desc year in
  brandCache st ⊆ brandCache st' /\ modelCache st ⊆ modelCache st' /\
  (forall r, res = Ok r ->
     brandCache st' !! wb = Some (SmartMatcher.MotulBrand r) /\
     modelCache st' !! cacheKey (SmartMatcher.MotulBrand r) wm
       = Some (SmartMatcher.MotulModel r) /\
     In (SmartMatcher.VehicleType r)
        (GetVehicleTypes catalog (SmartMatcher.MotulBrand r) (SmartMatcher.MotulModel r))).
Proof.
  unfold FindMatch. pose proof (matchBrand_caches catalog g st wb) as Hb.
  destruct (matchBrand catalog g st wb) as [[b|e] st1].
  2:{ destruct Hb as (Hsub & Hm & _). split; [exact Hsub|]. rewrite Hm.
      split; [reflexivity | discriminate]. }
  destruct Hb as (Hsub & Hm & Hhit & _).
  pose proof (matchModel_caches catalog g st1 b wm) as Hmo.
  destruct (matchModel catalog g st1 b wm) as [[mo|e] st2].
  2:{ destruct Hmo as (Hb' & Hsub' & _). rewrite Hb', <- Hm.
      split; [exact Hsub|]. split; [exact Hsub' | discriminate]. }
  destruct Hmo as (Hb' & Hsub' & Hhit' & _). rewrite Hb', <- Hm.
  split; [exact Hsub|]. split; [exact Hsub'|].
  intros r Hr. pose proof (FindMatch_resolved catalog g b mo wb wm desc year) as Ht.
  rewrite Hr in Ht. destruct Ht as (-> & -> & Hin).
  split; [apply Hhit; reflexivity|]. split; [apply Hhit'; reflexivity | exact Hin].
Qed.

Lemma SearchVehicle_caches (catalog : option MotulCatalog) (g : GroqClient.Provider)
    (st : Caches) (brand model : string) (year : Z) :
  let '(res, st') := SearchVehicle catalog g st brand model year in
  brandCache st ⊆ brandCache st' /\ modelCache st ⊆ modelCache st' /\
  (forall v, res = Ok v ->
     brandCache st' !! brand = Some (Scraper.MotulBrand v) /\
     modelCache st' !! cacheKey (Scraper.MotulBrand v) model = Some (Scraper.MotulModel v) /\
     exists vt,
       In vt (GetVehicleTypes catalog (Scraper.MotulBrand v) (Scraper.MotulModel v)) /\
       Scraper.MotulID v = SmartMatcher.ID vt /\
       Scraper.MotulDescription v = SmartMatcher.Name vt).
Proof.
  unfold SearchVehicle. pose proof (FindMatch_caches catalog g st brand model model year) as H.
  destruct (FindMatch catalog g st brand model model year) as [[r|e] st'].
  - destruct H as (Hb & Hm & Hr). split; [exact Hb|]. split; [exact Hm|].
    intros v [= <-]. destruct (Hr r eq_refl) as (H1 & H2 & H3).
    cbn. split; [exact H1|]. split; [exact H2|].
    exists (SmartMatcher.VehicleType r). auto.
  - destruct H as (Hb & Hm & _). split; [exact Hb|]. split; [exact Hm | discriminate].
Qed.

Lemma searches_caches (catalog : option MotulCatalog) (calls : list Search) (st : Caches) :
  brandCache st ⊆ brandCache (snd (searches catalog calls st)) /\
  modelCache st ⊆ modelCache (snd (searches catalog calls st)).
Proof.
  revert st. induction calls as [|call rest IH]; intros st; [split; reflexivity|].
  cbn [searches].
  pose proof (SearchVehicle_caches catalog (llm call) st (searchBrand call)
                (searchModel call) (searchYear call)) as H.
  destruct (SearchVehicle catalog (llm call) st _ _ _) as [res st1].
  destruct H as (Hb & Hm & _). specialize (IH st1).
  destruct (searches catalog rest st1) as [others st2]. cbn [snd] in *.
  destruct IH as (Hb' & Hm'). split; etrans; eassumption.
Qed.

(** With the brand and the model in the caches and a type in the catalog,
    [SearchVehicle] succeeds without a look at the provider. *)
Lemma SearchVehicle_hit (catalog : option MotulCatalog) (g : GroqClient.Provider)
    (st : Caches) (brand model b mo : string) (year : Z) :
  brandCache st !! brand = Some b ->
  modelCache st !! cacheKey b model = Some mo ->
  GetVehicleTypes catalog b mo <> [] ->
  exists v, SearchVehicle catalog g st brand model year = (Ok v, st) /\
            Scraper.MotulBrand v = b /\ Scraper.MotulModel v = mo /\
            Scraper.MotulYear v = year.
Proof.
  intros Hb Hm Ht. unfold SearchVehicle, FindMatch, matchBrand. rewrite Hb.
  unfold matchModel. cbv zeta. rewrite Hm.
  pose proof (FindMatch_resolved catalog g b mo brand model model year) as H.
  destruct (SmartMatcher.FindMatch _ _ _ _ _) as [r|e]; [|contradiction].
  destruct H as (H1 & H2 & _). eexists. split; [reflexivity|]. cbn. auto.
Qed.

(** Once [SearchVehicle] has succeeded for a brand and a model, every later
    call for the same brand and model on the same matcher succeeds with the
    same Motul brand and model, for any year, after any calls in between and
    whatever the LLM answers then; the later call leaves the caches as they
    are. *)
Theorem SearchVehicle_repeats (catalog : option MotulCatalog) (g g' : GroqClient.Provider)
    (st : Caches) (brand model : string) (year year' : Z) (v : Scraper.MotulVehicle)
    (calls : list Search) :
  fst (SearchVehicle catalog g st brand model year) = Ok v ->
  let st1 := snd (SearchVehicle catalog g st brand model year) in
  let st2 := snd (searches catalog calls st1) in
  exists v',
    SearchVehicle catalog g' st2 brand model year' = (Ok v', st2) /\
    Scraper.MotulBrand v' = Scraper.MotulBrand v /\
    Scraper.MotulModel v' = Scraper.MotulModel v /\
    Scraper.MotulYear v' = year'.
Proof.
  intros Hv st1 st2. subst st1 st2.
  pose proof (SearchVehicle_caches catalog g st brand model year) as H.
  destruct (SearchVehicle catalog g st brand model year) as [res st1]. cbn [fst snd] in *.
  destruct H as (_ & _ & H). destruct (H v Hv) as (Hb & Hm & vt & Hin & _).
  destruct (searches_caches catalog calls st1) as (Hsb & Hsm).
  apply SearchVehicle_hit.
  - eapply lookup_weaken; eassumption.
  - eapply lookup_weaken; eassumption.
  - intros E. rewrite E in Hin. destruct Hin.
Qed.

Lemma SearchVehicle_repeats_witness :
  let catalog := buildIndexes (Some exampleCatalog) in
  let st1 := snd (SearchVehicle catalog GroqClient.zeroProvider NewSmartMatcher
                    "VW" "Gol 1.0 Flex" 2019) in
  let st2 := snd (searches catalog [golSearch] st1) in
  exists v',
    SearchVehicle catalog downProvider st2 "VW" "Gol 1.0 Flex" 2020 = (Ok v', st2) /\
    Scraper.MotulBrand v' = Scraper.MotulBrand golVehicle /\
    Scraper.MotulModel v' = Scraper.MotulModel golVehicle /\
    Scraper.MotulYear v' = 2020.
Proof.
  apply (SearchVehicle_repeats (buildIndexes (Some exampleCatalog)) GroqClient.zeroProvider
           downProvider NewSmartMatcher "VW" "Gol 1.0 Flex" 2019 2020 golVehicle
           [golSearch]).
  vm_compute. reflexivity.
Defined.

Lemma firstModel_Some (key : string) (models : list CatalogModel) (model : CatalogModel) :
  firstModel key models = Some model ->
  In model models /\ normalizeString (ModelName model) = key.
Proof.
  induction models as [|m rest IH]; [discriminate|]. cbn [firstModel].
  destruct (String.eqb_spec (normalizeString (ModelName m)) key) as [E|E].
  - intros [= <-]. split; [left; reflexivity | exact E].
  - intros H. destruct (IH H) as (Hin & Hn). split; [right; exact Hin | exact Hn].
Qed.

(** A type [GetVehicleTypes] lists is a type of a model of the brand
    found. *)
Lemma GetVehicleTypes_In (catalog : option MotulCatalog) (b mo : string)
    (vt : SmartMatcher.CatalogVehicleType) :
  In vt (GetVehicleTypes catalog b mo) ->
  exists brand model,
    FindBrand catalog b = Some brand /\ In model (Models brand) /\
    normalizeString (ModelName model) = normalizeString mo /\ In vt (Types model).
Proof.
  unfold GetVehicleTypes, FindBrand. destruct catalog as [cat|]; [|intros []].
  destruct (BrandMap cat !! normalizeString b) as [brand|]; [|intros []].
  rewrite typesOf_firstModel.
  destruct (firstModel (normalizeString mo) (Models brand)) as [model|] eqn:E; [|intros []].
  intros Hin. destruct (firstModel_Some _ _ _ E) as (Hm & Hn).
  exists brand, model. auto.
Qed.

Lemma FindBrand_indexed (c : MotulCatalog) (name : string) (brand : CatalogBrand) :
  FindBrand (buildIndexes (Some c)) name = Some brand ->
  In brand (Brands c) /\ normalizeString (BrandName brand) = normalizeString name.
Proof.
  unfold FindBrand, buildIndexes.
  pose proof (indexBrands_lookup (Brands c) ∅ ∅ (normalizeString name)) as H.
  destruct (indexBrands (Brands c) ∅ ∅) as [brandMap modelMap]. cbn [fst BrandMap] in *.
  rewrite H. destruct (lastBrand (normalizeString name) (Brands c)) as [b|] eqn:E.
  - intros [= <-]. destruct (lastBrand_Some _ _ _ E) as (before & after & Heq & Hn & _).
    split; [|exact Hn]. rewrite Heq. apply in_or_app. right. left. reflexivity.
  - rewrite lookup_empty. discriminate.
Qed.

Lemma modelLoop_listed (api : Api) (brand : Item) (models : list Item) (seen : gset string) :
  Forall (fun model =>
            exists item, In item models /\
              ModelId model = ItemID item /\ ModelName model = ItemName item /\
              Types model = match GetTypes api (ItemID item) with
                            | Err _ => []
                            | Ok types => map (catalogType brand item) types
                            end)
         (fst (modelLoop api brand models seen)).
Proof.
  revert seen. induction models as [|item rest IH]; intros seen; [constructor|].
  cbn [modelLoop]. destruct (decide (ItemID item ∈ seen)).
  - eapply Forall_impl; [|apply IH]. intros model (i & Hin & H). exists i.
    split; [right; exact Hin | exact H].
  - cbv zeta. specialize (IH ({[ItemID item]} ∪ seen)).
    destruct (modelLoop api brand rest ({[ItemID item]} ∪ seen)) as [added seen'].
    cbn [fst] in *. constructor.
    + exists item. split; [left; reflexivity|]. cbn. auto.
    + eapply Forall_impl; [|exact IH]. intros model (i & Hin & H). exists i.
      split; [right; exact Hin | exact H].
Qed.

Lemma yearLoop_listed (api : Api) (brand : Item) (years : list Z) (seen : gset string) :
  Forall (listed api brand years) (yearLoop api brand years seen).
Proof.
  revert seen. induction years as [|year rest IH]; intros seen; [constructor|].
  cbn [yearLoop]. destruct (GetModels api (ItemID brand) year) as [models|e] eqn:Eg.
  - pose proof (modelLoop_listed api brand models seen) as Hm.
    destruct (modelLoop api brand models seen) as [added seen']. cbn [fst] in Hm.
    apply Forall_app. split.
    + eapply Forall_impl; [|exact Hm]. intros model (item & Hin & H).
      exists year, models, item. split; [left; reflexivity|]. auto.
    + eapply Forall_impl; [|apply IH]. intros model (y & ms & item & Hy & H).
      exists y, ms, item. split; [right; exact Hy | exact H].
  - eapply Forall_impl; [|apply IH]. intros model (y & ms & item & Hy & H).
    exists y, ms, item. split; [right; exact Hy | exact H].
Qed.

Lemma brandLoop_listed (api : Api) (brands : list Item) (i : nat)
    (catalogBrands : list CatalogBrand) :
  brandLoop api i brands = Ok catalogBrands ->
  Forall (fun catalogBrand =>
            exists brand, In brand brands /\ BrandName catalogBrand = ItemName brand /\
              Forall (listed api brand yearsToTry) (Models catalogBrand))
         catalogBrands.
Proof.
  revert i catalogBrands. induction brands as [|brand rest IH]; intros i catalogBrands.
  - intros [= <-]. constructor.
  - cbn [brandLoop]. destruct (cancelled api i); [discriminate|]. cbv zeta.
    destruct (brandLoop api (S i) rest) as [others|e] eqn:E; [|discriminate].
    intros [= <-]. constructor.
    + exists brand. split; [left; reflexivity|]. split; [reflexivity|].
      exact (yearLoop_listed api brand yearsToTry ∅).
    + eapply Forall_impl; [|apply (IH _ _ E)]. intros cb (b & Hin & H). exists b.
      split; [right; exact Hin | exact H].
Qed.

(** With the catalog fetched from the advisor and indexed, whatever the
    caches hold and whatever the LLM answers, a vehicle [SearchVehicle]
    returns is one the advisor listed: its id and description are those of a
    type the advisor gave for a model of its list for one of the years
    tried, under a brand of its brand list, and the brand and model
    returned agree with the names of that brand and that model up to letter
    case and spaces. *)
Theorem SearchVehicle_from_advisor (api : Api) (c : MotulCatalog) (g : GroqClient.Provider)
    (st : Caches) (brand model : string) (year : Z) (v : Scraper.MotulVehicle) :
  fetchFromAPI api = Ok c ->
  fst (SearchVehicle (buildIndexes (Some c)) g st brand model year) = Ok v ->
  exists brands b y models m types t,
    GetBrands api = Ok brands /\ In b brands /\
    In y yearsToTry /\ GetModels api (ItemID b) y = Ok models /\ In m models /\
    GetTypes api (ItemID m) = Ok types /\ In t types /\
    Scraper.MotulID v = ItemID t /\ Scraper.MotulDescription v = ItemName t /\
    normalizeString (ItemName b) = normalizeString (Scraper.MotulBrand v) /\
    normalizeString (ItemName m) = normalizeString (Scraper.MotulModel v).
Proof.
  intros Hfetch Hv.
  pose proof (SearchVehicle_caches (buildIndexes (Some c)) g st brand model year) as H.
  destruct (SearchVehicle (buildIndexes (Some c)) g st brand model year) as [res st'].
  cbn [fst] in Hv. destruct H as (_ & _ & H).
  destruct (H v Hv) as (_ & _ & vt & Hin & Hid & Hdesc).
  destruct (GetVehicleTypes_In _ _ _ _ Hin) as (cb & cm & Hfb & Hcm & Hname & Hvt).
  destruct (FindBrand_indexed _ _ _ Hfb) as (Hcb & Hbn).
  unfold fetchFromAPI in Hfetch.
  destruct (GetBrands api) as [brands|e]; [|discriminate].
  destruct (brandLoop api 0 brands) as [cbs|e] eqn:E; [|discriminate].
  injection Hfetch as <-. cbn [Brands] in Hcb.
  pose proof (brandLoop_listed api brands 0 cbs E) as Hall.
  rewrite Forall_forall in Hall. destruct (Hall cb Hcb) as (b & Hb & Hbname & Hmodels).
  rewrite Forall_forall in Hmodels.
  destruct (Hmodels cm Hcm) as (y & models & m & Hy & Hg & Hm & _ & Hmname & Htypes).
  rewrite Htypes in Hvt.
  destruct (GetTypes api (ItemID m)) as [types|e] eqn:Egt; [|destruct Hvt].
  apply in_map_iff in Hvt as (t & <- & Ht).
  exists brands, b, y, models, m, types, t.
  split; [reflexivity|]. split; [exact Hb|]. split; [exact Hy|]. split; [exact Hg|].
  split; [exact Hm|]. split; [exact Egt|]. split; [exact Ht|].
  split; [exact Hid|]. split; [exact Hdesc|].
  split; congruence.
Qed.

Lemma SearchVehicle_from_advisor_witness :
  exists brands b y models m types t,
    GetBrands exampleApi = Ok brands /\ In b brands /\
    In y yearsToTry /\ GetModels exampleApi (ItemID b) y = Ok models /\ In m models /\
    GetTypes exampleApi (ItemID m) = Ok types /\ In t types /\
    Scraper.MotulID golVehicle = ItemID t /\ Scraper.MotulDescription golVehicle = ItemName t /\
    normalizeString (ItemName b) = normalizeString (Scraper.MotulBrand golVehicle) /\
    normalizeString (ItemName m) = normalizeString (Scraper.MotulModel golVehicle).
Proof.
  apply (SearchVehicle_from_advisor exampleApi exampleCatalog GroqClient.zeroProvider
           NewSmartMatcher "VW" "Gol 1.0 Flex" 2019 golVehicle);
    vm_compute; reflexivity.
Defined.

End SmartMatcherResolve.

(** ** More of internal/client/motul.go: when [fetchWithRetry] succeeds *)

Module MotulClientFacts.
Import MotulClient.

Lemma retryCause_continues (cfg : RetryConfig) (attempt : Z) (a : Attempt) :
  retryCause a -> attempt < MaxRetries cfg -> continues cfg attempt a = true.
Proof.
  destruct a as [e|e|e|e|st body]; simpl; try contradiction.
  - intros _ H. now apply Z.ltb_lt.
  - intros H Hlt. apply Z.ltb_lt in Hlt. rewrite Hlt, andb_true_r.
    destruct (Z.eqb_spec st 200) as [->|_]; [lia|]. simpl.
    apply orb_true_iff. rewrite Z.eqb_eq, Z.leb_le. exact H.
Qed.

Lemma verdict_Ok (attempt : Z) (a : Attempt) (body : string) :
  verdict attempt a = Ok body <-> a = Response 200 body.
Proof.
  destruct a as [e|e|e|e|st b]; simpl; try (split; discriminate).
  destruct (Z.eqb_spec st 200) as [->|Hne].
  - split; intros [= ->]; reflexivity.
  - split; [discriminate|]. intros [= -> _]. contradiction.
Qed.

Lemma retryLoop_Ok (cfg : RetryConfig) (env : Z -> Attempt) (fuel : nat)
    (attempt backoff : Z) (body : string) :
  Z.of_nat fuel = MaxRetries cfg + 1 - attempt ->
  outcome (retryLoop cfg env fuel attempt backoff) = Ok body <->
  exists k, attempt <= k <= MaxRetries cfg /\ env k = Response 200 body /\
            forall i, attempt <= i < k -> retryCause (env i).
Proof.
  revert attempt backoff. induction fuel as [|fuel IH]; intros attempt backoff Hf.
  - cbn. split; [discriminate|]. intros (k & Hk & _). lia.
  - rewrite retryLoop_S. destruct (continues cfg attempt (env attempt)) eqn:E.
    + destruct (continues_cause _ _ _ E) as [Hc Hlt]. cbn [retry outcome].
      rewrite (IH (attempt + 1) (nextBackoff cfg backoff)) by lia. split.
      * intros (k & Hk & He & Hall). exists k. split; [lia|]. split; [exact He|].
        intros i Hi. destruct (Z.eq_dec i attempt) as [->|Hne]; [exact Hc|].
        apply Hall. lia.
      * intros (k & Hk & He & Hall). exists k.
        assert (k <> attempt).
        { intros ->. rewrite He in Hc. simpl in Hc. lia. }
        split; [lia|]. split; [exact He|]. intros i Hi. apply Hall. lia.
    + cbn [stop outcome]. rewrite verdict_Ok. split.
      * intros He. exists attempt. split; [lia|]. split; [exact He|]. intros i Hi. lia.
      * intros (k & Hk & He & Hall). destruct (Z.eq_dec k attempt) as [->|Hne]; [exact He|].
        rewrite retryCause_continues in E; [discriminate | apply Hall; lia | lia].
Qed.

(** [fetchWithRetry] returns a body exactly when some attempt among the
    first [MaxRetries + 1] is answered with status 200 and that body, and
    every attempt before it ended in a transport error or in a status 429
    or of at least 500. *)
Theorem fetchWithRetry_succeeds_iff (cfg : RetryConfig) (env : Z -> Attempt)
    (body : string) :
  outcome (fetchWithRetry cfg env) = Ok body <->
  exists k, 0 <= k <= MaxRetries cfg /\ env k = Response 200 body /\
            forall i, 0 <= i < k -> retryCause (env i).
Proof.
  unfold fetchWithRetry. destruct (Z.le_gt_cases 0 (MaxRetries cfg + 1)) as [Hge|Hlt].
  - apply retryLoop_Ok. lia.
  - replace (Z.to_nat (MaxRetries cfg + 1)) with 0%nat by lia. cbn.
    split; [discriminate|]. intros (k & Hk & _). lia.
Qed.

End MotulClientFacts.

(** ** More of the failure repository: the other statements and how they
    compose *)

Module ScraperFalhaRepoFacts.
Import ScraperFalhaRepo.

(** The records of the table, in the order the table yields them. *)
Definition records (t : Table) : list ScraperFalha := map snd (map_to_list (rows t)).

Definition unresolved (f : ScraperFalha) : bool := negb (Resolvido f).

(** [CountPending]: SELECT COUNT over the unresolved records. *)
Definition CountPending (t : Table) : Z :=
  Z.of_nat (List.length (filter unresolved (records t))).

(** The GROUP BY of [GetStats]: one count per error type among the
    records. *)
Fixpoint groupCount (l : list ScraperFalha) : gmap string Z :=
  match l with
  | [] => ∅
  | f :: rest =>
      let counts := groupCount rest in
      <[TipoErro f := default 0 (counts !! TipoErro f) + 1]> counts
  end.

(** [GetStats]: the map built from the rows of the query. *)
Definition GetStats (t : Table) : gmap string Z :=
  groupCount (filter unresolved (records t)).

(** The WHERE clause of [DeleteResolved]; a null resolution time compares
    as unknown, and the record stays. *)
Definition deletable (cutoff : Z) (f : ScraperFalha) : bool :=
  Resolvido f && match ResolvidoEm f with
                 | Some at_ => at_ <? cutoff
                 | None => false
                 end.

(** [DeleteResolved]: the number of records deleted and the table left;
    [now] is the clock of the process and [olderThan] the duration. *)
Definition DeleteResolved (now olderThan : Z) (t : Table) : Z * Table :=
  let cutoff := now - olderThan in
  let kept := base.filter (fun kf => deletable cutoff (snd kf) = false) (rows t) in
  (Z.of_nat (size (rows t)) - Z.of_nat (size kept),
   {| rows := kept; nextID := nextID t |}).

(** The ORDER BY of [GetPendingRetries] holds between each record of a
    list and those after it. *)
Fixpoint ordered (l : list ScraperFalha) : Prop :=
  match l with
  | [] => True
  | f :: rest => Forall (fun g => before f g = true) rest /\ ordered rest
  end.

(** The key of the table is the vehicle id of the record (the UNIQUE
    column of the conflict clause). *)
Definition keyed (t : Table) : bool :=
  forallb (fun kf => CodigoAplicacao (snd kf) =? fst kf) (map_to_list (rows t)).

(** The sum of the counts of a statistics map. *)
Definition total (stats : gmap string Z) : Z :=
  map_fold (fun _ n acc => n + acc) 0 stats.

Lemma before_total (a b : ScraperFalha) : before a b = false -> before b a = true.
Proof.
  unfold before. destruct (ProximaTentativa a) as [pa|], (ProximaTentativa b) as [pb|];
    try discriminate; try reflexivity.
  - rewrite orb_false_iff, andb_false_iff, orb_true_iff, andb_true_iff.
    rewrite !Z.ltb_ge, !Z.ltb_lt, !Z.eqb_eq, !Z.eqb_neq, !Z.leb_le, Z.leb_gt. lia.
  - rewrite Z.leb_le, Z.leb_gt. lia.
Qed.

Lemma before_trans (a b c : ScraperFalha) :
  before a b = true -> before b c = true -> before a c = true.
Proof.
  unfold before.
  destruct (ProximaTentativa a) as [pa|], (ProximaTentativa b) as [pb|],
    (ProximaTentativa c) as [pc|]; try discriminate; try reflexivity.
  - rewrite !orb_true_iff, !andb_true_iff, !Z.ltb_lt, !Z.eqb_eq, !Z.leb_le. lia.
  - rewrite !Z.leb_le. lia.
Qed.

Lemma insertSorted_perm (f : ScraperFalha) (l : list ScraperFalha) :
  Permutation (insertSorted f l) (f :: l).
Proof.
  induction l as [|g rest IH]; [reflexivity|]. cbn [insertSorted].
  destruct (before f g); [reflexivity|].
  rewrite IH. apply perm_swap.
Qed.

Lemma orderBy_perm (l : list ScraperFalha) : Permutation (orderBy l) l.
Proof.
  induction l as [|f rest IH]; [reflexivity|].
  unfold orderBy in *. cbn [fold_right]. rewrite insertSorted_perm, IH. reflexivity.
Qed.

Lemma insertSorted_ordered (f : ScraperFalha) (l : list ScraperFalha) :
  ordered l -> ordered (insertSorted f l).
Proof.
  induction l as [|g rest IH]; intros Hs.
  - cbn. split; [constructor | exact I].
  - cbn [insertSorted]. destruct Hs as [Hg Hrest].
    destruct (before f g) eqn:E.
    + split; [|split; assumption].
      constructor; [exact E|].
      eapply Forall_impl; [|exact Hg]. intros x Hx. eapply before_trans; eassumption.
    + split; [|apply IH, Hrest].
      rewrite (insertSorted_perm f rest). constructor; [apply before_total, E | exact Hg].
Qed.

Lemma orderBy_ordered (l : list ScraperFalha) : ordered (orderBy l).
Proof.
  induction l as [|f rest IH]; [exact I|].
  unfold orderBy in *. cbn [fold_right]. apply insertSorted_ordered, IH.
Qed.

Lemma firstn_ordered (n : nat) (l : list ScraperFalha) : ordered l -> ordered (firstn n l).
Proof.
  revert n. induction l as [|f rest IH]; intros n Hs.
  - rewrite firstn_nil. exact I.
  - destruct n as [|n]; [exact I|]. cbn [firstn].
    destruct Hs as [Hf Hrest]. split; [|apply IH, Hrest].
    rewrite Forall_forall in *. intros x Hx. apply Hf.
    rewrite <- (firstn_skipn n rest). apply in_or_app. left. exact Hx.
Qed.

Lemma records_In (t : Table) (f : ScraperFalha) :
  In f (records t) <-> exists id, rows t !! id = Some f.
Proof.
  unfold records. rewrite in_map_iff. split.
  - intros ([id f'] & <- & Hin). exists id.
    apply list_elem_of_In, elem_of_map_to_list in Hin. exact Hin.
  - intros (id & H). exists (id, f). split; [reflexivity|].
    apply list_elem_of_In, elem_of_map_to_list. exact H.
Qed.

Lemma GetPendingRetries_rows (dbNow : Z) (t : Table) (limit : Z) (falhas : list ScraperFalha) :
  GetPendingRetries dbNow t limit = Ok falhas ->
  Forall (fun f => (exists id, rows t !! id = Some f) /\ pending dbNow f = true) falhas.
Proof.
  unfold GetPendingRetries. fold (records t).
  destruct (limit <? 0); [intros [= <-]; constructor|]. intros [= <-].
  rewrite Forall_forall. intros f Hin.
  assert (Hsel : In f (filter (pending dbNow) (records t))).
  { apply (Permutation_in f (orderBy_perm _)).
    rewrite <- (firstn_skipn (Z.to_nat limit) (orderBy _)).
    apply in_or_app. left. exact Hin. }
  apply filter_In in Hsel as [Hrec Hp]. split; [apply records_In, Hrec | exact Hp].
Qed.

Lemma pending_true (dbNow : Z) (f : ScraperFalha) :
  pending dbNow f = true <->
  Resolvido f = false /\
  match ProximaTentativa f with
  | None => True
  | Some at_ => at_ <= dbNow
  end.
Proof.
  unfold pending. rewrite andb_true_iff, negb_true_iff.
  destruct (ProximaTentativa f); [rewrite Z.leb_le|]; tauto.
Qed.

(** What [GetPendingRetries] returns, with the database reachable. It
    never fails. On a negative limit it returns no record. Otherwise it
    returns at most [limit] records of the table, each unresolved and with a
    next-attempt time that is null or not after the database clock, sorted
    by next-attempt time with the nulls last and by attempts among equal
    times; and when it returns fewer than [limit] records, it returns every
    such record of the table. *)
Theorem GetPendingRetries_selection (dbNow : Z) (t : Table) (limit : Z) :
  exists falhas,
    GetPendingRetries dbNow t limit = Ok falhas /\
    (limit < 0 -> falhas = []) /\
    Z.of_nat (List.length falhas) <= Z.max 0 limit /\
    Forall (fun f => (exists id, rows t !! id = Some f) /\ Resolvido f = false /\
                     match ProximaTentativa f with
                     | None => True
                     | Some at_ => at_ <= dbNow
                     end) falhas /\
    ordered falhas /\
    (Z.of_nat (List.length falhas) < limit ->
     forall id f, rows t !! id = Some f -> pending dbNow f = true -> In f falhas).
Proof.
  destruct (GetPendingRetries dbNow t limit) as [falhas|e] eqn:Hq.
  2: { unfold GetPendingRetries in Hq. destruct (limit <? 0); discriminate. }
  exists falhas. split; [reflexivity|].
  pose proof (GetPendingRetries_rows dbNow t limit falhas Hq) as Hrows.
  unfold GetPendingRetries in Hq. fold (records t) in Hq.
  destruct (Z.ltb_spec limit 0) as [Hneg|Hpos]; injection Hq as <-.
  - split; [reflexivity|]. split; [cbn; lia|]. split; [constructor|].
    split; [exact I|]. cbn. lia.
  - set (selected := filter (pending dbNow) (records t)) in *.
    split; [lia|]. split; [rewrite length_firstn; lia|]. split; [|split].
    + eapply Forall_impl; [|exact Hrows].
      intros f (Hrow & Hp). apply pending_true in Hp. tauto.
    + apply firstn_ordered, orderBy_ordered.
    + intros Hlt id f Hrow Hp.
      rewrite firstn_all2.
      * apply (Permutation_in f (Permutation_sym (orderBy_perm selected))).
        apply filter_In. split; [apply records_In; exists id; exact Hrow | exact Hp].
      * rewrite length_firstn in Hlt. lia.
Qed.

Lemma MarkResolved_lookup (dbNow : Z) (t : Table) (id other : Z) :
  other <> id -> rows (MarkResolved dbNow t id) !! other = rows t !! other.
Proof.
  intros Hne. unfold MarkResolved. destruct (rows t !! id); [|reflexivity].
  cbn [rows]. apply lookup_insert_ne. congruence.
Qed.

(** [MarkResolved] on a vehicle without a failure record changes nothing.
    On a vehicle with a record it sets the resolved flag and the resolution
    time and nothing else, leaves the other records alone, and from then on
    [GetPendingRetries] does not return a record of that vehicle, whatever
    the time and the limit. *)
Theorem MarkResolved_hides_record (dbNow : Z) (t : Table) (id : Z) :
  keyed t = true ->
  match rows t !! id with
  | None => MarkResolved dbNow t id = t
  | Some old =>
      exists row,
        rows (MarkResolved dbNow t id) !! id = Some row /\
        Resolvido row = true /\ ResolvidoEm row = Some dbNow /\
        Tentativas row = Tentativas old /\ TipoErro row = TipoErro old /\
        ProximaTentativa row = ProximaTentativa old
  end /\
  (forall other, other <> id -> rows (MarkResolved dbNow t id) !! other = rows t !! other) /\
  (forall later limit falhas,
     GetPendingRetries later (MarkResolved dbNow t id) limit = Ok falhas ->
     Forall (fun f => CodigoAplicacao f <> id) falhas).
Proof.
  intros Hkeyed. unfold keyed in Hkeyed. rewrite forallb_forall in Hkeyed.
  split; [|split].
  - unfold MarkResolved. destruct (rows t !! id) as [old|]; [|reflexivity].
    eexists. split; [apply lookup_insert_eq|]. cbn. auto.
  - intros other Hne. apply MarkResolved_lookup, Hne.
  - intros later limit falhas Hq.
    pose proof (GetPendingRetries_rows later (MarkResolved dbNow t id) limit falhas Hq)
      as Hsel.
    rewrite Forall_forall in *. intros f Hin Hid.
    destruct (Hsel f Hin) as ((k & Hk) & Hres). apply pending_true in Hres as [Hres _].
    destruct (Z.eq_dec k id) as [->|Hne].
    + unfold MarkResolved in Hk. destruct (rows t !! id) as [old|] eqn:E.
      * cbn [rows] in Hk. rewrite lookup_insert_eq in Hk. injection Hk as <-.
        discriminate.
      * rewrite E in Hk. discriminate.
    + rewrite MarkResolved_lookup in Hk by exact Hne.
      apply elem_of_map_to_list, list_elem_of_In, Hkeyed, Z.eqb_eq in Hk.
      cbn [fst snd] in Hk. congruence.
Qed.

Lemma MarkResolved_hides_record_witness :
  match rows afterSecond !! 7 with
  | None => MarkResolved 9000 afterSecond 7 = afterSecond
  | Some old =>
      exists row,
        rows (MarkResolved 9000 afterSecond 7) !! 7 = Some row /\
        Resolvido row = true /\ ResolvidoEm row = Some 9000 /\
        Tentativas row = Tentativas old /\ TipoErro row = TipoErro old /\
        ProximaTentativa row = ProximaTentativa old
  end /\
  (forall other, other <> 7 ->
     rows (MarkResolved 9000 afterSecond 7) !! other = rows afterSecond !! other) /\
  (forall later limit falhas,
     GetPendingRetries later (MarkResolved 9000 afterSecond 7) limit = Ok falhas ->
     Forall (fun f => CodigoAplicacao f <> 7) falhas).
Proof.
  apply (MarkResolved_hides_record 9000 afterSecond 7). vm_compute. reflexivity.
Defined.

Lemma total_insert (key : string) (n : Z) (stats : gmap string Z) :
  total (<[key := n]> stats) = n + total stats - default 0 (stats !! key).
Proof.
  assert (Hcomm : forall (m : gmap string Z) (j1 j2 : string) (z1 z2 y : Z),
            j1 <> j2 -> m !! j1 = Some z1 -> m !! j2 = Some z2 ->
            z1 + (z2 + y) = z2 + (z1 + y)) by (intros; lia).
  unfold total. destruct (stats !! key) as [old|] eqn:E.
  - rewrite <- insert_delete_eq.
    rewrite map_fold_insert_L; [|apply Hcomm | apply lookup_delete_eq].
    rewrite (map_fold_delete_L _ _ key old stats); [|apply Hcomm | exact E].
    cbn. lia.
  - rewrite map_fold_insert_L; [|apply Hcomm | exact E]. cbn. lia.
Qed.

Lemma groupCount_total (l : list ScraperFalha) :
  total (groupCount l) = Z.of_nat (List.length l).
Proof.
  induction l as [|f rest IH]; [reflexivity|].
  cbn [groupCount List.length]. rewrite total_insert, IH. lia.
Qed.

Lemma groupCount_lookup (l : list ScraperFalha) (tipo : string) :
  default 0 (groupCount l !! tipo)
  = Z.of_nat (List.length (filter (fun f => String.eqb (TipoErro f) tipo) l)) /\
  (groupCount l !! tipo = None <-> Forall (fun f => TipoErro f <> tipo) l).
Proof.
  induction l as [|f rest (IH1 & IH2)].
  - cbn. rewrite lookup_empty. split; [reflexivity|]. split; [constructor | reflexivity].
  - cbn [groupCount filter]. destruct (String.eqb_spec (TipoErro f) tipo) as [E|E].
    + rewrite E, lookup_insert_eq. split; [rewrite IH1; cbn; lia|].
      split; [discriminate|]. intros H. inversion H; subst. contradiction.
    + rewrite lookup_insert_ne by exact E. split; [exact IH1|].
      rewrite IH2. split; [intros H; constructor; assumption|].
      intros H. inversion H; assumption.
Qed.

(** [GetStats] and [CountPending] agree: the counts of the statistics add
    up to the number of unresolved records. The statistics hold an error
    type exactly when some unresolved record has it, with the number of
    such records, which is at least one. *)
Theorem GetStats_adds_up (t : Table) :
  total (GetStats t) = CountPending t /\
  (forall tipo,
     GetStats t !! tipo = None <->
     forall id f, rows t !! id = Some f -> Resolvido f = false -> TipoErro f <> tipo) /\
  (forall tipo n,
     GetStats t !! tipo = Some n ->
     1 <= n /\
     n = Z.of_nat (List.length (filter (fun f => unresolved f && String.eqb (TipoErro f) tipo)
                                  (records t)))).
Proof.
  unfold GetStats, CountPending. split; [apply groupCount_total|]. split.
  - intros tipo. destruct (groupCount_lookup (filter unresolved (records t)) tipo) as [_ ->].
    rewrite Forall_forall. split.
    + intros H id f Hrow Hres. apply H, filter_In. split.
      * apply records_In. exists id. exact Hrow.
      * unfold unresolved. rewrite Hres. reflexivity.
    + intros H f Hin. apply filter_In in Hin as [Hrec Hun].
      apply records_In in Hrec as [id Hrow]. apply (H id f Hrow).
      unfold unresolved in Hun. destruct (Resolvido f); [discriminate | reflexivity].
  - intros tipo n Hn.
    destruct (groupCount_lookup (filter unresolved (records t)) tipo) as [Hc Hnone].
    rewrite Hn in Hc. cbn [default] in Hc.
    assert (Hlen : List.length (filter (fun f => String.eqb (TipoErro f) tipo)
                                  (filter unresolved (records t)))
                   = List.length (filter (fun f => unresolved f && String.eqb (TipoErro f) tipo)
                                    (records t))).
    { clear. induction (records t) as [|f rest IH]; [reflexivity|]. cbn [filter].
      destruct (unresolved f); cbn [filter andb]; [|exact IH].
      destruct (String.eqb (TipoErro f) tipo); cbn [List.length]; [f_equal|]; exact IH. }
    rewrite <- Hlen.
    remember (filter (fun f => String.eqb (TipoErro f) tipo)
                (filter unresolved (records t))) as matching eqn:Ek.
    split; [|exact Hc].
    destruct matching as [|f0 rest]; [|cbn [List.length] in Hc; unfold id in Hc; lia].
    exfalso.
    assert (Habs : groupCount (filter unresolved (records t)) !! tipo = None).
    { apply Hnone. rewrite Forall_forall. intros f Hin Htipo.
      assert (Hf : In f []).
      { rewrite Ek. apply filter_In. split; [exact Hin|]. apply String.eqb_eq, Htipo. }
      destruct Hf. }
    rewrite Habs in Hn. discriminate.
Qed.

Lemma filter_length_perm (Q : ScraperFalha -> bool) (l l' : list ScraperFalha) :
  Permutation l l' -> List.length (filter Q l) = List.length (filter Q l').
Proof.
  induction 1 as [|x l l' _ IH|x y l|l l' l'' _ IH1 _ IH2]; cbn [filter].
  - reflexivity.
  - destruct (Q x); cbn [List.length]; congruence.
  - destruct (Q x), (Q y); reflexivity.
  - congruence.
Qed.

Lemma records_insert (rs : gmap Z ScraperFalha) (id : Z) (f : ScraperFalha) :
  rs !! id = None ->
  Permutation (map snd (map_to_list (<[id := f]> rs))) (f :: map snd (map_to_list rs)).
Proof.
  intros H. change (f :: map snd (map_to_list rs))
    with (map snd ((id, f) :: map_to_list rs)).
  apply Permutation_map, map_to_list_insert, H.
Qed.

Lemma filter_keeps_count (Q : ScraperFalha -> bool) (P : Z * ScraperFalha -> Prop)
    `{!forall kf, Decision (P kf)} (rs : gmap Z ScraperFalha) :
  (forall id f, Q f = true -> P (id, f)) ->
  List.length (filter Q (map snd (map_to_list (base.filter P rs))))
  = List.length (filter Q (map snd (map_to_list rs))).
Proof.
  intros HQ. induction rs as [|id f rs Hnone IH] using map_ind.
  - rewrite map_filter_empty. reflexivity.
  - rewrite (filter_length_perm Q _ _ (records_insert rs id f Hnone)).
    destruct (decide (P (id, f))) as [Hp|Hp].
    + rewrite map_filter_insert_True by exact Hp.
      rewrite (filter_length_perm Q _ _
                 (records_insert (base.filter P rs) id f
                    ltac:(apply map_lookup_filter_None; left; exact Hnone))).
      cbn [filter]. destruct (Q f); cbn [List.length]; congruence.
    + rewrite map_filter_insert_not' by (try exact Hp; intros y Hy; congruence).
      cbn [filter]. destruct (Q f) eqn:Eq; [|exact IH].
      exfalso. apply Hp, HQ, Eq.
Qed.

(** [DeleteResolved] never touches an unresolved record: every unresolved
    record is still there afterwards and [CountPending] is unchanged. The
    table only shrinks, and every record that is gone was resolved with a
    resolution time before [now - olderThan]; the number returned is the
    number of records gone. *)
Theorem DeleteResolved_keeps_unresolved (now olderThan : Z) (t : Table) :
  let '(deleted, t') := DeleteResolved now olderThan t in
  (forall id f, rows t !! id = Some f -> Resolvido f = false -> rows t' !! id = Some f) /\
  CountPending t' = CountPending t /\
  rows t' ⊆ rows t /\
  (forall id f, rows t !! id = Some f -> rows t' !! id = None ->
     Resolvido f = true /\ exists at_, ResolvidoEm f = Some at_ /\ at_ < now - olderThan) /\
  deleted = Z.of_nat (size (rows t)) - Z.of_nat (size (rows t')) /\ 0 <= deleted.
Proof.
  unfold DeleteResolved. cbv zeta. cbn [rows].
  set (cutoff := now - olderThan).
  assert (Hun : forall f, Resolvido f = false -> deletable cutoff f = false).
  { intros f Hf. unfold deletable. rewrite Hf. reflexivity. }
  split; [|split; [|split; [|split; [|split]]]].
  - intros id f Hrow Hres. apply map_lookup_filter_Some. split; [exact Hrow|].
    cbn. apply Hun, Hres.
  - unfold CountPending, records. cbn [rows]. f_equal.
    apply filter_keeps_count. intros id f Hq. cbn. apply Hun.
    unfold unresolved in Hq. destruct (Resolvido f); [discriminate | reflexivity].
  - apply map_filter_subseteq.
  - intros id f Hrow Hgone. apply map_lookup_filter_None in Hgone as [Hgone|Hgone];
      [congruence|].
    specialize (Hgone f Hrow). cbn in Hgone.
    unfold deletable in Hgone. destruct (Resolvido f); [|contradiction Hgone; reflexivity].
    split; [reflexivity|]. destruct (ResolvidoEm f) as [at_|];
      [|contradiction Hgone; reflexivity].
    exists at_. split; [reflexivity|]. cbn in Hgone.
    destruct (Z.ltb_spec at_ cutoff); [assumption | contradiction Hgone; reflexivity].
  - reflexivity.
  - pose proof (map_size_filter (fun kf : Z * ScraperFalha => deletable cutoff (snd kf) = false)
                  (rows t)). lia.
Qed.

End ScraperFalhaRepoFacts.

(** ** More of internal/scraper/service.go: what [processVehicle] calls and
    how the workers' updates add up *)

Module ScraperPipelineFacts.
Import Model Scraper.

(** A call that changes a store. *)
Definition isWrite (c : Call) : bool :=
  match c with
  | CallInsert _ | CallUpsert _ _ _ | CallMarkResolved _ => true
  | _ => false
  end.

(** A call to the advisor. *)
Definition isRemote (c : Call) : bool :=
  match c with
  | CallSearchVehicle _ _ _ | CallGetSpecifications _ => true
  | _ => false
  end.

(** The call concerns the vehicle [id] and carries what the pipeline puts
    in it. *)
Definition aboutVehicle (id : Z) (c : Call) : Prop :=
  match c with
  | CallExistsForVehicle i => i = id
  | CallMarkResolved i => i = id
  | CallUpsert i tipoErro mensagemErro => i = id /\ tipoErro = ClassifyError mensagemErro
  | CallInsert spec =>
      EspecCodigoAplicacao spec = id /\ Fonte spec = "motul" /\
      (MatchConfidence spec = Some 0.95%float \/ MatchConfidence spec = Some 0.85%float)
  | CallSearchVehicle _ _ _ => True
  | CallGetSpecifications _ => True
  end.

(** The updates of the tracker, each one atomic under the tracker's
    mutex. *)
Inductive Update :=
| UpdCurrentVehicle (vehicle : string)
| UpdProcessed
| UpdSuccess
| UpdFailed (err : string)
| UpdSkipped
| UpdExactMatch
| UpdFuzzyMatch
| UpdNoMatch
| UpdRequests.

Definition applyUpdate (p : ProgressTracker) (u : Update) : ProgressTracker :=
  match u with
  | UpdCurrentVehicle vehicle => SetCurrentVehicle vehicle p
  | UpdProcessed => IncrementProcessed p
  | UpdSuccess => IncrementSuccess p
  | UpdFailed err => IncrementFailed err p
  | UpdSkipped => IncrementSkipped p
  | UpdExactMatch => IncrementExactMatch p
  | UpdFuzzyMatch => IncrementFuzzyMatch p
  | UpdNoMatch => IncrementNoMatch p
  | UpdRequests => IncrementRequests p
  end.

Definition applyUpdates (p : ProgressTracker) (us : list Update) : ProgressTracker :=
  fold_left applyUpdate us p.

(** The updates one call of [processVehicle] makes, in program order. *)
Definition updates (removeAccents : string -> string) (s : ScraperService)
    (vehicle : Aplicacao) : list Update :=
  let id := CodigoAplicacao vehicle in
  let start := [UpdCurrentVehicle (DescricaoAplicacao vehicle); UpdProcessed] in
  let parsed := parseVehicleDescription removeAccents vehicle in
  let commercial :=
    match parsed with
    | Ok (brand, modelName, _) =>
        isCommercialVehicle brand modelName (DescricaoAplicacao vehicle)
    | Err _ => false
    end in
  if commercial then (start ++ [UpdSkipped])%list
  else
  let existing :=
    match specRepo s with
    | None => false
    | Some repo => match ExistsForVehicle repo id with Ok true => true | _ => false end
    end in
  if existing then (start ++ [UpdSkipped])%list
  else
  match parsed with
  | Err _ => (start ++ [UpdSkipped])%list
  | Ok (brand, modelName, year) =>
  if DryRun s then (start ++ [UpdSuccess])%list
  else
  match SearchVehicle (motulClient s) brand modelName year with
  | Err e => (start ++ [UpdRequests; UpdFailed e])%list
  | Ok None => (start ++ [UpdRequests; UpdNoMatch])%list
  | Ok (Some motulVehicle) =>
  let matched :=
    if isExactMatch removeAccents vehicle motulVehicle then UpdExactMatch
    else UpdFuzzyMatch in
  match GetSpecifications (motulClient s) (MotulID motulVehicle) with
  | Err e => (start ++ [UpdRequests; matched; UpdFailed "specs_fetch_error"])%list
  | Ok [] => (start ++ [UpdRequests; matched; UpdNoMatch])%list
  | Ok _ => (start ++ [UpdRequests; matched; UpdSuccess])%list
  end end end.

(** One vehicle taken from the queue by some worker, with the service as
    it answers for that vehicle. *)
Record Job := { service : ScraperService; vehicle : Aplicacao }.

Definition count (f : Update -> bool) (us : list Update) : Z :=
  Z.of_nat (List.length (filter f us)).

Definition isProcessed (u : Update) : bool :=
  match u with UpdProcessed => true | _ => false end.
Definition isSuccess (u : Update) : bool :=
  match u with UpdSuccess => true | _ => false end.
Definition isFailed (u : Update) : bool :=
  match u with UpdFailed _ => true | _ => false end.
Definition isSkipped (u : Update) : bool :=
  match u with UpdSkipped => true | _ => false end.
Definition isNoMatch (u : Update) : bool :=
  match u with UpdNoMatch => true | _ => false end.
Definition isOutcome (u : Update) : bool :=
  isSuccess u || isFailed u || isSkipped u || isNoMatch u.

(** A vehicle as [GetAllVehicles] scans it: the description column goes to
    [Modelo], and [DescricaoAplicacao] stays empty. *)
Definition golFromDatabase : Aplicacao :=
  {| CodigoAplicacao := 11; CodigoFabricante := 4; Marca := ""; DescricaoAplicacao := "";
     DescricaoCompleta := ""; Motor := "1.0"; Periodo := "2019 -->"; Ano := "";
     Fabricante := "Volkswagen"; Modelo := "Gol 1.0 Flex" |}.

(** A service whose advisor finds the vehicle and one specification, and
    whose store accepts it. *)
Definition findingService : ScraperService :=
  {| DryRun := false;
     specRepo := Some {| Insert := fun _ _ => None; ExistsForVehicle := fun _ => Ok false |};
     falhaRepo := Some {| Upsert := fun _ _ _ => None; MarkResolved := fun _ => None |};
     motulClient :=
       {| SearchVehicle := fun _ _ year =>
            Ok (Some {| MotulID := "157067"; MotulBrand := "Volkswagen"; MotulModel := "Gol";
                        MotulYear := year; MotulDescription := "Gol 1.0";
                        MotorType := "single" |});
          GetSpecifications := fun _ =>
            Ok [ {| MotulAdapter.TipoFluido := "Óleo do Motor";
                    MotulAdapter.Viscosidade := "5W-30"; MotulAdapter.Capacidade := "3.5 L";
                    MotulAdapter.Norma := ""; MotulAdapter.Recomendacao := "8100 ECO" |} ]
       |} |}.

Lemma saveLoop_calls (repo : EspecificacaoRepository) (vehicle : Aplicacao)
    (motulVehicle : MotulVehicle) (confidence : float) (i : nat)
    (specs : list MotulAdapter.OilSpecification) :
  let '(calls, savedCount) := saveLoop repo vehicle motulVehicle confidence i specs in
  Forall (fun c => exists spec, c = CallInsert spec /\
                     EspecCodigoAplicacao spec = CodigoAplicacao vehicle /\
                     Fonte spec = "motul" /\ MatchConfidence spec = Some confidence) calls /\
  List.length calls = List.length specs /\
  0 <= savedCount <= Z.of_nat (List.length specs) /\
  (0 < savedCount ->
   exists j spec, In (CallInsert spec) calls /\ Insert repo j spec = None).
Proof.
  revert i. induction specs as [|spec rest IH]; intros i.
  - cbn. split; [constructor|]. split; [reflexivity|]. split; lia.
  - cbn [saveLoop]. cbv zeta. specialize (IH (S i)).
    destruct (saveLoop repo vehicle motulVehicle confidence (S i) rest) as [calls n].
    destruct IH as (Hall & Hlen & Hn & Hsaved).
    set (e := {| EspecCodigoAplicacao := CodigoAplicacao vehicle |}) in *.
    assert (He : exists spec0, CallInsert e = CallInsert spec0 /\
                   EspecCodigoAplicacao spec0 = CodigoAplicacao vehicle /\
                   Fonte spec0 = "motul" /\ MatchConfidence spec0 = Some confidence).
    { exists e. repeat split. }
    destruct (Insert repo i e) as [err|] eqn:Ei.
    + split; [constructor; assumption|]. cbn [List.length].
      split; [congruence|]. split; [lia|].
      intros Hpos. destruct (Hsaved Hpos) as (j & sp & Hin & Hj).
      exists j, sp. split; [right; exact Hin | exact Hj].
    + split; [constructor; assumption|]. cbn [List.length].
      split; [congruence|]. split; [lia|].
      intros _. exists i, e. split; [left; reflexivity | exact Ei].
Qed.

Lemma Forall_app_intro {A} (P : A -> Prop) (l1 l2 : list A) :
  Forall P l1 -> Forall P l2 -> Forall P (l1 ++ l2).
Proof. intros H1 H2. apply Forall_app. split; assumption. Qed.

(** What [processVehicle] sends out. Every call that names a vehicle names
    this one; an inserted specification has the source "motul" and the
    confidence 0.95 or 0.85; a failure is recorded with the type
    [ClassifyError] gives its message, and only when the vehicle is counted
    as failed. In a dry run nothing is written and the advisor is not
    called. A failure is marked resolved only when the vehicle is counted
    as a success and the store accepted at least one specification. *)
Theorem processVehicle_calls (removeAccents : string -> string) (s : ScraperService)
    (vehicle : Aplicacao) (p : ProgressTracker) :
  let '(p', calls) := processVehicle removeAccents s vehicle p in
  Forall (aboutVehicle (CodigoAplicacao vehicle)) calls /\
  (DryRun s = true -> Forall (fun c => isWrite c = false /\ isRemote c = false) calls) /\
  (forall id tipoErro mensagemErro,
     In (CallUpsert id tipoErro mensagemErro) calls ->
     Failed p' = incr (Failed p) /\ Success p' = Success p) /\
  (forall id,
     In (CallMarkResolved id) calls ->
     Success p' = incr (Success p) /\ Failed p' = Failed p /\
     exists repo j spec,
       specRepo s = Some repo /\ In (CallInsert spec) calls /\ Insert repo j spec = None).
Proof.
  unfold processVehicle. cbv zeta.
  set (id := CodigoAplicacao vehicle).
  destruct (match parseVehicleDescription removeAccents vehicle with
            | Ok (brand, modelName, _) =>
                isCommercialVehicle brand modelName (DescricaoAplicacao vehicle)
            | Err _ => false
            end).
  { split; [constructor|]. split; [constructor|]. split; intros ? *; intros []. }
  assert (Hfirst : forall calls1 : list Call,
            (calls1 = [] \/ calls1 = [CallExistsForVehicle id]) ->
            Forall (aboutVehicle id) calls1 /\
            Forall (fun c => isWrite c = false /\ isRemote c = false) calls1 /\
            (forall c, In c calls1 -> c = CallExistsForVehicle id)).
  { intros calls1 [->| ->].
    - split; [constructor|]. split; [constructor|]. intros c [].
    - split; [repeat constructor|]. split; [repeat constructor|].
      intros c [<-|[]]. reflexivity. }
  destruct (match specRepo s with
            | None => (false, [])
            | Some repo =>
                (match ExistsForVehicle repo id with Ok true => true | _ => false end,
                 [CallExistsForVehicle id])
            end) as [existing calls1] eqn:E1.
  assert (H1 : calls1 = [] \/ calls1 = [CallExistsForVehicle id]).
  { destruct (specRepo s); injection E1 as _ <-; auto. }
  destruct (Hfirst calls1 H1) as (Ha1 & Hw1 & Hc1). clear Hfirst.
  assert (Hquiet : forall p1 : ProgressTracker,
            Forall (aboutVehicle id) calls1 /\
            (DryRun s = true ->
             Forall (fun c => isWrite c = false /\ isRemote c = false) calls1) /\
            (forall i t m, In (CallUpsert i t m) calls1 ->
               Failed p1 = incr (Failed p) /\ Success p1 = Success p) /\
            (forall i, In (CallMarkResolved i) calls1 ->
               Success p1 = incr (Success p) /\ Failed p1 = Failed p /\
               exists repo j spec,
                 specRepo s = Some repo /\ In (CallInsert spec) calls1 /\
                 Insert repo j spec = None)).
  { intros p1. split; [exact Ha1|]. split; [intros _; exact Hw1|].
    split; intros ? *; intros Hin; apply Hc1 in Hin; discriminate. }
  destruct existing; [apply Hquiet|].
  destruct (parseVehicleDescription removeAccents vehicle) as [[[brand modelName] year]|e];
    [|apply Hquiet].
  destruct (DryRun s) eqn:Edry; [apply Hquiet|]. clear Hquiet.
  assert (Hfail : forall msg,
            Forall (aboutVehicle id) (saveFailure s id msg) /\
            (forall c, In c (saveFailure s id msg) ->
               c = CallUpsert id (ClassifyError msg) msg)).
  { intros msg. unfold saveFailure. destruct (falhaRepo s).
    - split; [repeat constructor|]. intros c [<-|[]]. reflexivity.
    - split; [constructor|]. intros c []. }
  set (search := CallSearchVehicle brand modelName year).
  destruct (SearchVehicle (motulClient s) brand modelName year) as [[mv|]|e].
  - set (specsCall := CallGetSpecifications (MotulID mv)).
    assert (Hpre : Forall (aboutVehicle id) ((calls1 ++ [search]) ++ [specsCall])).
    { repeat apply Forall_app_intro; try assumption; repeat constructor. }
    assert (Hprec : forall c, In c ((calls1 ++ [search]) ++ [specsCall]) ->
              c = CallExistsForVehicle id \/ c = search \/ c = specsCall).
    { intros c Hin. apply in_app_or in Hin as [Hin|[<-|[]]]; [|auto].
      apply in_app_or in Hin as [Hin|[<-|[]]]; [|auto]. left. apply Hc1, Hin. }
    destruct (GetSpecifications (motulClient s) (MotulID mv)) as [[|spec specs]|e].
    + split; [exact Hpre|]. split; [discriminate|].
      split; intros ? *; intros Hin; apply Hprec in Hin as [H|[H|H]]; discriminate.
    + destruct (specRepo s) as [repo|] eqn:Erepo.
      * pose proof (saveLoop_calls repo vehicle mv
                      (if isExactMatch removeAccents vehicle mv then 0.95%float
                       else 0.85%float) 0 (spec :: specs)) as Hsave.
        destruct (saveLoop repo vehicle mv _ 0 (spec :: specs)) as [calls n].
        destruct Hsave as (Hall & _ & _ & Hsaved).
        assert (Hins : Forall (aboutVehicle id) calls).
        { eapply Forall_impl; [|exact Hall]. intros c (sp & -> & H2 & H3 & H4).
          cbn. split; [exact H2|]. split; [exact H3|].
          destruct (isExactMatch removeAccents vehicle mv); auto. }
        assert (Hinsc : forall c, In c calls -> exists sp, c = CallInsert sp).
        { rewrite Forall_forall in Hall. intros c Hin.
          destruct (Hall c Hin) as (sp & -> & _). eauto. }
        destruct (Z.ltb_spec 0 n) as [Hpos|Hzero].
        -- split.
           { apply Forall_app_intro; [exact Hpre|]. apply Forall_app_intro; [exact Hins|].
             unfold markFailureResolved. destruct (falhaRepo s); repeat constructor. }
           split; [discriminate|]. split.
           ++ intros i t m Hin. exfalso.
              apply in_app_or in Hin as [Hin|Hin];
                [apply Hprec in Hin as [H|[H|H]]; discriminate|].
              apply in_app_or in Hin as [Hin|Hin];
                [apply Hinsc in Hin as (sp & H); discriminate|].
              unfold markFailureResolved in Hin.
              destruct (falhaRepo s); [destruct Hin as [H|[]]; discriminate | destruct Hin].
           ++ intros i _. split; [destruct (isExactMatch _ _ _); reflexivity|].
              split; [destruct (isExactMatch _ _ _); reflexivity|].
              destruct (Hsaved Hpos) as (j & sp & Hin & Hj).
              exists repo, j, sp. split; [reflexivity|]. split; [|exact Hj].
              apply in_or_app. right. apply in_or_app. left. exact Hin.
        -- split; [apply Forall_app_intro; assumption|].
           split; [discriminate|].
           split; intros ? *; intros Hin; exfalso;
             (apply in_app_or in Hin as [Hin|Hin];
              [apply Hprec in Hin as [H|[H|H]]; discriminate
              |apply Hinsc in Hin as (sp & H); discriminate]).
      * rewrite app_nil_r. split; [exact Hpre|]. split; [discriminate|].
        split; intros ? *; intros Hin; apply Hprec in Hin as [H|[H|H]]; discriminate.
    + destruct (Hfail ("specs_fetch_error: " ++ e)) as (Hf1 & Hf2).
      split; [apply Forall_app_intro; assumption|]. split; [discriminate|]. split.
      * intros i t m _. destruct (isExactMatch _ _ _); split; reflexivity.
      * intros i Hin. exfalso. apply in_app_or in Hin as [Hin|Hin];
          [apply Hprec in Hin as [H|[H|H]]; discriminate | apply Hf2 in Hin; discriminate].
  - assert (Hpre : Forall (aboutVehicle id) (calls1 ++ [search])).
    { apply Forall_app_intro; [assumption | repeat constructor]. }
    split; [exact Hpre|]. split; [discriminate|].
    split; intros ? *; intros Hin; exfalso;
      (apply in_app_or in Hin as [Hin|[H|[]]]; [apply Hc1 in Hin|]; discriminate).
  - destruct (Hfail e) as (Hf1 & Hf2).
    split; [repeat apply Forall_app_intro; try assumption; repeat constructor|].
    split; [discriminate|]. split.
    + intros i t m _. split; reflexivity.
    + intros i Hin. exfalso. apply in_app_or in Hin as [Hin|Hin];
        [|apply Hf2 in Hin; discriminate].
      apply in_app_or in Hin as [Hin|[H|[]]]; [apply Hc1 in Hin|]; discriminate.
Qed.

(** [updates] lists the tracker updates of [processVehicle]. *)
Lemma updates_processVehicle (removeAccents : string -> string) (s : ScraperService)
    (v : Aplicacao) (p : ProgressTracker) :
  applyUpdates p (updates removeAccents s v) = fst (processVehicle removeAccents s v p).
Proof.
  unfold updates, processVehicle, applyUpdates. cbv zeta.
  pipeline_cases; reflexivity.
Qed.

Lemma applyUpdates_total (us : list Update) (p : ProgressTracker) :
  TotalVehicles (applyUpdates p us) = TotalVehicles p.
Proof.
  unfold applyUpdates. revert p. induction us as [|u us IH]; intros p; [reflexivity|].
  cbn [fold_left]. rewrite IH. destruct u; reflexivity.
Qed.

Lemma count_app (f : Update -> bool) (l1 l2 : list Update) :
  count f (l1 ++ l2) = count f l1 + count f l2.
Proof. unfold count. rewrite filter_app, length_app. lia. Qed.

Lemma count_nonneg (f : Update -> bool) (l : list Update) : 0 <= count f l.
Proof. unfold count. lia. Qed.

Lemma count_perm (f : Update -> bool) (l l' : list Update) :
  Permutation l l' -> count f l = count f l'.
Proof.
  unfold count. induction 1 as [|x l l' _ IH|x y l|l l' l'' _ IH1 _ IH2]; cbn [filter].
  - reflexivity.
  - destruct (f x); cbn [List.length]; lia.
  - destruct (f x), (f y); reflexivity.
  - lia.
Qed.

(** A counter that the updates selected by [hits] increment and the others
    leave alone adds up, short of the overflow. *)
Lemma applyUpdates_counter (get : ProgressTracker -> Z) (hits : Update -> bool) :
  (forall p u, get (applyUpdate p u) = if hits u then incr (get p) else get p) ->
  forall us p,
    0 <= get p -> get p + count hits us <= maxInt ->
    get (applyUpdates p us) = get p + count hits us.
Proof.
  intros Hget. unfold applyUpdates.
  induction us as [|u us IH]; intros p H0 Hmax; [unfold count; cbn; lia|].
  cbn [fold_left]. change (u :: us) with ([u] ++ us)%list in *. rewrite count_app in *.
  pose proof (count_nonneg hits us) as Hn.
  assert (Hone : count hits [u] = if hits u then 1 else 0).
  { unfold count. cbn [filter]. destruct (hits u); reflexivity. }
  rewrite Hone in *. specialize (Hget p u).
  destruct (hits u).
  - rewrite incr_small in Hget by lia. rewrite IH; lia.
  - rewrite IH; lia.
Qed.

Lemma updates_counts (removeAccents : string -> string) (s : ScraperService) (v : Aplicacao) :
  count isProcessed (updates removeAccents s v) = 1 /\
  count isSuccess (updates removeAccents s v) + count isFailed (updates removeAccents s v)
  + count isSkipped (updates removeAccents s v) + count isNoMatch (updates removeAccents s v)
  = 1.
Proof.
  unfold updates. cbv zeta. pipeline_cases; split; reflexivity.
Qed.

Lemma jobs_counts (removeAccents : string -> string) (jobs : list Job) :
  let all := List.concat (map (fun j => updates removeAccents (service j) (vehicle j)) jobs) in
  count isProcessed all = Z.of_nat (List.length jobs) /\
  count isSuccess all + count isFailed all + count isSkipped all + count isNoMatch all
  = Z.of_nat (List.length jobs).
Proof.
  cbv zeta. induction jobs as [|j jobs (IH1 & IH2)]; [split; reflexivity|].
  cbn [map List.concat List.length]. rewrite !count_app.
  destruct (updates_counts removeAccents (service j) (vehicle j)) as (H1 & H2).
  split; lia.
Qed.

(** The workers' updates add up in any order. When every vehicle of the
    queue is processed by some worker, in whatever order the updates of the
    tracker take effect, the run ends with the processed counter at the
    number of vehicles and equal to the sum of the success, failed, skipped
    and no-match counters. *)
Theorem workers_counters_add_up (removeAccents : string -> string) (jobs : list Job)
    (order : list Update) :
  Permutation order
    (List.concat (map (fun j => updates removeAccents (service j) (vehicle j)) jobs)) ->
  Z.of_nat (List.length jobs) <= maxInt ->
  let p := applyUpdates (NewProgressTracker (Z.of_nat (List.length jobs))) order in
  TotalVehicles p = Z.of_nat (List.length jobs) /\
  Processed p = TotalVehicles p /\
  Processed p = Success p + Failed p + Skipped p + NoMatch p.
Proof.
  intros Hperm Hmax. cbv zeta.
  destruct (jobs_counts removeAccents jobs) as (Hp & Ho). cbv zeta in Hp, Ho.
  rewrite <- (count_perm _ _ _ Hperm) in Hp. rewrite <- !(count_perm _ _ _ Hperm) in Ho.
  set (p0 := NewProgressTracker (Z.of_nat (List.length jobs))).
  pose proof (count_nonneg isSuccess order). pose proof (count_nonneg isFailed order).
  pose proof (count_nonneg isSkipped order). pose proof (count_nonneg isNoMatch order).
  rewrite applyUpdates_total.
  rewrite (applyUpdates_counter Processed isProcessed), (applyUpdates_counter Success isSuccess),
    (applyUpdates_counter Failed isFailed), (applyUpdates_counter Skipped isSkipped),
    (applyUpdates_counter NoMatch isNoMatch);
    try (intros q u; destruct u; reflexivity); cbn; lia.
Qed.

Lemma workers_counters_add_up_witness :
  let jobs := [ {| service := findingService; vehicle := golFromDatabase |};
                {| service := stubService; vehicle := scaniaR450 |} ] in
  let order := [UpdCurrentVehicle ""; UpdCurrentVehicle "R450"; UpdProcessed; UpdProcessed;
                UpdRequests; UpdSkipped; UpdExactMatch; UpdSuccess] in
  let p := applyUpdates (NewProgressTracker (Z.of_nat (List.length jobs))) order in
  TotalVehicles p = Z.of_nat (List.length jobs) /\
  Processed p = TotalVehicles p /\
  Processed p = Success p + Failed p + Skipped p + NoMatch p.
Proof.
  apply (workers_counters_add_up (fun t => t)
           [ {| service := findingService; vehicle := golFromDatabase |};
             {| service := stubService; vehicle := scaniaR450 |} ]
           [UpdCurrentVehicle ""; UpdCurrentVehicle "R450"; UpdProcessed; UpdProcessed;
            UpdRequests; UpdSkipped; UpdExactMatch; UpdSuccess]).
  - vm_compute. apply perm_skip.
    apply (Permutation_cons_app [UpdProcessed; UpdRequests; UpdExactMatch; UpdSuccess]
             [UpdProcessed; UpdSkipped]).
    apply perm_skip.
    apply (Permutation_cons_app [UpdRequests; UpdExactMatch; UpdSuccess] [UpdSkipped]).
    apply perm_skip.
    apply (Permutation_cons_app [UpdExactMatch; UpdSuccess] []).
    reflexivity.
  - vm_compute. discriminate.
Defined.

Lemma Contains_empty (s : string) : Contains s "" = true.
Proof. destruct s; reflexivity. Qed.

Lemma isExactMatch_empty (removeAccents : string -> string) (v : Aplicacao)
    (motulVehicle : MotulVehicle) :
  DescricaoAplicacao v = "" -> removeAccents "" = "" ->
  isExactMatch removeAccents v motulVehicle = true.
Proof.
  intros Hd Hra. unfold isExactMatch. cbv zeta. rewrite Hd.
  assert (Hn : normalizeString removeAccents "" = "").
  { unfold normalizeString. cbv zeta. rewrite Hra. reflexivity. }
  rewrite Hn, Contains_empty. apply orb_true_r.
Qed.

(** A vehicle whose description is empty, as every vehicle that
    [GetAllVehicles] loads is, always counts as an exact match: the empty
    description is contained in any description of the advisor. The
    fuzzy-match counter never moves for it, and every specification saved
    for it carries the confidence 0.95. *)
Theorem empty_description_is_exact (removeAccents : string -> string) (s : ScraperService)
    (v : Aplicacao) (p : ProgressTracker) :
  DescricaoAplicacao v = "" -> removeAccents "" = "" ->
  (forall motulVehicle, isExactMatch removeAccents v motulVehicle = true) /\
  FuzzyMatch (fst (processVehicle removeAccents s v p)) = FuzzyMatch p /\
  forall spec, In (CallInsert spec) (snd (processVehicle removeAccents s v p)) ->
               MatchConfidence spec = Some 0.95%float.
Proof.
  intros Hd Hra.
  assert (Hex : forall mv, isExactMatch removeAccents v mv = true)
    by (intros mv; apply isExactMatch_empty; assumption).
  split; [exact Hex|]. split.
  - rewrite <- updates_processVehicle. unfold updates. cbv zeta.
    repeat match goal with
    | |- context [isExactMatch removeAccents v ?mv] => rewrite (Hex mv)
    | |- context [match ?x with _ => _ end] =>
        lazymatch x with
        | context [match _ with _ => _ end] => fail
        | _ => destruct x eqn:?
        end
    end; reflexivity.
  - intros spec. unfold processVehicle. cbv zeta.
    destruct (match parseVehicleDescription removeAccents v with
              | Ok (brand, modelName, _) =>
                  isCommercialVehicle brand modelName (DescricaoAplicacao v)
              | Err _ => false
              end); [intros []|].
    destruct (match specRepo s with
              | None => (false, [])
              | Some repo =>
                  (match ExistsForVehicle repo (CodigoAplicacao v) with
                   | Ok true => true
                   | _ => false
                   end, [CallExistsForVehicle (CodigoAplicacao v)])
              end) as [existing calls1] eqn:E1.
    assert (H1 : forall c, In c calls1 -> c = CallExistsForVehicle (CodigoAplicacao v)).
    { destruct (specRepo s); injection E1 as _ <-; intros c [<-|[]] || intros c [];
        reflexivity. }
    assert (Hno : In (CallInsert spec) calls1 -> MatchConfidence spec = Some 0.95%float).
    { intros Hin. apply H1 in Hin. discriminate. }
    destruct existing; [exact Hno|].
    destruct (parseVehicleDescription removeAccents v) as [[[brand modelName] year]|e];
      [|exact Hno].
    destruct (DryRun s); [exact Hno|].
    assert (Hfail : forall msg, ~ In (CallInsert spec) (saveFailure s (CodigoAplicacao v) msg)).
    { intros msg. unfold saveFailure. destruct (falhaRepo s); [intros [H|[]]|intros []].
      discriminate. }
    assert (Hpre : forall extra, In (CallInsert spec)
                     ((calls1 ++ [CallSearchVehicle brand modelName year]) ++ extra) ->
                   In (CallInsert spec) extra).
    { intros extra Hin. apply in_app_or in Hin as [Hin|Hin]; [|exact Hin].
      apply in_app_or in Hin as [Hin|[H|[]]]; [apply H1 in Hin|]; discriminate. }
    destruct (SearchVehicle (motulClient s) brand modelName year) as [[mv|]|e].
    + rewrite (Hex mv). cbv iota.
      destruct (GetSpecifications (motulClient s) (MotulID mv)) as [[|sp specs]|e].
      * intros Hin. apply Hpre in Hin. destruct Hin as [H|[]]. discriminate.
      * rewrite <- app_assoc. intros Hin. apply Hpre in Hin.
        destruct Hin as [H|Hin]; [discriminate|]. cbn [app] in Hin.
        destruct (specRepo s) as [repo|]; [|destruct Hin].
        pose proof (saveLoop_calls repo v mv 0.95%float 0 (sp :: specs)) as Hsave.
        destruct (saveLoop repo v mv 0.95%float 0 (sp :: specs)) as [calls n].
        destruct Hsave as (Hall & _). rewrite Forall_forall in Hall.
        assert (Hc : In (CallInsert spec) calls).
        { destruct (0 <? n); [|exact Hin].
          apply in_app_or in Hin as [Hin|Hin]; [exact Hin|].
          unfold markFailureResolved in Hin.
          destruct (falhaRepo s); [destruct Hin as [H|[]]; discriminate | destruct Hin]. }
        destruct (Hall _ Hc) as (sp' & [= <-] & _ & _ & Hconf). exact Hconf.
      * rewrite <- app_assoc. intros Hin. apply Hpre in Hin.
        destruct Hin as [H|Hin]; [discriminate|]. cbn [app] in Hin.
        exfalso. exact (Hfail _ Hin).
    + intros Hin. rewrite <- (app_nil_r (calls1 ++ _)) in Hin. apply Hpre in Hin.
      destruct Hin.
    + intros Hin. apply Hpre in Hin. exfalso. exact (Hfail _ Hin).
Qed.

Lemma empty_description_is_exact_witness :
  (forall motulVehicle, isExactMatch (fun t => t) golFromDatabase motulVehicle = true) /\
  FuzzyMatch (fst (processVehicle (fun t => t) findingService golFromDatabase
                     (NewProgressTracker 1)))
  = FuzzyMatch (NewProgressTracker 1) /\
  forall spec,
    In (CallInsert spec)
       (snd (processVehicle (fun t => t) findingService golFromDatabase
               (NewProgressTracker 1))) ->
    MatchConfidence spec = Some 0.95%float.
Proof.
  apply (empty_description_is_exact (fun t => t) findingService golFromDatabase
           (NewProgressTracker 1)); reflexivity.
Defined.

Lemma cutAt_empty (sep modelName : string) : cutAt sep modelName = "" -> modelName = "".
Proof.
  unfold cutAt. destruct (String.index 0 sep modelName) as [[|idx]|]; cbn; try tauto.
  destruct modelName; [reflexivity | discriminate].
Qed.

Lemma yearLoop_range (s : string) : yearLoop s = 0 \/ 1990 <= yearLoop s <= 2030.
Proof.
  induction s as [|c r IH]; [left; reflexivity|].
  cbn [yearLoop]. destruct (Nat.ltb _ 4); [left; reflexivity|].
  destruct (isDigit c); [|exact IH].
  destruct ((1990 <=? _) && (_ <=? 2030)) eqn:E; [|exact IH].
  right. apply andb_true_iff in E as [E1 E2]. apply Z.leb_le in E1, E2. lia.
Qed.

(** [parseVehicleDescription] fails exactly when the vehicle has neither
    manufacturer nor brand, or neither model nor description: cutting the
    model at " - " or " /" never empties it. The year it returns is 0 or
    lies between 1990 and 2030. *)
Theorem parseVehicleDescription_result (removeAccents : string -> string) (v : Aplicacao) :
  match parseVehicleDescription removeAccents v with
  | Ok (_, _, year) =>
      (Fabricante v <> "" \/ Marca v <> "") /\
      (Modelo v <> "" \/ DescricaoAplicacao v <> "") /\
      (year = 0 \/ 1990 <= year <= 2030)
  | Err e =>
      e = "missing brand or model" /\
      ((Fabricante v = "" /\ Marca v = "") \/ (Modelo v = "" /\ DescricaoAplicacao v = ""))
  end.
Proof.
  unfold parseVehicleDescription. cbv zeta.
  set (brand := if String.eqb (Fabricante v) "" then Marca v else Fabricante v).
  set (modelName := if String.eqb (Modelo v) "" then DescricaoAplicacao v else Modelo v).
  assert (Hb : brand = "" <-> Fabricante v = "" /\ Marca v = "").
  { subst brand. destruct (String.eqb_spec (Fabricante v) ""); intuition congruence. }
  assert (Hm : modelName = "" <-> Modelo v = "" /\ DescricaoAplicacao v = "").
  { subst modelName. destruct (String.eqb_spec (Modelo v) ""); intuition congruence. }
  destruct (String.eqb_spec brand "") as [Eb|Eb].
  - split; [reflexivity|]. left. apply Hb, Eb.
  - destruct (String.eqb_spec (cutAt " /" (cutAt " - " modelName)) "") as [Em|Em].
    + split; [reflexivity|]. right. apply Hm. apply cutAt_empty in Em.
      apply cutAt_empty in Em. exact Em.
    + cbn [orb]. split; [|split; [|apply yearLoop_range]].
      * destruct (String.eqb_spec (Fabricante v) ""); [right|left]; intuition.
      * destruct (String.eqb_spec (Modelo v) ""); [right|left]; [|assumption].
        intros Hd. apply Em. assert (modelName = "") as -> by (apply Hm; auto).
        reflexivity.
Qed.

End ScraperPipelineFacts.

(** ** internal/scraper/service.go: where [Run] starts and what it leaves
    in the checkpoint

    The part of [Run] that its own goroutine executes: loading the
    vehicles, choosing the start index from the checkpoint and the
    configuration, feeding the queue and saving checkpoints. The context is
    not cancelled and the workers take every vehicle from the queue. *)

Module ScraperRun.
Import Model.

(** The fields of [ScraperConfig] that [Run] reads for its control flow. *)
Record ScraperConfig := {
  CheckpointEvery : Z;
  ResumeFromID : Z
}.

(** The checkpoint file as [Exists] and [Load] see it: absent, unreadable,
    or holding a last processed id. *)
Inductive CheckpointFile :=
| NoFile
| Unreadable (err : string)
| Saved (lastProcessedID : Z).

(** What [Run] reaches: the vehicle query, the checkpoint file, and the
    calls of [Save], numbered from 0; a [Save] that fails leaves the file
    in the state it returns. *)
Record Env := {
  GetAllVehicles : result (list Aplicacao);
  file : CheckpointFile;
  Save : nat -> Z -> option CheckpointFile
}.

(** The loop over the vehicles that follows [Load]: the index after the
    first vehicle with the id. *)
Fixpoint afterLast (lastProcessedID : Z) (vehicles : list Aplicacao) (i : nat) : option nat :=
  match vehicles with
  | [] => None
  | v :: rest =>
      if CodigoAplicacao v =? lastProcessedID then Some (S i)
      else afterLast lastProcessedID rest (S i)
  end.

(** The loop for [ResumeFromID]: the index of the first vehicle whose id
    is at least the id. *)
Fixpoint firstAtLeast (resumeFromID : Z) (vehicles : list Aplicacao) (i : nat) : option nat :=
  match vehicles with
  | [] => None
  | v :: rest =>
      if resumeFromID <=? CodigoAplicacao v then Some i
      else firstAtLeast resumeFromID rest (S i)
  end.

Definition startIndex (checkpoint : CheckpointFile) (cfg : ScraperConfig)
    (vehicles : list Aplicacao) : nat :=
  let startIndex := 0%nat in
  let startIndex :=
    match checkpoint with
    | Saved lastProcessedID =>
        match afterLast lastProcessedID vehicles 0 with
        | Some i => i
        | None => startIndex
        end
    | _ => startIndex
    end in
  if 0 <? ResumeFromID cfg then
    match firstAtLeast (ResumeFromID cfg) vehicles 0 with
    | Some i => i
    | None => startIndex
    end
  else startIndex.

(** [vehicles[startIndex:]]. *)
Definition vehiclesToProcess (checkpoint : CheckpointFile) (cfg : ScraperConfig)
    (vehicles : list Aplicacao) : list Aplicacao :=
  skipn (startIndex checkpoint cfg vehicles) vehicles.

(** The feed loop: the ids passed to the periodic [Save], in order; [None]
    is the panic of [checkpointCounter % 0]. *)
Fixpoint feed (every : Z) (vehicles : list Aplicacao) (checkpointCounter : Z)
  : option (list Z) :=
  match vehicles with
  | [] => Some []
  | vehicle :: rest =>
      let checkpointCounter := Scraper.incr checkpointCounter in
      if every =? 0 then None
      else
        match feed every rest checkpointCounter with
        | None => None
        | Some saves =>
            Some (if Z.rem checkpointCounter every =? 0
                  then CodigoAplicacao vehicle :: saves else saves)
        end
  end.

(** [lastProcessedID] when the loop ends. *)
Fixpoint lastProcessedID (vehicles : list Aplicacao) (sofar : Z) : Z :=
  match vehicles with
  | [] => sofar
  | vehicle :: rest => lastProcessedID rest (CodigoAplicacao vehicle)
  end.

(** The file after the calls of [Save], the first of them being call
    number [k]. *)
Fixpoint written (save : nat -> Z -> option CheckpointFile) (k : nat) (saves : list Z)
    (checkpoint : CheckpointFile) : CheckpointFile :=
  match saves with
  | [] => checkpoint
  | id :: rest =>
      written save (S k) rest
        (match save k id with
         | None => Saved id
         | Some leftover => leftover
         end)
  end.

Inductive RunResult :=
| LoadFailed (err : string)
| Panicked (reason : string)
| Completed (queued : list Aplicacao) (saves : list Z) (checkpoint : CheckpointFile).

Definition Run (env : Env) (cfg : ScraperConfig) : RunResult :=
  match GetAllVehicles env with
  | Err e => LoadFailed ("failed to load vehicles: " ++ e)
  | Ok vehicles =>
      let toProcess := vehiclesToProcess (file env) cfg vehicles in
      match feed (CheckpointEvery cfg) toProcess 0 with
      | None => Panicked "integer divide by zero"
      | Some saves =>
          let saves := (saves ++ [lastProcessedID toProcess 0])%list in
          Completed toProcess saves (written (Save env) 0 saves (file env))
      end
  end.

(** The environment of a run on given vehicles and checkpoint, every
    [Save] succeeding. *)
Definition envOf (vehicles : list Aplicacao) (checkpoint : CheckpointFile) : Env :=
  {| GetAllVehicles := Ok vehicles; file := checkpoint; Save := fun _ _ => None |}.

Definition vehicleOf (id : Z) : Aplicacao :=
  {| CodigoAplicacao := id; CodigoFabricante := 4; Marca := ""; DescricaoAplicacao := "";
     DescricaoCompleta := ""; Motor := ""; Periodo := ""; Ano := "";
     Fabricante := "Volkswagen"; Modelo := "Gol" |}.

Definition DefaultScraperConfig : ScraperConfig :=
  {| CheckpointEvery := 100; ResumeFromID := 0 |}.

Lemma afterLast_found (id : Z) (before after : list Aplicacao) (v : Aplicacao) (i : nat) :
  Forall (fun b => CodigoAplicacao b <> id) before -> CodigoAplicacao v = id ->
  afterLast id (before ++ v :: after) i = Some (S (i + List.length before)).
Proof.
  intros Hb Hv. revert i. induction Hb as [|b before Hne _ IH]; intros i.
  - cbn. rewrite Hv, Z.eqb_refl. f_equal. lia.
  - cbn. destruct (Z.eqb_spec (CodigoAplicacao b) id); [contradiction|].
    rewrite IH. f_equal. lia.
Qed.

Lemma afterLast_missing (id : Z) (vehicles : list Aplicacao) (i : nat) :
  Forall (fun b => CodigoAplicacao b <> id) vehicles -> afterLast id vehicles i = None.
Proof.
  intros H. revert i. induction H as [|b rest Hne _ IH]; intros i; [reflexivity|].
  cbn. destruct (Z.eqb_spec (CodigoAplicacao b) id); [contradiction | apply IH].
Qed.

Lemma afterLast_bound (id : Z) (vehicles : list Aplicacao) (i k : nat) :
  afterLast id vehicles i = Some k -> (k <= i + List.length vehicles)%nat.
Proof.
  revert i. induction vehicles as [|v rest IH]; intros i; [discriminate|].
  cbn. destruct (CodigoAplicacao v =? id).
  - intros [= <-]. lia.
  - intros H%IH. lia.
Qed.

Lemma firstAtLeast_found (resume : Z) (before after : list Aplicacao) (v : Aplicacao)
    (i : nat) :
  Forall (fun b => CodigoAplicacao b < resume) before -> resume <= CodigoAplicacao v ->
  firstAtLeast resume (before ++ v :: after) i = Some (i + List.length before)%nat.
Proof.
  intros Hb Hv. revert i. induction Hb as [|b before Hlt _ IH]; intros i.
  - cbn. destruct (Z.leb_spec resume (CodigoAplicacao v)); [f_equal; lia | lia].
  - cbn. destruct (Z.leb_spec resume (CodigoAplicacao b)); [lia|].
    rewrite IH. f_equal. lia.
Qed.

Lemma firstAtLeast_missing (resume : Z) (vehicles : list Aplicacao) (i : nat) :
  Forall (fun b => CodigoAplicacao b < resume) vehicles ->
  firstAtLeast resume vehicles i = None.
Proof.
  intros H. revert i. induction H as [|b rest Hlt _ IH]; intros i; [reflexivity|].
  cbn. destruct (Z.leb_spec resume (CodigoAplicacao b)); [lia | apply IH].
Qed.

Lemma firstAtLeast_bound (resume : Z) (vehicles : list Aplicacao) (i k : nat) :
  firstAtLeast resume vehicles i = Some k -> (k <= i + List.length vehicles)%nat.
Proof.
  revert i. induction vehicles as [|v rest IH]; intros i; [discriminate|].
  cbn. destruct (resume <=? CodigoAplicacao v).
  - intros [= <-]. lia.
  - intros H%IH. lia.
Qed.

Lemma skipn_app_exact {A} (l1 l2 : list A) : skipn (List.length l1) (l1 ++ l2) = l2.
Proof. induction l1 as [|x l1 IH]; [reflexivity | exact IH]. Qed.

Lemma start_after_checkpoint (cfg : ScraperConfig) (id : Z) (before after : list Aplicacao)
    (v : Aplicacao) :
  ResumeFromID cfg <= 0 ->
  Forall (fun b => CodigoAplicacao b <> id) before -> CodigoAplicacao v = id ->
  vehiclesToProcess (Saved id) cfg (before ++ v :: after) = after.
Proof.
  intros Hres Hb Hv. unfold vehiclesToProcess, startIndex. cbv zeta.
  destruct (Z.ltb_spec 0 (ResumeFromID cfg)) as [Hpos|_]; [lia|].
  rewrite (afterLast_found id before after v 0 Hb Hv). cbn [Nat.add].
  change (before ++ v :: after)%list with (before ++ [v] ++ after)%list.
  rewrite app_assoc.
  replace (S (List.length before)) with (List.length (before ++ [v])%list)
    by (rewrite length_app; cbn; lia).
  apply skipn_app_exact.
Qed.

Lemma start_without_checkpoint (checkpoint : CheckpointFile) (cfg : ScraperConfig)
    (vehicles : list Aplicacao) :
  ResumeFromID cfg <= 0 ->
  (forall id, checkpoint = Saved id -> Forall (fun b => CodigoAplicacao b <> id) vehicles) ->
  vehiclesToProcess checkpoint cfg vehicles = vehicles.
Proof.
  intros Hres Hmiss. unfold vehiclesToProcess, startIndex. cbv zeta.
  destruct (Z.ltb_spec 0 (ResumeFromID cfg)) as [Hpos|_]; [lia|].
  destruct checkpoint as [|e|id]; try reflexivity.
  rewrite (afterLast_missing id vehicles 0 (Hmiss id eq_refl)). reflexivity.
Qed.

(** Where [Run] starts. The vehicles to process are always a suffix of the
    vehicles loaded. Without [ResumeFromID], a checkpoint whose id is the
    id of a loaded vehicle makes the run start right after the first such
    vehicle, and any other checkpoint state makes it start at the first
    vehicle. A positive [ResumeFromID] overrides the checkpoint and starts
    at the first vehicle whose id is at least it; when no vehicle has such
    an id it has no effect at all. *)
Theorem Run_start (checkpoint : CheckpointFile) (cfg : ScraperConfig)
    (vehicles : list Aplicacao) :
  let toProcess := vehiclesToProcess checkpoint cfg vehicles in
  (exists skipped, vehicles = (skipped ++ toProcess)%list) /\
  (ResumeFromID cfg <= 0 ->
   (forall id before v after,
      checkpoint = Saved id -> vehicles = (before ++ v :: after)%list ->
      Forall (fun b => CodigoAplicacao b <> id) before -> CodigoAplicacao v = id ->
      toProcess = after) /\
   ((forall id, checkpoint = Saved id ->
       Forall (fun b => CodigoAplicacao b <> id) vehicles) ->
    toProcess = vehicles)) /\
  (0 < ResumeFromID cfg ->
   (forall before v after,
      vehicles = (before ++ v :: after)%list ->
      Forall (fun b => CodigoAplicacao b < ResumeFromID cfg) before ->
      ResumeFromID cfg <= CodigoAplicacao v ->
      toProcess = v :: after) /\
   (Forall (fun b => CodigoAplicacao b < ResumeFromID cfg) vehicles ->
    toProcess
    = vehiclesToProcess checkpoint
        {| CheckpointEvery := CheckpointEvery cfg; ResumeFromID := 0 |} vehicles)).
Proof.
  cbv zeta. unfold vehiclesToProcess. split; [|split].
  - exists (firstn (startIndex checkpoint cfg vehicles) vehicles).
    symmetry. apply firstn_skipn.
  - intros Hres. split.
    + intros id before v after -> -> Hb Hv.
      apply (start_after_checkpoint cfg id before after v Hres Hb Hv).
    + apply (start_without_checkpoint checkpoint cfg vehicles Hres).
  - intros Hpos. unfold startIndex. cbv zeta. cbn [ResumeFromID].
    destruct (Z.ltb_spec 0 (ResumeFromID cfg)) as [_|Hle]; [|lia]. split.
    + intros before v after -> Hb Hv.
      rewrite (firstAtLeast_found _ before after v 0 Hb Hv). cbn [Nat.add].
      apply skipn_app_exact.
    + intros Hall. rewrite (firstAtLeast_missing _ vehicles 0 Hall). reflexivity.
Qed.

Lemma feed_Some (every : Z) (vehicles : list Aplicacao) (counter : Z) :
  every <> 0 -> exists saves, feed every vehicles counter = Some saves.
Proof.
  intros Hne. revert counter. induction vehicles as [|v rest IH]; intros counter.
  - exists []. reflexivity.
  - cbn [feed]. cbv zeta. destruct (Z.eqb_spec every 0) as [E|_]; [contradiction|].
    destruct (IH (Scraper.incr counter)) as (saves & ->). eauto.
Qed.

Lemma written_all (save : nat -> Z -> option CheckpointFile) (k : nat) (saves : list Z)
    (final : Z) (checkpoint : CheckpointFile) :
  (forall j id, save j id = None) ->
  written save k (saves ++ [final]) checkpoint = Saved final.
Proof.
  intros Hok. revert k checkpoint. induction saves as [|id rest IH]; intros k checkpoint.
  - cbn. rewrite Hok. reflexivity.
  - cbn [app written]. apply IH.
Qed.

Lemma lastProcessedID_app (front : list Aplicacao) (v : Aplicacao) (sofar : Z) :
  lastProcessedID (front ++ [v]) sofar = CodigoAplicacao v.
Proof.
  revert sofar. induction front as [|x front IH]; intros sofar; [reflexivity|].
  cbn [app lastProcessedID]. apply IH.
Qed.

(** A finished run is forgotten by the next one. With the same vehicles
    each time, no [ResumeFromID] and every [Save] succeeding: a run without
    a checkpoint queues every vehicle and leaves the id of the last one in
    the checkpoint; the run after it finds nothing to do and overwrites the
    checkpoint with the id 0; and the run after that, no vehicle having the
    id 0, queues every vehicle again. *)
Theorem Run_after_finished_run (cfg : ScraperConfig) (front : list Aplicacao)
    (final : Aplicacao) :
  let vehicles := (front ++ [final])%list in
  ResumeFromID cfg <= 0 -> CheckpointEvery cfg <> 0 ->
  Forall (fun v => CodigoAplicacao v <> CodigoAplicacao final) front ->
  Forall (fun v => CodigoAplicacao v <> 0) vehicles ->
  exists saves,
    Run (envOf vehicles NoFile) cfg
      = Completed vehicles saves (Saved (CodigoAplicacao final)) /\
    Run (envOf vehicles (Saved (CodigoAplicacao final))) cfg
      = Completed [] [0] (Saved 0) /\
    Run (envOf vehicles (Saved 0)) cfg
      = Completed vehicles saves (Saved (CodigoAplicacao final)).
Proof.
  cbv zeta. intros Hres Hevery Hfront Hzero.
  set (vehicles := (front ++ [final])%list) in *.
  assert (E1 : vehiclesToProcess NoFile cfg vehicles = vehicles)
    by (apply start_without_checkpoint; [exact Hres | intros id [=]]).
  assert (E2 : vehiclesToProcess (Saved (CodigoAplicacao final)) cfg vehicles = [])
    by (apply (start_after_checkpoint cfg _ front [] final); auto).
  assert (E3 : vehiclesToProcess (Saved 0) cfg vehicles = vehicles)
    by (apply start_without_checkpoint; [exact Hres | intros id [= <-]; exact Hzero]).
  destruct (feed_Some (CheckpointEvery cfg) vehicles 0 Hevery) as (saves & Hfeed).
  exists (saves ++ [CodigoAplicacao final])%list.
  unfold Run. cbn [envOf GetAllVehicles file Save]. cbv zeta. rewrite E1, E2, E3, Hfeed.
  assert (Hlast : lastProcessedID vehicles 0 = CodigoAplicacao final)
    by apply lastProcessedID_app.
  rewrite !Hlast, !(written_all _ 0 saves) by reflexivity.
  cbn. auto.
Qed.

Lemma Run_after_finished_run_witness :
  exists saves,
    Run (envOf [vehicleOf 11; vehicleOf 12; vehicleOf 15] NoFile) DefaultScraperConfig
      = Completed [vehicleOf 11; vehicleOf 12; vehicleOf 15] saves (Saved 15) /\
    Run (envOf [vehicleOf 11; vehicleOf 12; vehicleOf 15] (Saved 15)) DefaultScraperConfig
      = Completed [] [0] (Saved 0) /\
    Run (envOf [vehicleOf 11; vehicleOf 12; vehicleOf 15] (Saved 0)) DefaultScraperConfig
      = Completed [vehicleOf 11; vehicleOf 12; vehicleOf 15] saves (Saved 15).
Proof.
  apply (Run_after_finished_run DefaultScraperConfig [vehicleOf 11; vehicleOf 12]
           (vehicleOf 15)).
  - vm_compute. discriminate.
  - vm_compute. discriminate.
  - repeat constructor; vm_compute; discriminate.
  - repeat constructor; vm_compute; discriminate.
Defined.

End ScraperRun.

(** ** internal/client/groq.go: the batch call *)

Module GroqBatch.
Import GroqClient.

Record BatchMatchRequest := {
  ID : Z;
  Vehicle : string;
  Options : list string
}.

(** [Error] is the message of the error, [None] for nil. *)
Record BatchMatchResult := {
  ResultID : Z;
  MatchedIndex : Z;
  MatchedValue : string;
  Error : option string
}.

(** A panic of the Go runtime, or a value. *)
Inductive outcome (A : Type) : Type :=
| Panic (reason : string)
| Value (a : A).
Arguments Panic {A} reason.
Arguments Value {A} a.

Definition isDigit (c : ascii) : bool :=
  let n := nat_of_ascii c in (Nat.leb 48 n && Nat.leb n 57)%bool.

(** [regexp.MustCompile(`\d+`).FindAllString(response, -1)]: the maximal
    runs of ASCII digits, in order. [cur] is the run being read. *)
Fixpoint digitRuns (cur : string) (s : string) : list string :=
  match s with
  | EmptyString => if String.eqb cur "" then [] else [cur]
  | String c r =>
      if isDigit c then digitRuns (cur ++ String c EmptyString) r
      else if String.eqb cur "" then digitRuns "" r
      else cur :: digitRuns "" r
  end.

(** The value of a string of digits. *)
Fixpoint digitsValue (acc : Z) (s : string) : Z :=
  match s with
  | EmptyString => acc
  | String c r => digitsValue (10 * acc + (Z.of_nat (nat_of_ascii c) - 48)) r
  end.

(** [strconv.Atoi] on a string of digits: an error when the value does not
    fit an int. *)
Definition Atoi (numStr : string) : option Z :=
  let n := digitsValue 0 numStr in
  if n <=? Scraper.maxInt then Some n else None.

(** The first loop of [parseBatchResponse]: the defaults. *)
Fixpoint defaults (requests : list BatchMatchRequest) : outcome (list BatchMatchResult) :=
  match requests with
  | [] => Value []
  | req :: rest =>
      match Options req with
      | [] => Panic "index out of range [0] with length 0"
      | first :: _ =>
          match defaults rest with
          | Panic reason => Panic reason
          | Value results =>
              Value ({| ResultID := ID req; MatchedIndex := 0; MatchedValue := first;
                        Error := None |} :: results)
          end
      end
  end.

(** One step of the second loop, on [results[i]] and [requests[i]]. *)
Definition applyNumber (numStr : string) (req : BatchMatchRequest) (result : BatchMatchResult)
  : BatchMatchResult :=
  match Atoi numStr with
  | None => result
  | Some num =>
      if num =? 0 then
        {| ResultID := ResultID result; MatchedIndex := -1; MatchedValue := "";
           Error := Some "LLM indicated no match" |}
      else if (0 <? num) && (num <=? Z.of_nat (List.length (Options req))) then
        match nth_error (Options req) (Z.to_nat (num - 1)) with
        | Some opt =>
            {| ResultID := ResultID result; MatchedIndex := num - 1; MatchedValue := opt;
               Error := Error result |}
        | None => result
        end
      else result
  end.

(** The second loop: the numbers against the requests, position by
    position, until either runs out. *)
Fixpoint applyNumbers (numbers : list string) (requests : list BatchMatchRequest)
    (results : list BatchMatchResult) : list BatchMatchResult :=
  match numbers, requests, results with
  | numStr :: numbers', req :: requests', result :: results' =>
      applyNumber numStr req result :: applyNumbers numbers' requests' results'
  | _, _, _ => results
  end.

Definition parseBatchResponse (response : string) (requests : list BatchMatchRequest)
  : outcome (list BatchMatchResult) :=
  match defaults requests with
  | Panic reason => Panic reason
  | Value results =>
      let response := TrimSpace response in
      let numbers := digitRuns "" response in
      Value (applyNumbers numbers requests results)
  end.

(** [maxOptions]. *)
Fixpoint maxOptionsFrom (max : Z) (requests : list BatchMatchRequest) : Z :=
  match requests with
  | [] => max
  | req :: rest =>
      maxOptionsFrom (if max <? Z.of_nat (List.length (Options req))
                      then Z.of_nat (List.length (Options req)) else max) rest
  end.

Definition maxOptions (requests : list BatchMatchRequest) : Z := maxOptionsFrom 0 requests.

(** The lines of the batch prompt. *)
Fixpoint batchLines (i : Z) (requests : list BatchMatchRequest) : string :=
  match requests with
  | [] => ""
  | req :: rest =>
      "V" ++ itoa (i + 1) ++ ":" ++ Vehicle req ++ "|Opts:"
      ++ TrimSpace (optionsListFrom 0 (Options req)) ++ newline ++ batchLines (i + 1) rest
  end.

Definition batchPrompt (requests : list BatchMatchRequest) : string :=
  "Match each vehicle to its best option. Reply with comma-separated numbers." ++ newline
  ++ batchLines 0 requests
  ++ "Reply format: n1,n2,n3... (numbers 1-" ++ itoa (maxOptions requests)
  ++ " for each, 0=no match)".

(** [i] with [req.Options[i] == result], for the single request. *)
Fixpoint indexOf (result : string) (options : list string) (i : Z) : option Z :=
  match options with
  | [] => None
  | opt :: rest => if String.eqb opt result then Some i else indexOf result rest (i + 1)
  end.

Definition failed (err : string) (req : BatchMatchRequest) : BatchMatchResult :=
  {| ResultID := ID req; MatchedIndex := -1; MatchedValue := ""; Error := Some err |}.

Definition NormalizeVehicleBatch (c : Provider) (requests : list BatchMatchRequest)
  : outcome (result (list BatchMatchResult)) :=
  match requests with
  | [] => Value (Err "no requests provided")
  | [req] =>
      match NormalizeVehicle c (Vehicle req) (Options req) with
      | Err e => Value (Ok [failed e req])
      | Ok matched =>
          match indexOf matched (Options req) 0 with
          | Some i =>
              Value (Ok [ {| ResultID := ID req; MatchedIndex := i; MatchedValue := matched;
                             Error := None |} ])
          | None =>
              match Options req with
              | [] => Panic "index out of range [0] with length 0"
              | first :: _ =>
                  Value (Ok [ {| ResultID := ID req; MatchedIndex := 0;
                                 MatchedValue := first; Error := None |} ])
              end
          end
      end
  | _ =>
      match wait c with
      | Err e => Value (Err ("rate limit wait failed: " ++ e))
      | Ok _ =>
          match doRequestWithFailover c (batchPrompt requests) with
          | Err e => Value (Ok (map (failed e) requests))
          | Ok response =>
              match parseBatchResponse response requests with
              | Panic reason => Panic reason
              | Value results => Value (Ok results)
              end
          end
      end
  end.

(** A result that fits its request: the id of the request, and either no
    match (index -1, no value, an error) or the index of one of the options
    with that option as value and no error. *)
Definition fits (req : BatchMatchRequest) (r : BatchMatchResult) : Prop :=
  ResultID r = ID req /\
  ((MatchedIndex r = -1 /\ MatchedValue r = "" /\ Error r <> None) \/
   (0 <= MatchedIndex r /\
    nth_error (Options req) (Z.to_nat (MatchedIndex r)) = Some (MatchedValue r) /\
    Error r = None)).

(** Two vehicles with two options each. *)
Definition twoRequests : list BatchMatchRequest :=
  [ {| ID := 11; Vehicle := "Gol 1.0"; Options := ["Gol 1.6"; "Gol 1.0"] |};
    {| ID := 12; Vehicle := "Uno Mille"; Options := ["Uno 1.0"; "Uno 1.4"] |} ].

(** A provider that answers every prompt with "2, 0". *)
Definition fixedProvider : Provider :=
  {| wait := Ok tt; doRequestWithFailover := fun _ => Ok "2, 0" |}.

Lemma defaults_fit (requests : list BatchMatchRequest) :
  match defaults requests with
  | Value results => Forall2 (fun req r => fits req r /\ Error r = None) requests results
  | Panic _ => exists req, In req requests /\ Options req = []
  end.
Proof.
  induction requests as [|req rest IH]; [constructor|].
  cbn [defaults]. destruct (Options req) as [|first others] eqn:Eo.
  - exists req. split; [left; reflexivity | exact Eo].
  - destruct (defaults rest) as [reason|results].
    + destruct IH as (r & Hin & Hr). exists r. split; [right; exact Hin | exact Hr].
    + constructor; [|exact IH]. split; [|reflexivity]. split; [reflexivity|].
      right. cbn. rewrite Eo. repeat split. lia.
Qed.

Lemma applyNumber_fits (numStr : string) (req : BatchMatchRequest) (r : BatchMatchResult) :
  fits req r -> Error r = None -> fits req (applyNumber numStr req r).
Proof.
  intros Hfit Herr. unfold applyNumber.
  destruct (Atoi numStr) as [num|]; [|exact Hfit].
  destruct (Z.eqb_spec num 0) as [->|Hne].
  - split; [apply Hfit|]. left. cbn. repeat split. discriminate.
  - destruct ((0 <? num) && (num <=? Z.of_nat (List.length (Options req)))) eqn:Er;
      [|exact Hfit].
    apply andb_true_iff in Er as [Hpos _]. apply Z.ltb_lt in Hpos.
    destruct (nth_error (Options req) (Z.to_nat (num - 1))) as [opt|] eqn:En; [|exact Hfit].
    split; [apply Hfit|]. right. cbn. split; [lia|]. split; [exact En | exact Herr].
Qed.

Lemma applyNumbers_fit (numbers : list string) (requests : list BatchMatchRequest)
    (results : list BatchMatchResult) :
  Forall2 (fun req r => fits req r /\ Error r = None) requests results ->
  Forall2 fits requests (applyNumbers numbers requests results).
Proof.
  intros H. revert numbers. induction H as [|req r requests results [Hfit Herr] _ IH];
    intros numbers.
  - destruct numbers; constructor.
  - destruct numbers as [|numStr numbers]; cbn [applyNumbers].
    + constructor; [exact Hfit|]. specialize (IH []).
      destruct requests, results; exact IH.
    + constructor; [apply applyNumber_fits; assumption | apply IH].
Qed.

Lemma indexOf_Some (matched : string) (options : list string) (start i : Z) :
  indexOf matched options start = Some i ->
  start <= i /\ nth_error options (Z.to_nat (i - start)) = Some matched.
Proof.
  revert start. induction options as [|opt rest IH]; intros start; [discriminate|].
  cbn [indexOf]. destruct (String.eqb_spec opt matched) as [->|Hne].
  - intros [= <-]. rewrite Z.sub_diag. split; [lia | reflexivity].
  - intros H. destruct (IH _ H) as (Hle & Hn). split; [lia|].
    replace (Z.to_nat (i - start)) with (S (Z.to_nat (i - (start + 1)))) by lia. exact Hn.
Qed.

Lemma indexOf_None (matched : string) (options : list string) (start : Z) :
  indexOf matched options start = None -> ~ In matched options.
Proof.
  revert start. induction options as [|opt rest IH]; intros start; [intros _ []|].
  cbn [indexOf]. destruct (String.eqb_spec opt matched) as [->|Hne]; [discriminate|].
  intros H [E|Hin]; [contradiction | exact (IH _ H Hin)].
Qed.

(** What [NormalizeVehicleBatch] returns. It fails without requests, and
    with two or more requests when the rate limiter fails. Otherwise it
    returns one result per request, in the order of the requests and with
    their ids, each either "no match" (index -1, empty value, an error) or
    the index of one of the request's options with that option as value and
    no error, whatever the LLM answered. It panics only on two or more
    requests one of which has no option. *)
Theorem NormalizeVehicleBatch_fits (c : Provider) (requests : list BatchMatchRequest) :
  match NormalizeVehicleBatch c requests with
  | Value (Ok results) => Forall2 fits requests results
  | Value (Err _) =>
      requests = [] \/ ((2 <= List.length requests)%nat /\ exists e, wait c = Err e)
  | Panic _ =>
      (2 <= List.length requests)%nat /\ exists req, In req requests /\ Options req = []
  end.
Proof.
  unfold NormalizeVehicleBatch. destruct requests as [|req [|req2 rest]].
  - left. reflexivity.
  - destruct (NormalizeVehicle c (Vehicle req) (Options req)) as [matched|e] eqn:En.
    + pose proof (SmartMatcherResolve.NormalizeVehicle_In _ _ _ _ En) as Hin.
      destruct (indexOf matched (Options req) 0) as [i|] eqn:Ei.
      * destruct (indexOf_Some _ _ _ _ Ei) as (Hle & Hn). rewrite Z.sub_0_r in Hn.
        constructor; [|constructor]. split; [reflexivity|]. right. cbn. auto.
      * exfalso. exact (indexOf_None _ _ _ Ei Hin).
    + constructor; [|constructor]. split; [reflexivity|]. left. cbn.
      repeat split. discriminate.
  - set (requests := req :: req2 :: rest).
    assert (Hlen : (2 <= List.length requests)%nat) by (cbn; lia).
    destruct (wait c) as [[]|e]; [|right; split; [exact Hlen | eauto]].
    destruct (doRequestWithFailover c (batchPrompt requests)) as [response|e].
    + unfold parseBatchResponse. pose proof (defaults_fit requests) as Hd.
      destruct (defaults requests) as [reason|results].
      * split; [exact Hlen | exact Hd].
      * apply applyNumbers_fit, Hd.
    + clear Hlen. induction requests as [|r rs IH]; constructor; [|exact IH].
      split; [reflexivity|]. left. cbn. repeat split. discriminate.
Qed.

(** The answer "2, 0" on two requests: the second option for the first
    vehicle, no match for the second. *)
Example NormalizeVehicleBatch_two :
  NormalizeVehicleBatch fixedProvider twoRequests
  = Value (Ok [ {| ResultID := 11; MatchedIndex := 1; MatchedValue := "Gol 1.0";
                   Error := None |};
                {| ResultID := 12; MatchedIndex := -1; MatchedValue := "";
                   Error := Some "LLM indicated no match" |} ]).
Proof. vm_compute. reflexivity. Qed.

End GroqBatch.

(** ** internal/client/groq.go: the pool of API keys *)

Module GroqKeys.

(** Durations and times are nanoseconds; [None] is the zero [time.Time]. *)
Definition Minute : Z := 60 * 1000000000.
Definition maxDuration : Z := 2 ^ 63 - 1.

Record keyStatus := {
  rateLimited : bool;
  rateLimitedAt : option Z;
  dailyExhausted : bool;
  dailyExhaustedAt : option Z;
  errorCount : Z
}.

(** The fields of [GroqClient] that the key bookkeeping touches. *)
Record GroqClient := {
  apiKeys : list string;
  currentKey : Z;
  keyStatuses : list keyStatus;
  allExhaustedUntil : option Z
}.

(** [NewGroqClientMultiKey]: [None] is its panic on an empty key list. *)
Definition NewGroqClientMultiKey (keys : list string) : option GroqClient :=
  match keys with
  | [] => None
  | _ =>
      Some {| apiKeys := keys; currentKey := 0;
              keyStatuses :=
                repeat {| rateLimited := false; rateLimitedAt := None;
                          dailyExhausted := false; dailyExhaustedAt := None;
                          errorCount := 0 |} (List.length keys);
              allExhaustedUntil := None |}
  end.

(** [time.Since(t)] read at the time [now]; the distance from the zero time
    saturates. *)
Definition Since (now : Z) (t : option Z) : Z :=
  match t with
  | None => maxDuration
  | Some t => now - t
  end.

(** The marking of the failed key. *)
Definition markFailed (now : Z) (isDailyLimit : bool) (status : keyStatus) : keyStatus :=
  if isDailyLimit then
    {| rateLimited := rateLimited status; rateLimitedAt := rateLimitedAt status;
       dailyExhausted := true; dailyExhaustedAt := Some now;
       errorCount := errorCount status |}
  else
    {| rateLimited := true; rateLimitedAt := Some now;
       dailyExhausted := dailyExhausted status; dailyExhaustedAt := dailyExhaustedAt status;
       errorCount := errorCount status |}.

(** The expiry of the cooldown of a key. *)
Definition cooled (status : keyStatus) : keyStatus :=
  {| rateLimited := false; rateLimitedAt := rateLimitedAt status;
     dailyExhausted := dailyExhausted status; dailyExhaustedAt := dailyExhaustedAt status;
     errorCount := 0 |}.

(** [int32(idx)]. *)
Definition int32 (n : Z) : Z := (n + 2 ^ 31) mod 2 ^ 32 - 2 ^ 31.

(** The search loop of [rotateKey], from iteration [i] with [fuel]
    iterations left: the key found, if any, and the statuses; [None] is a
    panic, an index out of range. [clock i] is the time read in iteration
    [i]. *)
Fixpoint findNext (clock : nat -> Z) (n startIdx : nat) (i fuel : nat)
    (statuses : list keyStatus) : option (option nat * list keyStatus) :=
  match fuel with
  | O => Some (None, statuses)
  | S fuel' =>
      let idx := ((startIdx + i) mod n)%nat in
      match statuses !! idx with
      | None => None
      | Some status =>
          if dailyExhausted status then findNext clock n startIdx (S i) fuel' statuses
          else
            let expired :=
              rateLimited status && (Minute <? Since (clock i) (rateLimitedAt status)) in
            let status := if expired then cooled status else status in
            let statuses := if expired then <[idx := status]> statuses else statuses in
            if negb (rateLimited status) then Some (Some idx, statuses)
            else findNext clock n startIdx (S i) fuel' statuses
      end
  end.

(** [rotateKey]: whether a key was found, and the client after the call.
    [None] is a panic: an index out of range or the remainder by zero keys.
    [now] is the time at entry and [nextMidnight] the next midnight UTC. *)
Definition rotateKey (now : Z) (clock : nat -> Z) (nextMidnight : Z) (c : GroqClient)
    (failedIdx : Z) (isDailyLimit : bool) : option (bool * GroqClient) :=
  if failedIdx <? 0 then None
  else
  match keyStatuses c !! Z.to_nat failedIdx with
  | None => None
  | Some status =>
      let statuses :=
        <[Z.to_nat failedIdx := markFailed now isDailyLimit status]> (keyStatuses c) in
      let n := List.length (apiKeys c) in
      if Nat.eqb n 0 then None
      else
      let startIdx := ((Z.to_nat failedIdx + 1) mod n)%nat in
      match findNext clock n startIdx 0 n statuses with
      | None => None
      | Some (Some idx, statuses) =>
          Some (true, {| apiKeys := apiKeys c; currentKey := int32 (Z.of_nat idx);
                         keyStatuses := statuses;
                         allExhaustedUntil := allExhaustedUntil c |})
      | Some (None, statuses) =>
          let allDailyExhausted := forallb dailyExhausted statuses in
          Some (false, {| apiKeys := apiKeys c; currentKey := currentKey c;
                          keyStatuses := statuses;
                          allExhaustedUntil :=
                            if allDailyExhausted then Some nextMidnight
                            else allExhaustedUntil c |})
      end
  end.

(** [markKeySuccess]. *)
Definition markKeySuccess (c : GroqClient) (idx : nat) : option GroqClient :=
  match keyStatuses c !! idx with
  | None => None
  | Some status =>
      Some {| apiKeys := apiKeys c; currentKey := currentKey c;
              keyStatuses :=
                <[idx := {| rateLimited := false; rateLimitedAt := rateLimitedAt status;
                            dailyExhausted := dailyExhausted status;
                            dailyExhaustedAt := dailyExhaustedAt status;
                            errorCount := 0 |}]> (keyStatuses c);
              allExhaustedUntil := allExhaustedUntil c |}
  end.

(** [resetAllDailyLimits]. *)
Definition resetAllDailyLimits (c : GroqClient) : GroqClient :=
  {| apiKeys := apiKeys c; currentKey := currentKey c;
     keyStatuses :=
       map (fun status =>
              {| rateLimited := false; rateLimitedAt := None;
                 dailyExhausted := false;
                 dailyExhaustedAt :=
                   if dailyExhausted status then None else dailyExhaustedAt status;
                 errorCount := 0 |}) (keyStatuses c);
     allExhaustedUntil := None |}.

(** The counters of [GetKeyStatus]: total, active, rate limited and daily
    exhausted keys. *)
Record KeyCounts := {
  total_keys : Z;
  active_keys : Z;
  rate_limited_keys : Z;
  daily_exhausted_keys : Z;
  all_exhausted_until : option Z
}.

Fixpoint countKeys (statuses : list keyStatus) (active limited exhausted : Z) : Z * Z * Z :=
  match statuses with
  | [] => (active, limited, exhausted)
  | status :: rest =>
      if dailyExhausted status then countKeys rest active limited (exhausted + 1)
      else if rateLimited status then countKeys rest active (limited + 1) exhausted
      else countKeys rest (active + 1) limited exhausted
  end.

Definition GetKeyStatus (c : GroqClient) : KeyCounts :=
  let '(active, limited, exhausted) := countKeys (keyStatuses c) 0 0 0 in
  {| total_keys := Z.of_nat (List.length (apiKeys c)); active_keys := active;
     rate_limited_keys := limited; daily_exhausted_keys := exhausted;
     all_exhausted_until := allExhaustedUntil c |}.

(** A client as the constructor and the operations keep it: one status per
    key, at least one key. *)
Definition wellFormed (c : GroqClient) : Prop :=
  List.length (keyStatuses c) = List.length (apiKeys c) /\
  (0 < List.length (apiKeys c))%nat /\ Z.of_nat (List.length (apiKeys c)) < 2 ^ 31.

(** A key that a request may use. *)
Definition available (status : keyStatus) : Prop :=
  dailyExhausted status = false /\ rateLimited status = false.

(** A client with three fresh keys. *)
Definition threeKeys : GroqClient :=
  {| apiKeys := ["gsk_a"; "gsk_b"; "gsk_c"]; currentKey := 0;
     keyStatuses :=
       repeat {| rateLimited := false; rateLimitedAt := None; dailyExhausted := false;
                 dailyExhaustedAt := None; errorCount := 0 |} 3;
     allExhaustedUntil := None |}.

Lemma cyclic_cover (n s j : nat) :
  (s < n)%nat -> (j < n)%nat -> exists k, (k < n)%nat /\ ((s + k) mod n = j)%nat.
Proof.
  intros Hs Hj. destruct (Nat.le_gt_cases s j) as [Hle|Hgt].
  - exists (j - s)%nat. split; [lia|].
    replace (s + (j - s))%nat with j by lia. apply Nat.mod_small, Hj.
  - exists (n - s + j)%nat. split; [lia|].
    replace (s + (n - s + j))%nat with (j + 1 * n)%nat by lia.
    rewrite Nat.Div0.mod_add. apply Nat.mod_small, Hj.
Qed.

(** The search loop changes at most the key it finds, and finds none only
    when every key it visits is daily exhausted or in its cooldown. *)
Lemma findNext_spec (clock : nat -> Z) (n startIdx : nat) (fuel i : nat)
    (statuses : list keyStatus) :
  List.length statuses = n -> (0 < n)%nat ->
  exists found statuses',
    findNext clock n startIdx i fuel statuses = Some (found, statuses') /\
    match found with
    | Some idx =>
        exists status,
          statuses !! idx = Some status /\ dailyExhausted status = false /\
          (statuses' = statuses /\ rateLimited status = false \/
           statuses' = <[idx := cooled status]> statuses)
    | None =>
        statuses' = statuses /\
        forall k, (i <= k < i + fuel)%nat ->
          exists status, statuses !! ((startIdx + k) mod n)%nat = Some status /\
                         (dailyExhausted status = true \/ rateLimited status = true)
    end.
Proof.
  intros Hlen Hn. revert i. induction fuel as [|fuel IH]; intros i.
  - exists None, statuses. split; [reflexivity|]. split; [reflexivity|]. intros k Hk. lia.
  - cbn [findNext]. cbv zeta.
    assert (Hlt : ((startIdx + i) mod n < List.length statuses)%nat)
      by (rewrite Hlen; apply Nat.mod_upper_bound; lia).
    destruct (lookup_lt_is_Some_2 _ _ Hlt) as (status & Hst). rewrite Hst.
    assert (Hrest : forall st, statuses !! ((startIdx + i) mod n)%nat = Some st ->
              dailyExhausted st = true \/ rateLimited st = true ->
              exists found statuses',
                findNext clock n startIdx (S i) fuel statuses = Some (found, statuses') /\
                match found with
                | Some idx =>
                    exists status,
                      statuses !! idx = Some status /\ dailyExhausted status = false /\
                      (statuses' = statuses /\ rateLimited status = false \/
                       statuses' = <[idx := cooled status]> statuses)
                | None =>
                    statuses' = statuses /\
                    forall k, (i <= k < i + S fuel)%nat ->
                      exists status,
                        statuses !! ((startIdx + k) mod n)%nat = Some status /\
                        (dailyExhausted status = true \/ rateLimited status = true)
                end).
    { intros st Hs Hbad. destruct (IH (S i)) as (found & statuses' & Hf & Hspec).
      exists found, statuses'. split; [exact Hf|].
      destruct found as [idx|]; [exact Hspec|].
      destruct Hspec as (-> & Hall). split; [reflexivity|].
      intros k Hk. destruct (Nat.eq_dec k i) as [->|Hne]; [eauto | apply Hall; lia]. }
    destruct (dailyExhausted status) eqn:Ed; [apply (Hrest status Hst); auto|].
    destruct (rateLimited status) eqn:Er.
    + cbn [andb]. destruct (Minute <? Since (clock i) (rateLimitedAt status)).
      * cbn [cooled rateLimited negb]. eexists _, _. split; [reflexivity|].
        exists status. auto.
      * rewrite Er. cbn [negb]. apply (Hrest status Hst). auto.
    + cbn [andb]. rewrite Er. cbn [negb]. eexists _, _. split; [reflexivity|].
      exists status. auto.
Qed.

Lemma int32_small (n : Z) : 0 <= n < 2 ^ 31 -> int32 n = n.
Proof. intros H. unfold int32. rewrite Z.mod_small; lia. Qed.

Lemma lookup_insert_status (statuses : list keyStatus) (i j : nat) (new status' : keyStatus) :
  <[i := new]> statuses !! j = Some status' ->
  exists status, statuses !! j = Some status /\
                 (i = j /\ status' = new \/ i <> j /\ status' = status).
Proof.
  intros H. destruct (Nat.eq_dec i j) as [->|Hne].
  - assert (Hlt : (j < List.length statuses)%nat).
    { apply lookup_lt_Some in H. rewrite length_insert in H. exact H. }
    rewrite list_lookup_insert_eq in H by exact Hlt. injection H as <-.
    destruct (lookup_lt_is_Some_2 _ _ Hlt) as (st & Hst). exists st. auto.
  - rewrite list_lookup_insert_ne in H by exact Hne. exists status'. auto.
Qed.

(** What [rotateKey] does on a client with one status per key, for a failed
    key of the pool. It does not panic and keeps the keys. It sets the
    daily exhaustion of the failed key when the limit is the daily one, and
    changes the daily exhaustion of no other key. When it answers true,
    the current key is a key of the pool that is neither daily exhausted
    nor rate limited, and it is not the failed key when the limit is the
    daily one. When it answers false, the current key is as before, every
    key is daily exhausted or rate limited, and the client waits for the
    next midnight exactly when every key is daily exhausted. *)
Theorem rotateKey_selects_available (now : Z) (clock : nat -> Z) (nextMidnight : Z)
    (c : GroqClient) (failedIdx : Z) (isDailyLimit : bool) :
  wellFormed c -> 0 <= failedIdx < Z.of_nat (List.length (apiKeys c)) ->
  exists found c',
    rotateKey now clock nextMidnight c failedIdx isDailyLimit = Some (found, c') /\
    wellFormed c' /\ apiKeys c' = apiKeys c /\
    (forall idx status',
       keyStatuses c' !! idx = Some status' ->
       exists status,
         keyStatuses c !! idx = Some status /\
         dailyExhausted status'
         = dailyExhausted status || (isDailyLimit && (Z.of_nat idx =? failedIdx))) /\
    if found then
      (exists status,
         keyStatuses c' !! Z.to_nat (currentKey c') = Some status /\ available status) /\
      0 <= currentKey c' < Z.of_nat (List.length (apiKeys c)) /\
      (isDailyLimit = true -> currentKey c' <> failedIdx) /\
      allExhaustedUntil c' = allExhaustedUntil c
    else
      currentKey c' = currentKey c /\
      Forall (fun status => ~ available status) (keyStatuses c') /\
      allExhaustedUntil c'
      = if forallb dailyExhausted (keyStatuses c') then Some nextMidnight
        else allExhaustedUntil c.
Proof.
  intros (Hlen & Hpos & Hsmall) Hidx. unfold rotateKey.
  destruct (Z.ltb_spec failedIdx 0) as [Hneg|_]; [lia|].
  set (f := Z.to_nat failedIdx). set (n := List.length (apiKeys c)) in *.
  assert (Hf : (f < List.length (keyStatuses c))%nat) by (rewrite Hlen; subst f; lia).
  destruct (lookup_lt_is_Some_2 _ _ Hf) as (failed & Hfailed). rewrite Hfailed. cbv zeta.
  destruct (Nat.eqb_spec n 0) as [E|_]; [lia|].
  set (statuses0 := <[f := markFailed now isDailyLimit failed]> (keyStatuses c)).
  assert (Hlen0 : List.length statuses0 = n) by (subst statuses0; rewrite length_insert; exact Hlen).
  assert (Hdaily0 : forall j s0, statuses0 !! j = Some s0 ->
            exists s, keyStatuses c !! j = Some s /\
              dailyExhausted s0
              = dailyExhausted s || (isDailyLimit && (Z.of_nat j =? failedIdx))).
  { intros j s0 Hj. destruct (lookup_insert_status _ _ _ _ _ Hj) as (s & Hs & Hcase).
    exists s. split; [exact Hs|]. destruct Hcase as [(<- & ->)|(Hne & ->)].
    - rewrite Hfailed in Hs. injection Hs as <-.
      replace (Z.of_nat f =? failedIdx) with true by (symmetry; apply Z.eqb_eq; subst f; lia).
      unfold markFailed. destruct isDailyLimit; cbn; [rewrite orb_true_r|rewrite orb_false_r];
        reflexivity.
    - replace (Z.of_nat j =? failedIdx) with false
        by (symmetry; apply Z.eqb_neq; subst f; lia).
      rewrite andb_false_r, orb_false_r. reflexivity. }
  destruct (findNext_spec clock n ((f + 1) mod n) n 0 statuses0 Hlen0 Hpos)
    as (found & statuses' & -> & Hspec).
  destruct found as [idx|].
  - destruct Hspec as (status & Hst & Hd & Hcase).
    assert (Hidxn : (idx < n)%nat) by (rewrite <- Hlen0; eapply lookup_lt_Some, Hst).
    assert (Hlen' : List.length statuses' = n).
    { destruct Hcase as [(-> & _)| ->]; [|rewrite length_insert]; exact Hlen0. }
    assert (Hchosen : exists st, statuses' !! idx = Some st /\ available st).
    { destruct Hcase as [(-> & Hr)| ->].
      - exists status. repeat split; assumption.
      - exists (cooled status). split; [apply list_lookup_insert_eq; lia|].
        split; [exact Hd | reflexivity]. }
    exists true. eexists. split; [reflexivity|]. cbn [apiKeys keyStatuses currentKey
      allExhaustedUntil]. fold n.
    rewrite int32_small by lia. rewrite Nat2Z.id.
    split; [repeat split; assumption|]. split; [reflexivity|]. split.
    + intros j s' Hj. destruct Hcase as [(-> & _)| ->]; [apply Hdaily0, Hj|].
      destruct (lookup_insert_status _ _ _ _ _ Hj) as (s0 & Hs0 & Hc).
      destruct (Hdaily0 j s0 Hs0) as (s & Hs & Heq). exists s. split; [exact Hs|].
      destruct Hc as [(<- & ->)|(_ & ->)]; [|exact Heq].
      rewrite Hst in Hs0. injection Hs0 as <-. exact Heq.
    + split; [exact Hchosen|]. split; [lia|]. split; [|reflexivity].
      intros -> Heq. destruct (Hdaily0 idx status Hst) as (s & _ & Hde).
      replace (Z.of_nat idx =? failedIdx) with true in Hde
        by (symmetry; apply Z.eqb_eq; exact Heq).
      cbn in Hde. rewrite orb_true_r in Hde. congruence.
  - destruct Hspec as (-> & Hall).
    exists false. eexists. split; [reflexivity|]. cbn [apiKeys keyStatuses currentKey
      allExhaustedUntil]. fold n.
    split; [repeat split; assumption|]. split; [reflexivity|].
    split; [exact Hdaily0|]. split; [reflexivity|]. split; [|reflexivity].
    apply Forall_lookup_2. intros j st Hj.
    assert (Hjn : (j < n)%nat) by (rewrite <- Hlen0; eapply lookup_lt_Some, Hj).
    destruct (cyclic_cover n ((f + 1) mod n) j) as (k & Hk & Hmod);
      [apply Nat.mod_upper_bound; lia | exact Hjn |].
    destruct (Hall k ltac:(lia)) as (st' & Hst' & Hbad).
    rewrite Hmod, Hj in Hst'. injection Hst' as <-.
    intros (Ha & Hb). destruct Hbad; congruence.
Qed.

Lemma rotateKey_selects_available_witness :
  exists found c',
    rotateKey 1000 (fun _ => 1001) 86400000000000 threeKeys 0 true = Some (found, c') /\
    wellFormed c' /\ apiKeys c' = apiKeys threeKeys /\
    (forall idx status',
       keyStatuses c' !! idx = Some status' ->
       exists status,
         keyStatuses threeKeys !! idx = Some status /\
         dailyExhausted status' = dailyExhausted status || (true && (Z.of_nat idx =? 0))) /\
    if found then
      (exists status,
         keyStatuses c' !! Z.to_nat (currentKey c') = Some status /\ available status) /\
      0 <= currentKey c' < Z.of_nat (List.length (apiKeys threeKeys)) /\
      (true = true -> currentKey c' <> 0) /\
      allExhaustedUntil c' = allExhaustedUntil threeKeys
    else
      currentKey c' = currentKey threeKeys /\
      Forall (fun status => ~ available status) (keyStatuses c') /\
      allExhaustedUntil c'
      = if forallb dailyExhausted (keyStatuses c') then Some 86400000000000
        else allExhaustedUntil threeKeys.
Proof.
  apply (rotateKey_selects_available 1000 (fun _ => 1001) 86400000000000 threeKeys 0 true).
  - unfold wellFormed. vm_compute. repeat split; lia.
  - vm_compute. split; [discriminate | reflexivity].
Defined.

Lemma countKeys_sum (statuses : list keyStatus) (active limited exhausted : Z) :
  let '(a, l, e) := countKeys statuses active limited exhausted in
  a + l + e = active + limited + exhausted + Z.of_nat (List.length statuses) /\
  active <= a /\ limited <= l /\ exhausted <= e.
Proof.
  revert active limited exhausted.
  induction statuses as [|status rest IH]; intros active limited exhausted.
  - cbn. lia.
  - cbn [countKeys List.length].
    destruct (dailyExhausted status); [|destruct (rateLimited status)].
    + specialize (IH active limited (exhausted + 1)).
      destruct (countKeys rest active limited (exhausted + 1)) as [[a l] e]. lia.
    + specialize (IH active (limited + 1) exhausted).
      destruct (countKeys rest active (limited + 1) exhausted) as [[a l] e]. lia.
    + specialize (IH (active + 1) limited exhausted).
      destruct (countKeys rest (active + 1) limited exhausted) as [[a l] e]. lia.
Qed.

(** The three counters of [GetKeyStatus] add up to the number of keys. *)
Lemma GetKeyStatus_adds_up (c : GroqClient) :
  wellFormed c ->
  active_keys (GetKeyStatus c) + rate_limited_keys (GetKeyStatus c)
  + daily_exhausted_keys (GetKeyStatus c) = total_keys (GetKeyStatus c).
Proof.
  intros (Hlen & _). unfold GetKeyStatus.
  pose proof (countKeys_sum (keyStatuses c) 0 0 0) as H.
  destruct (countKeys (keyStatuses c) 0 0 0) as [[a l] e]. cbn. rewrite <- Hlen. lia.
Qed.

(** After [resetAllDailyLimits] every key is available again. *)
Lemma resetAllDailyLimits_available (c : GroqClient) :
  Forall available (keyStatuses (resetAllDailyLimits c)) /\
  allExhaustedUntil (resetAllDailyLimits c) = None /\
  apiKeys (resetAllDailyLimits c) = apiKeys c.
Proof.
  split; [|split; reflexivity]. cbn [resetAllDailyLimits keyStatuses].
  induction (keyStatuses c) as [|status rest IH]; constructor; [split; reflexivity | exact IH].
Qed.

End GroqKeys.

(** ** The pipeline over its stores: service.go with the specification
    repository and the failure repository behind it

    The stores answer every statement: a connection failure is not
    modelled. A vehicle is processed by one worker at a time. *)

Module ScraperStores.
Import Model Scraper.

Record Stores := {
  especificacoes : list EspecificacaoTecnica;
  falhas : ScraperFalhaRepo.Table
}.

(** Stores without rows. *)
Definition emptyStores : Stores :=
  {| especificacoes := []; falhas := ScraperFalhaRepo.emptyTable |}.

Section Stores.

Variable removeAccents : string -> string.

(** Whether the table "ESPECIFICACAO_TECNICA" accepts a row (its column
    sizes and its foreign key). *)
Variable accepts : EspecificacaoTecnica -> bool.

(** The vehicle ids of the table "APLICACAO", the clock of the process and
    the clock of the database. *)
Variable aplicacao : Z -> bool.
Variable now dbNow : Z.

(** [ExistsForVehicle] on the rows. *)
Definition existsForVehicle (rows : list EspecificacaoTecnica) (codigoAplicacao : Z) : bool :=
  existsb (fun row => EspecCodigoAplicacao row =? codigoAplicacao) rows.

(** The service over the stores as they are when the vehicle is taken. *)
Definition serviceOver (st : Stores) (dryRun : bool) (client : MotulClient)
  : ScraperService :=
  {| DryRun := dryRun;
     specRepo :=
       Some {| Insert := fun _ spec =>
                 if accepts spec then None else Some "failed to insert especificacao";
               ExistsForVehicle := fun id => Ok (existsForVehicle (especificacoes st) id) |};
     falhaRepo :=
       Some {| Upsert := fun id tipoErro mensagemErro =>
                 match ScraperFalhaRepo.Upsert aplicacao now dbNow (falhas st) id tipoErro
                         mensagemErro with
                 | Ok _ => None
                 | Err e => Some e
                 end;
               MarkResolved := fun _ => None |};
     motulClient := client |}.

(** The effect of a call on the stores. *)
Definition applyCall (st : Stores) (c : Call) : Stores :=
  match c with
  | CallInsert spec =>
      if accepts spec
      then {| especificacoes := (especificacoes st ++ [spec])%list; falhas := falhas st |}
      else st
  | CallUpsert id tipoErro mensagemErro =>
      match ScraperFalhaRepo.Upsert aplicacao now dbNow (falhas st) id tipoErro
              mensagemErro with
      | Ok t => {| especificacoes := especificacoes st; falhas := t |}
      | Err _ => st
      end
  | CallMarkResolved id =>
      {| especificacoes := especificacoes st;
         falhas := ScraperFalhaRepo.MarkResolved dbNow (falhas st) id |}
  | _ => st
  end.

Definition applyCalls (calls : list Call) (st : Stores) : Stores :=
  fold_left applyCall calls st.

(** [processVehicle] over the stores: the tracker and the stores after the
    call. *)
Definition processVehicleOver (st : Stores) (dryRun : bool) (client : MotulClient)
    (v : Aplicacao) (p : ProgressTracker) : ProgressTracker * Stores :=
  let '(p', calls) := processVehicle removeAccents (serviceOver st dryRun client) v p in
  (p', applyCalls calls st).


Lemma existsForVehicle_added (rows added : list EspecificacaoTecnica) (id : Z) :
  added <> [] -> Forall (fun row => EspecCodigoAplicacao row = id) added ->
  existsForVehicle (rows ++ added) id = true.
Proof.
  intros Hne Hall. unfold existsForVehicle. rewrite existsb_app.
  destruct added as [|row rest]; [contradiction|]. inversion Hall as [|? ? Hrow _]; subst.
  cbn [existsb]. rewrite Z.eqb_refl. cbn. apply orb_true_r.
Qed.

(** The save loop over the store appends the rows the table accepts, all
    of them rows of the vehicle, and counts them. *)
Lemma saveLoop_over (v : Aplicacao) (mv : MotulVehicle) (confidence : float)
    (specs : list MotulAdapter.OilSpecification) (i : nat) (st : Stores) :
  let repo :=
    {| Insert := fun (_ : nat) spec =>
         if accepts spec then None else Some "failed to insert especificacao";
       ExistsForVehicle := fun id => Ok (existsForVehicle (especificacoes st) id) |} in
  forall st' : Stores,
  let '(calls, savedCount) := saveLoop repo v mv confidence i specs in
  exists added,
    applyCalls calls st'
    = {| especificacoes := (especificacoes st' ++ added)%list; falhas := falhas st' |} /\
    Forall (fun row => EspecCodigoAplicacao row = CodigoAplicacao v) added /\
    savedCount = Z.of_nat (List.length added).
Proof.
  cbv zeta. unfold applyCalls. revert i. induction specs as [|spec rest IH]; intros i st'.
  - cbn. exists []. rewrite app_nil_r. destruct st'. repeat split. constructor.
  - cbn [saveLoop]. cbv zeta.
    set (e := {| EspecCodigoAplicacao := CodigoAplicacao v |}).
    cbn [Insert]. destruct (accepts e) eqn:Ea.
    + specialize (IH (S i)
        {| especificacoes := (especificacoes st' ++ [e])%list; falhas := falhas st' |}).
      destruct (saveLoop _ v mv confidence (S i) rest) as [calls n].
      destruct IH as (added & Happ & Hall & Hn).
      exists (e :: added). cbn [fold_left applyCall]. rewrite Ea, Happ.
      cbn [especificacoes falhas]. rewrite <- app_assoc. split; [reflexivity|].
      split; [constructor; [reflexivity | exact Hall]|]. cbn [List.length]. lia.
    + specialize (IH (S i) st').
      destruct (saveLoop _ v mv confidence (S i) rest) as [calls n].
      destruct IH as (added & Happ & Hall & Hn).
      exists added. cbn [fold_left applyCall]. rewrite Ea. auto.
Qed.

(** A call of [processVehicle] over the stores either leaves the
    specifications as they are, or is a success that appends rows of the
    vehicle and marks its failure resolved. *)
Lemma processVehicle_over (st : Stores) (dryRun : bool) (client : MotulClient)
    (v : Aplicacao) (p : ProgressTracker) :
  let '(p1, calls) := processVehicle removeAccents (serviceOver st dryRun client) v p in
  especificacoes (applyCalls calls st) = especificacoes st \/
  (match parseVehicleDescription removeAccents v with
   | Ok (brand, modelName, _) => isCommercialVehicle brand modelName (DescricaoAplicacao v)
   | Err _ => false
   end = false /\
   Success p1 = incr (Success p) /\
   exists added,
     added <> [] /\
     Forall (fun row => EspecCodigoAplicacao row = CodigoAplicacao v) added /\
     applyCalls calls st
     = {| especificacoes := (especificacoes st ++ added)%list;
          falhas := ScraperFalhaRepo.MarkResolved dbNow (falhas st) (CodigoAplicacao v) |}).
Proof.
  unfold processVehicle, applyCalls. cbv zeta.
  destruct (match parseVehicleDescription removeAccents v with
            | Ok (brand, modelName, _) =>
                isCommercialVehicle brand modelName (DescricaoAplicacao v)
            | Err _ => false
            end) eqn:Ecom; [left; reflexivity|].
  cbn [serviceOver specRepo falhaRepo ExistsForVehicle DryRun motulClient].
  destruct (existsForVehicle (especificacoes st) (CodigoAplicacao v)); [left; reflexivity|].
  destruct (parseVehicleDescription removeAccents v) as [[[brand modelName] year]|e];
    [|left; reflexivity].
  destruct dryRun; [left; reflexivity|].
  destruct (SearchVehicle client brand modelName year) as [[mv|]|e].
  - destruct (GetSpecifications client (MotulID mv)) as [[|spec specs]|e].
    + left. reflexivity.
    + pose proof (saveLoop_over v mv
                    (if isExactMatch removeAccents v mv then 0.95%float else 0.85%float)
                    (spec :: specs) 0 st st) as Hsave.
      cbv zeta in Hsave. unfold applyCalls in Hsave.
      destruct (saveLoop _ v mv _ 0 (spec :: specs)) as [calls n].
      destruct Hsave as (added & Happ & Hall & Hn).
      rewrite !fold_left_app. cbn [fold_left applyCall].
      destruct (Z.ltb_spec 0 n) as [Hpos|Hzero].
      * right. split; [reflexivity|].
        split; [destruct (isExactMatch removeAccents v mv); reflexivity|].
        exists added. split; [intros ->; cbn in Hn; lia|]. split; [exact Hall|].
        unfold markFailureResolved. cbn [falhaRepo serviceOver].
        rewrite fold_left_app, Happ. reflexivity.
      * left. rewrite Happ. cbn [especificacoes].
        destruct added; [apply app_nil_r | cbn in Hn; lia].
    + left. unfold saveFailure. cbn [falhaRepo serviceOver].
      rewrite !fold_left_app. cbn [fold_left applyCall].
      destruct (ScraperFalhaRepo.Upsert _ _ _ _ _ _ _); reflexivity.
  - left. reflexivity.
  - left. unfold saveFailure. cbn [falhaRepo serviceOver].
    rewrite !fold_left_app. cbn [fold_left applyCall].
    destruct (ScraperFalhaRepo.Upsert _ _ _ _ _ _ _); reflexivity.
Qed.

(** Once [processVehicle] has saved a specification for a vehicle, the
    vehicle is settled. The call counted it as a success; the store holds a
    specification of the vehicle; a failure record of the vehicle, if there
    is one, is resolved; and every later call for the vehicle, in a dry run
    or not and whatever the advisor would answer, only asks the store
    whether specifications exist, counts the vehicle as skipped and leaves
    the stores as they are. *)
Theorem saved_vehicle_is_settled (st : Stores) (dryRun : bool) (client : MotulClient)
    (v : Aplicacao) (p : ProgressTracker) :
  let p1 := fst (processVehicleOver st dryRun
                   client v p) in
  let st1 := snd (processVehicleOver st dryRun
                    client v p) in
  (List.length (especificacoes st) < List.length (especificacoes st1))%nat ->
  Success p1 = incr (Success p) /\
  existsForVehicle (especificacoes st1) (CodigoAplicacao v) = true /\
  (forall row,
     ScraperFalhaRepo.rows (falhas st1) !! CodigoAplicacao v = Some row ->
     ScraperFalhaRepo.Resolvido row = true) /\
  forall dryRun' client' p',
    processVehicle removeAccents (serviceOver st1 dryRun' client') v p'
    = (IncrementSkipped (IncrementProcessed (SetCurrentVehicle (DescricaoAplicacao v) p')),
       [CallExistsForVehicle (CodigoAplicacao v)]) /\
    processVehicleOver st1 dryRun' client' v p'
    = (IncrementSkipped (IncrementProcessed (SetCurrentVehicle (DescricaoAplicacao v) p')),
       st1).
Proof.
  cbv zeta.
  pose proof (processVehicle_over st dryRun client v p) as H.
  assert (Hrun : processVehicleOver st dryRun client v p
                 = (fst (processVehicle removeAccents (serviceOver st dryRun client) v p),
                    applyCalls
                      (snd (processVehicle removeAccents (serviceOver st dryRun client) v p))
                      st)).
  { unfold processVehicleOver.
    destruct (processVehicle removeAccents (serviceOver st dryRun client) v p). reflexivity. }
  rewrite Hrun. clear Hrun.
  destruct (processVehicle removeAccents (serviceOver st dryRun client) v p) as [p1 calls].
  cbn [fst snd]. intros Hgrow.
  destruct H as [Hsame|(Hcom & Hsucc & added & Hne & Hall & Happ)];
    [rewrite Hsame in Hgrow; lia|].
  rewrite Happ. cbn [especificacoes falhas].
  assert (Hex : existsForVehicle (especificacoes st ++ added) (CodigoAplicacao v) = true)
    by (apply existsForVehicle_added; assumption).
  split; [exact Hsucc|]. split; [exact Hex|]. split.
  - intros row. unfold ScraperFalhaRepo.MarkResolved.
    destruct (ScraperFalhaRepo.rows (falhas st) !! CodigoAplicacao v) as [old|] eqn:Eold.
    + cbn [ScraperFalhaRepo.rows]. rewrite lookup_insert_eq. intros [= <-]. reflexivity.
    + rewrite Eold. discriminate.
  - intros dryRun' client' p'.
    assert (Hskip :
      processVehicle removeAccents
        (serviceOver {| especificacoes := (especificacoes st ++ added)%list;
                    falhas := ScraperFalhaRepo.MarkResolved dbNow (falhas st)
                                (CodigoAplicacao v) |} dryRun' client') v p'
      = (IncrementSkipped (IncrementProcessed (SetCurrentVehicle (DescricaoAplicacao v) p')),
         [CallExistsForVehicle (CodigoAplicacao v)])).
    { unfold processVehicle. cbv zeta. rewrite Hcom.
      cbn [serviceOver specRepo ExistsForVehicle especificacoes]. rewrite Hex.
      reflexivity. }
    split; [exact Hskip|]. unfold processVehicleOver. rewrite Hskip. reflexivity.
Qed.

End Stores.

(** A store that accepts every row, an advisor that finds the vehicle. *)
Lemma saved_vehicle_is_settled_witness :
  let run := processVehicleOver (fun t => t) (fun _ => true) (fun _ => true) 1000 1000
               emptyStores false (motulClient ScraperPipelineFacts.findingService)
               ScraperPipelineFacts.golFromDatabase (NewProgressTracker 1) in
  Success (fst run) = incr (Success (NewProgressTracker 1)) /\
  existsForVehicle (especificacoes (snd run))
    (CodigoAplicacao ScraperPipelineFacts.golFromDatabase) = true /\
  (forall row,
     ScraperFalhaRepo.rows (falhas (snd run))
       !! CodigoAplicacao ScraperPipelineFacts.golFromDatabase = Some row ->
     ScraperFalhaRepo.Resolvido row = true) /\
  forall dryRun' client' p',
    processVehicle (fun t => t)
      (serviceOver (fun _ => true) (fun _ => true) 1000 1000 (snd run) dryRun' client')
      ScraperPipelineFacts.golFromDatabase p'
    = (IncrementSkipped
         (IncrementProcessed
            (SetCurrentVehicle (DescricaoAplicacao ScraperPipelineFacts.golFromDatabase) p')),
       [CallExistsForVehicle (CodigoAplicacao ScraperPipelineFacts.golFromDatabase)]) /\
    processVehicleOver (fun t => t) (fun _ => true) (fun _ => true) 1000 1000 (snd run)
      dryRun' client' ScraperPipelineFacts.golFromDatabase p'
    = (IncrementSkipped
         (IncrementProcessed
            (SetCurrentVehicle (DescricaoAplicacao ScraperPipelineFacts.golFromDatabase) p')),
       snd run).
Proof.
  apply (saved_vehicle_is_settled (fun t => t) (fun _ => true) (fun _ => true) 1000 1000
           emptyStores false (motulClient ScraperPipelineFacts.findingService)
           ScraperPipelineFacts.golFromDatabase (NewProgressTracker 1)).
  vm_compute. lia.
Defined.

End ScraperStores.
